(** * py-typechecker: the runtime type checkers of [typechecker/checkers.py]

    A shallow embedding of the validators ([TypeChecker] and its container
    subclasses), of the registry [get_type_checker] with its process-wide
    cache, of [do_type_check] and of [FuncCallTypeChecker], followed by the
    properties of the specification that concern them.

    Python objects are embedded as follows.
    - a class is a [pyclass]; [isinstance] walks the method resolution order;
    - a runtime value is a [value];
    - a type annotation is a [desc]: a class, a [typing] special form, or a
      [typing] generic alias, which carries the identity of its object;
    - an exception is an [exception]: class, message and [__cause__];
    - a statement that may raise yields a [result];
    - code that reads or writes [get_type_checker._cache] runs in the state
      monad [M] over a [registry]. *)

From Stdlib Require Import List String Ascii ZArith NArith Bool Arith Lia.
From Stdlib Require Import DecimalString HexadecimalString.
Import ListNotations.
Open Scope string_scope.

Set Implicit Arguments.
Set Warnings "-register-all".

(** ** Text helpers *)

Definition dquote : string := String "034"%char EmptyString.
Definition squote : string := String "039"%char EmptyString.
Definition newline : string := String "010"%char EmptyString.

(** [sep.join(parts)] *)
Fixpoint join (sep : string) (parts : list string) : string :=
  match parts with
  | [] => EmptyString
  | [p] => p
  | p :: rest => p ++ sep ++ join sep rest
  end.

(** [needle in haystack] on strings *)
Fixpoint contains (needle haystack : string) : bool :=
  String.prefix needle haystack
  || match haystack with
     | EmptyString => false
     | String _ rest => contains needle rest
     end.

(** [str(n)] for a non-negative index and [repr(z)] for an [int] *)
Definition str_of_nat (n : nat) : string :=
  DecimalString.NilZero.string_of_uint (Nat.to_uint n).
Definition str_of_Z (z : Z) : string :=
  DecimalString.NilZero.string_of_int (Z.to_int z).

(** ** Classes and [isinstance] *)

Module Py.

(** The classes of the values below.  A user-defined class is named by its
    qualified name and the qualified names of its ancestors up to, and
    excluding, [object] (single inheritance from [object]). *)
Inductive pyclass : Type :=
| c_object | c_NoneType | c_int | c_bool | c_float | c_str
| c_tuple | c_list | c_dict | c_set
| c_user (name : string) (ancestors : list string).

Definition pyclass_eq_dec (c d : pyclass) : {c = d} + {c <> d}.
Proof. decide equality; [apply (list_eq_dec string_dec) | apply string_dec]. Defined.

Definition pyclass_eqb (c d : pyclass) : bool :=
  if pyclass_eq_dec c d then true else false.

(** [cls.__bases__]: the direct base class, if any *)
Definition base (c : pyclass) : option pyclass :=
  match c with
  | c_object => None
  | c_bool => Some c_int
  | c_user _ [] => Some c_object
  | c_user _ (a :: rest) => Some (c_user a rest)
  | _ => Some c_object
  end.

Fixpoint user_mro (name : string) (ancestors : list string) : list pyclass :=
  c_user name ancestors ::
  match ancestors with
  | [] => [c_object]
  | a :: rest => user_mro a rest
  end.

(** [cls.__mro__] *)
Definition mro (c : pyclass) : list pyclass :=
  match c with
  | c_object => [c_object]
  | c_bool => [c_bool; c_int; c_object]
  | c_user name ancestors => user_mro name ancestors
  | _ => [c; c_object]
  end.

(** [issubclass(c, d)]: [d] occurs in the method resolution order of [c] *)
Definition issubclass (c d : pyclass) : bool :=
  existsb (pyclass_eqb d) (mro c).

(** The subtype relation in words: a class is a subtype of itself and of
    every supertype of its direct base. *)
Inductive subtype : pyclass -> pyclass -> Prop :=
| subtype_refl c : subtype c c
| subtype_base c b d : base c = Some b -> subtype b d -> subtype c d.

(** ** Runtime values *)

(** A [float] is carried as its [repr], which determines it
    ([float(repr(x)) == x]); a [dict] and a [set] list their entries in
    iteration order; an instance of a user-defined class is carried with its
    class and its [id]. *)
Inductive value : Type :=
| VNone
| VBool (b : bool)
| VInt (z : Z)
| VFloat (lit : string)
| VStr (s : string)
| VTuple (items : list value)
| VList (items : list value)
| VDict (entries : list (value * value))
| VSet (items : list value)
| VInstance (name : string) (ancestors : list string) (id_ : N).

(** [type(obj)], which is [obj.__class__] on these values *)
Definition type_of (obj : value) : pyclass :=
  match obj with
  | VNone => c_NoneType
  | VBool _ => c_bool
  | VInt _ => c_int
  | VFloat _ => c_float
  | VStr _ => c_str
  | VTuple _ => c_tuple
  | VList _ => c_list
  | VDict _ => c_dict
  | VSet _ => c_set
  | VInstance name ancestors _ => c_user name ancestors
  end.

(** ** [repr] *)

Definition class_name (c : pyclass) : string :=
  match c with
  | c_object => "object" | c_NoneType => "NoneType" | c_int => "int"
  | c_bool => "bool" | c_float => "float" | c_str => "str"
  | c_tuple => "tuple" | c_list => "list" | c_dict => "dict" | c_set => "set"
  | c_user name _ => name
  end.

(** [repr(cls)] *)
Definition repr_class (c : pyclass) : string :=
  "<class " ++ squote ++ class_name c ++ squote ++ ">".

Definition hex_digit (n : N) : ascii :=
  match n with
  | 0 => "0" | 1 => "1" | 2 => "2" | 3 => "3" | 4 => "4" | 5 => "5"
  | 6 => "6" | 7 => "7" | 8 => "8" | 9 => "9" | 10 => "a" | 11 => "b"
  | 12 => "c" | 13 => "d" | 14 => "e" | _ => "f"
  end%N%char.

(** One character of a [str] inside its [repr], quoted with [q] *)
Definition repr_char (q : ascii) (ch : ascii) : string :=
  let n := N_of_ascii ch in
  if Ascii.eqb ch q then String "\" (String q EmptyString)
  else if Ascii.eqb ch "\" then "\\"
  else if (n =? 9)%N then "\t"
  else if (n =? 10)%N then "\n"
  else if (n =? 13)%N then "\r"
  else if ((n <? 32) || (n =? 127))%N
       then String "\" (String "x" (String (hex_digit (n / 16))
                                     (String (hex_digit (n mod 16)) EmptyString)))
  else String ch EmptyString.

(** [repr(s)] for a [str]: single quotes, unless [s] holds a single quote and
    no double quote *)
Definition repr_str (s : string) : string :=
  let q := if contains squote s && negb (contains dquote s)
           then "034"%char else "039"%char in
  String q (String.concat EmptyString (map (repr_char q) (list_ascii_of_string s)))
  ++ String q EmptyString.

(** [repr(obj)] *)
Fixpoint repr (obj : value) : string :=
  match obj with
  | VNone => "None"
  | VBool true => "True"
  | VBool false => "False"
  | VInt z => str_of_Z z
  | VFloat lit => lit
  | VStr s => repr_str s
  | VTuple [x] => "(" ++ repr x ++ ",)"
  | VTuple items => "(" ++ join ", " (map repr items) ++ ")"
  | VList items => "[" ++ join ", " (map repr items) ++ "]"
  | VDict entries =>
      "{" ++ join ", " (map (fun kv => repr (fst kv) ++ ": " ++ repr (snd kv)) entries) ++ "}"
  | VSet [] => "set()"
  | VSet items => "{" ++ join ", " (map repr items) ++ "}"
  | VInstance name _ id_ =>
      "<" ++ name ++ " object at 0x" ++ HexadecimalString.NilZero.string_of_uint (N.to_hex_uint id_) ++ ">"
  end.

End Py.
Import Py.

(** ** Exceptions and results *)

(** The exception classes: those of [typechecker/exceptions.py] and the
    built-in ones they derive from or that the checkers can meet. *)
Inductive exc_class : Type :=
| BaseException | Exception | TypeError | LookupError | IndexError | KeyError
| Warning | RuntimeWarning
| TypeCheckError      (* class TypeCheckError(TypeError) *)
| TypeCheckWarning.   (* class TypeCheckWarning(RuntimeWarning) *)

Definition exc_class_eqb (c d : exc_class) : bool :=
  match c, d with
  | BaseException, BaseException | Exception, Exception
  | TypeError, TypeError | LookupError, LookupError
  | IndexError, IndexError | KeyError, KeyError
  | Warning, Warning | RuntimeWarning, RuntimeWarning
  | TypeCheckError, TypeCheckError | TypeCheckWarning, TypeCheckWarning => true
  | _, _ => false
  end.

(** The base named in each class statement *)
Definition exc_base (c : exc_class) : option exc_class :=
  match c with
  | BaseException => None
  | Exception => Some BaseException
  | TypeError | LookupError | Warning => Some Exception
  | IndexError | KeyError => Some LookupError
  | RuntimeWarning => Some Warning
  | TypeCheckError => Some TypeError
  | TypeCheckWarning => Some RuntimeWarning
  end.

Fixpoint exc_chain (depth : nat) (c : exc_class) : list exc_class :=
  c :: match depth, exc_base c with
       | S d, Some b => exc_chain d b
       | _, _ => []
       end.

(** [cls.__mro__]; no chain above is longer than five classes *)
Definition exc_mro (c : exc_class) : list exc_class := exc_chain 4 c.

Definition exc_issubclass (c d : exc_class) : bool :=
  existsb (exc_class_eqb d) (exc_mro c).

(** An exception object: its class, its message and its [__cause__] *)
Inductive exception : Type :=
| Exc (cls : exc_class) (msg : string) (cause : option exception).

Definition exc_cls (e : exception) : exc_class := let 'Exc c _ _ := e in c.
Definition exc_msg (e : exception) : string := let 'Exc _ m _ := e in m.
Definition exc_cause (e : exception) : option exception := let 'Exc _ _ c := e in c.

(** [except handler:] catches [e] *)
Definition catches (handler : exc_class) (e : exception) : bool :=
  exc_issubclass (exc_cls e) handler.

(** The innermost exception of a chain, following [__cause__] *)
Fixpoint leaf (e : exception) : exception :=
  match e with
  | Exc _ _ (Some cause) => leaf cause
  | Exc _ _ None => e
  end.

(** The messages of a chain, outermost first *)
Fixpoint chain_messages (e : exception) : list string :=
  match e with
  | Exc _ m (Some cause) => m :: chain_messages cause
  | Exc _ m None => [m]
  end.

Inductive result (A : Type) : Type :=
| Return (a : A)
| Raise (e : exception).
Arguments Return {A} a.
Arguments Raise {A} e.

Definition bind {A B} (r : result A) (k : A -> result B) : result B :=
  match r with
  | Return a => k a
  | Raise e => Raise e
  end.

Notation "x <- r ;; k" := (bind r (fun x => k))
  (at level 61, r at next level, right associativity).
Notation "r ;;; k" := (bind r (fun _ => k))
  (at level 61, right associativity).

(** [for idx, x in enumerate(xs, start): body], stopping at the first raise *)
Definition for_enumerate {A} (body : nat -> A -> result unit)
  : nat -> list A -> result unit :=
  fix loop (idx : nat) (xs : list A) : result unit :=
    match xs with
    | [] => Return tt
    | x :: rest => body idx x ;;; loop (S idx) rest
    end.

(** ** Type descriptions *)

(** [__origin__] of a subscripted generic: the four the checkers know, or
    another one, such as [collections.abc.Sequence] for [typing.Sequence[int]] *)
Inductive origin : Type :=
| o_tuple | o_list | o_dict | o_set
| o_other (name : string).

Definition origin_eqb (o p : origin) : bool :=
  match o, p with
  | o_tuple, o_tuple | o_list, o_list | o_dict, o_dict | o_set, o_set => true
  | o_other n, o_other m => String.eqb n m
  | _, _ => false
  end.

(** A type annotation.
    - [DClass c]: the class [c] itself;
    - [DAny], [DNoReturn]: [typing.Any], [typing.NoReturn]; [DNone]: [None];
    - [DVariadic name c]: an instance of [typing._VariadicGenericAlias], the
      bare [typing.Tuple], whose [__origin__] is the class [c];
    - [DAlias oid o args]: an instance of [typing._GenericAlias] with
      [__origin__ = o] and [__args__ = args]; [oid] is the identity of the
      alias object, which [==] and [hash] ignore. *)
Inductive desc : Type :=
| DClass (c : pyclass)
| DAny
| DNoReturn
| DNone
| DVariadic (name : string) (c : pyclass)
| DAlias (oid : nat) (o : origin) (args : list desc).

(** [l == l'] on tuples: the same length and equal components *)
Definition tuple_eqb {A} (eqb : A -> A -> bool) : list A -> list A -> bool :=
  fix loop (l l' : list A) {struct l} : bool :=
    match l, l' with
    | [], [] => true
    | a :: r, a' :: r' => eqb a a' && loop r r'
    | _, _ => false
    end.

(** [d == e], as [dict] lookup compares keys: classes and special forms by
    identity, generic aliases by [__origin__] and [__args__] *)
Fixpoint desc_eqb (d e : desc) {struct d} : bool :=
  match d, e with
  | DClass c, DClass c' => pyclass_eqb c c'
  | DAny, DAny | DNoReturn, DNoReturn | DNone, DNone => true
  | DVariadic n c, DVariadic n' c' => String.eqb n n' && pyclass_eqb c c'
  | DAlias _ o args, DAlias _ o' args' =>
      origin_eqb o o' && tuple_eqb desc_eqb args args'
  | _, _ => false
  end.

(** What [==] sees of a description: everything but the identities *)
Fixpoint erase (d : desc) : desc :=
  match d with
  | DAlias _ o args => DAlias 0 o (map erase args)
  | _ => d
  end.

Definition origin_name (o : origin) : string :=
  match o with
  | o_tuple => "Tuple" | o_list => "List" | o_dict => "Dict" | o_set => "Set"
  | o_other name => name
  end.

(** [repr(type_)]; inside the brackets of an alias a class shows its bare name *)
Fixpoint repr_desc (inner : bool) (d : desc) : string :=
  match d with
  | DClass c => if inner then class_name c else repr_class c
  | DAny => "typing.Any"
  | DNoReturn => "typing.NoReturn"
  | DNone => "None"
  | DVariadic name _ => "typing." ++ name
  | DAlias _ o args =>
      "typing." ++ origin_name o ++ "[" ++ join ", " (map (repr_desc true) args) ++ "]"
  end.

(** [isinstance(obj, type_)].  On a class it tests the method resolution
    order, on the bare [typing.Tuple] the one of its origin; [typing] and the
    interpreter refuse every other second argument with a [TypeError]. *)
Definition isinstance (obj : value) (type_ : desc) : result bool :=
  match type_ with
  | DClass c | DVariadic _ c => Return (issubclass (type_of obj) c)
  | DAlias _ _ _ =>
      Raise (Exc TypeError
        "Subscripted generics cannot be used with class and instance checks" None)
  | DAny => Raise (Exc TypeError "typing.Any cannot be used with isinstance()" None)
  | DNoReturn =>
      Raise (Exc TypeError "typing.NoReturn cannot be used with isinstance()" None)
  | DNone =>
      Raise (Exc TypeError "isinstance() arg 2 must be a type or tuple of types" None)
  end.

(** The items [for x in obj] yields, for the containers the checkers iterate *)
Definition py_iter (obj : value) : list value :=
  match obj with
  | VTuple items | VList items | VSet items => items
  | VDict entries => map fst entries
  | _ => []
  end.

(** [obj.items()] *)
Definition py_items (obj : value) : list (value * value) :=
  match obj with
  | VDict entries => entries
  | _ => []
  end.

(** [len(obj)] *)
Definition py_len (obj : value) : nat := List.length (py_iter obj).

(** [obj[idx]] on a sequence, for [idx >= 0] *)
Definition py_getitem (obj : value) (idx : nat) : result value :=
  match nth_error (py_iter obj) idx with
  | Some x => Return x
  | None => Raise (Exc IndexError (class_name (type_of obj) ++ " index out of range") None)
  end.

(** ** The validators *)

(** A validator object.  Validators are never mutated after [__init__], so a
    reference to one is embedded as the object itself; [id_] is its identity.
    [EmptyTypeChecker] is the module-level singleton instance. *)
Inductive checker : Type :=
| TypeChecker (id_ : nat) (_type : desc)
| TupleTypeChecker (id_ : nat) (_type : desc) (_elem_checkers : list checker)
| ListTypeChecker (id_ : nat) (_type : desc) (_elem_checker : checker)
| DictTypeChecker (id_ : nat) (_type : desc) (_key_checker _val_checker : checker)
| SetTypeChecker (id_ : nat) (_type : desc) (_elem_checker : checker)
| EmptyTypeChecker.

(** [self._type]; the singleton was built by [super().__init__(typing.Any)] *)
Definition checker_type (self : checker) : desc :=
  match self with
  | TypeChecker _ t | TupleTypeChecker _ t _ | ListTypeChecker _ t _
  | DictTypeChecker _ t _ _ | SetTypeChecker _ t _ => t
  | EmptyTypeChecker => DAny
  end.

(** [TypeChecker.raise_error]: [msg or 'Expect: ...'.format(...)] *)
Definition default_message (type_ : desc) (obj : value) : string :=
  "Expect: " ++ dquote ++ repr_desc false type_ ++ dquote ++ "." ++ newline ++
  "Actual " ++ dquote ++ repr_class (type_of obj) ++ "(" ++ repr obj ++ ")" ++ dquote
  ++ "." ++ newline.

Definition raise_error {A} (type_ : desc) (obj : value) (msg : option string)
  : result A :=
  let msg := match msg with
             | Some (String c s) => String c s
             | Some EmptyString | None => default_message type_ obj
             end in
  Raise (Exc TypeCheckError msg None).

(** [do_type_check], over the [__call__] of the validators *)
Definition do_type_check_ (call : checker -> value -> result value)
  (checker : checker) (obj : value) (message : string) : result value :=
  match call checker obj with
  | Return v => Return v
  | Raise err =>
      if catches TypeCheckError err
      then Raise (Exc TypeCheckError message (Some err))
      else Raise err
  end.

Definition element_message (idx : nat) : string :=
  "The #" ++ str_of_nat idx ++ " element has incompatible type!".

(** [checker(obj)]: the [__call__] of each validator class *)
Fixpoint call (self : checker) (obj : value) {struct self} : result value :=
  match self with
  | TypeChecker _ type_ =>
      ok <- isinstance obj type_ ;;
      if negb ok then raise_error type_ obj None
      else Return obj
  | TupleTypeChecker _ type_ elem_checkers =>
      if negb (issubclass (type_of obj) c_tuple) then raise_error type_ obj None
      else if negb (py_len obj =? List.length elem_checkers)%nat
      then raise_error type_ obj (Some "Length of the tuple mismatch!")
      else
        for_enumerate
          (fun idx checker =>
             item <- py_getitem obj idx ;;
             do_type_check_ call checker item (element_message idx) ;;; Return tt)
          0 elem_checkers ;;;
        Return obj
  | ListTypeChecker _ type_ checker =>
      if negb (issubclass (type_of obj) c_list) then raise_error type_ obj None
      else
        for_enumerate
          (fun idx item =>
             do_type_check_ call checker item (element_message idx) ;;; Return tt)
          0 (py_iter obj) ;;;
        Return obj
  | DictTypeChecker _ type_ key_checker val_checker =>
      if negb (issubclass (type_of obj) c_dict) then raise_error type_ obj None
      else
        for_enumerate
          (fun _ kv =>
             do_type_check_ call key_checker (fst kv)
               "Found a key that has incompatible type!" ;;;
             do_type_check_ call val_checker (snd kv)
               "Found a value that has incompatible type!" ;;;
             Return tt)
          0 (py_items obj) ;;;
        Return obj
  | SetTypeChecker _ type_ checker =>
      if negb (issubclass (type_of obj) c_set) then raise_error type_ obj None
      else
        for_enumerate
          (fun _ item =>
             do_type_check_ call checker item
               "Found an element that has incompatible type!" ;;; Return tt)
          0 (py_iter obj) ;;;
        Return obj
  | EmptyTypeChecker => Return obj
  end.

Definition do_type_check : checker -> value -> string -> result value :=
  do_type_check_ call.

(** [utils.raise_exception_or_warning]: with [use_warning] the message is
    emitted as a warning of category [TypeCheckWarning] and the function
    returns; otherwise it is raised as a [TypeCheckError].  The second
    component lists the warnings emitted. *)
Definition raise_exception_or_warning (msg : string) (use_warning : bool)
  : result unit * list (exc_class * string) :=
  if use_warning then (Return tt, [(TypeCheckWarning, msg)])
  else (Raise (Exc TypeCheckError msg None), []).

(** [isinstance] accepts the description as its second argument. *)
Definition isinstance_accepts (type_ : desc) : bool :=
  match type_ with
  | DClass _ | DVariadic _ _ => true
  | _ => false
  end.

(** Every primitive validator inside [self] holds a description that
    [isinstance] accepts. *)
Fixpoint usable (self : checker) : bool :=
  match self with
  | TypeChecker _ type_ => isinstance_accepts type_
  | TupleTypeChecker _ _ elem_checkers => forallb usable elem_checkers
  | ListTypeChecker _ _ c | SetTypeChecker _ _ c => usable c
  | DictTypeChecker _ _ k v => usable k && usable v
  | EmptyTypeChecker => true
  end.

(** ** The registry: [get_type_checker] and its cache *)

(** [get_type_checker._cache], a [dict] from descriptions to validators in
    insertion order, and the next object identity to hand out. *)
Record registry : Type := mk_registry {
  next_id : nat;
  cache : list (desc * checker)
}.

(** The state when the module has just been imported:
    [get_type_checker._cache = {}] *)
Definition initial_registry : registry := mk_registry 1 [].

(** Code that may raise and may update the registry.  An exception leaves the
    updates made before it in place. *)
Definition M (A : Type) : Type := registry -> result A * registry.

Definition ret {A} (a : A) : M A := fun st => (Return a, st).
Definition throw {A} (e : exception) : M A := fun st => (Raise e, st).
Definition lift {A} (r : result A) : M A := fun st => (r, st).

Definition Mbind {A B} (m : M A) (k : A -> M B) : M B :=
  fun st =>
    match m st with
    | (Return a, st') => k a st'
    | (Raise e, st') => (Raise e, st')
    end.

Notation "x <-- m ;; k" := (Mbind m (fun x => k))
  (at level 61, m at next level, right associativity).

(** [[f(x) for x in xs]], evaluated left to right *)
Definition mapM {A B} (f : A -> M B) : list A -> M (list B) :=
  fix loop (xs : list A) : M (list B) :=
    match xs with
    | [] => ret []
    | x :: rest => y <-- f x ;; ys <-- loop rest ;; ret (y :: ys)
    end.

(** A new object: its identity is the next unused one *)
Definition fresh_id : M nat :=
  fun st => (Return (next_id st), mk_registry (S (next_id st)) (cache st)).

(** [dict] lookup: the first (and only) entry whose key equals [k] *)
Fixpoint cache_get (k : desc) (l : list (desc * checker)) : option checker :=
  match l with
  | [] => None
  | (k', v) :: rest => if desc_eqb k' k then Some v else cache_get k rest
  end.

(** [dict] assignment: an entry with an equal key keeps its key and takes the
    new value; otherwise a new entry is appended *)
Fixpoint cache_set (k : desc) (v : checker) (l : list (desc * checker))
  : list (desc * checker) :=
  match l with
  | [] => [(k, v)]
  | (k', v') :: rest =>
      if desc_eqb k' k then (k', v) :: rest else (k', v') :: cache_set k v rest
  end.

(** [type_ in cache] *)
Definition cache_contains (type_ : desc) : M bool :=
  fun st => (Return (match cache_get type_ (cache st) with
                     | Some _ => true
                     | None => false
                     end), st).

(** [cache[type_] = c] *)
Definition cache_setitem (type_ : desc) (c : checker) : M unit :=
  fun st => (Return tt, mk_registry (next_id st) (cache_set type_ c (cache st))).

(** [cache[type_]] *)
Definition cache_getitem (type_ : desc) : M checker :=
  fun st =>
    match cache_get type_ (cache st) with
    | Some c => (Return c, st)
    | None => (Raise (Exc KeyError (repr_desc false type_) None), st)
    end.

Definition args_index_error {A} : M A :=
  throw (Exc IndexError "tuple index out of range" None).

(** The inner function [create_type_checker]; [get] is [get_type_checker],
    which the [__init__] of the container validators calls on [__args__]. *)
Definition create_type_checker (get : desc -> M checker) (type_ : desc)
  : M checker :=
  match type_ with
  | DVariadic _ _ =>
      (* isinstance(type_, typing._VariadicGenericAlias) *)
      id_ <-- fresh_id ;; ret (TypeChecker id_ type_)
  | DAlias _ o args =>
      (* isinstance(type_, typing._GenericAlias): origin in alias_checkers? *)
      match o with
      | o_tuple =>
          id_ <-- fresh_id ;;
          elem_checkers <-- mapM get args ;;
          ret (TupleTypeChecker id_ type_ elem_checkers)
      | o_list =>
          id_ <-- fresh_id ;;
          match args with
          | a0 :: _ => c <-- get a0 ;; ret (ListTypeChecker id_ type_ c)
          | [] => args_index_error
          end
      | o_dict =>
          id_ <-- fresh_id ;;
          match args with
          | a0 :: rest =>
              key_checker <-- get a0 ;;
              match rest with
              | a1 :: _ =>
                  val_checker <-- get a1 ;;
                  ret (DictTypeChecker id_ type_ key_checker val_checker)
              | [] => args_index_error
              end
          | [] => args_index_error
          end
      | o_set =>
          id_ <-- fresh_id ;;
          match args with
          | a0 :: _ => c <-- get a0 ;; ret (SetTypeChecker id_ type_ c)
          | [] => args_index_error
          end
      | o_other _ => id_ <-- fresh_id ;; ret (TypeChecker id_ type_)
      end
  | DAny | DNoReturn | DNone => ret EmptyTypeChecker
  | DClass _ => id_ <-- fresh_id ;; ret (TypeChecker id_ type_)
  end.

(** [get_type_checker(type_)] *)
Fixpoint get_type_checker (type_ : desc) {struct type_} : M checker :=
  present <-- cache_contains type_ ;;
  _ <-- (if negb present
         then c <-- create_type_checker get_type_checker type_ ;;
              cache_setitem type_ c
         else ret tt) ;;
  cache_getitem type_.

(** The registry states the program can be in: the initial one, and the one
    any lookup leaves behind, whether it returned or raised. *)
Inductive reachable : registry -> Prop :=
| reachable_initial : reachable initial_registry
| reachable_lookup st type_ r st' :
    reachable st -> get_type_checker type_ st = (r, st') -> reachable st'.

(** A description as [typing] builds it: [List] and [Set] take one argument,
    [Dict] two, and the arguments are descriptions of the same kind. *)
Fixpoint wf_desc (d : desc) : bool :=
  match d with
  | DAlias _ o args =>
      match o with
      | o_list | o_set => (List.length args =? 1)%nat
      | o_dict => (List.length args =? 2)%nat
      | _ => true
      end
      && forallb wf_desc args
  | _ => true
  end.

(** ** [FuncCallTypeChecker] *)

(** A [dict] with [str] keys, in insertion order *)
Definition sdict (A : Type) : Type := list (string * A).

Fixpoint sdict_get {A} (k : string) (d : sdict A) : option A :=
  match d with
  | [] => None
  | (k', v) :: rest => if String.eqb k' k then Some v else sdict_get k rest
  end.

Fixpoint sdict_set {A} (k : string) (v : A) (d : sdict A) : sdict A :=
  match d with
  | [] => [(k, v)]
  | (k', v') :: rest =>
      if String.eqb k' k then (k', v) :: rest else (k', v') :: sdict_set k v rest
  end.

(** [dict(pairs)], [OrderedDict(pairs)] and a [dict] comprehension *)
Definition sdict_of {A} (pairs : list (string * A)) : sdict A :=
  fold_left (fun d kv => sdict_set (fst kv) (snd kv) d) pairs [].

(** [d[k]] *)
Definition sdict_getitem {A} (k : string) (d : sdict A) : result A :=
  match sdict_get k d with
  | Some v => Return v
  | None => Raise (Exc KeyError (repr_str k) None)
  end.

Module inspect.

(** The named tuple [inspect.getfullargspec] returns.  [defaults] is [None]
    or a tuple, [kwonlydefaults] is [None] or a [dict]; [annotations] holds
    the annotation of [return] under that key. *)
Record FullArgSpec : Type := {
  args : list string;
  varargs : option string;
  varkw : option string;
  defaults : option (list value);
  kwonlyargs : list string;
  kwonlydefaults : option (sdict value);
  annotations : sdict desc
}.

End inspect.

(** [l[start:stop]], with Python's treatment of negative and large bounds *)
Definition slice_bound (n : nat) (i : Z) : nat :=
  if (i <? 0)%Z then Z.to_nat (Z.max 0 (i + Z.of_nat n))
  else Z.to_nat (Z.min i (Z.of_nat n)).

Definition slice {A} (l : list A) (start stop : Z) : list A :=
  let s := slice_bound (List.length l) start in
  let e := slice_bound (List.length l) stop in
  firstn (e - s) (skipn s l).

(** [d.get(key)]: the value under [key], or [None]; it never raises.  The
    keys of [annotations] are strings, so the key [None] is never found. *)
Definition dict_get (d : sdict desc) (key : option string) : result desc :=
  Return match key with
         | Some k => match sdict_get k d with
                     | Some v => v
                     | None => DNone
                     end
         | None => DNone
         end.

(** The annotation [create_checker] reads for a parameter: the declared one,
    or [None] *)
Definition annotation_of (argspec : inspect.FullArgSpec) (arg_name : option string)
  : desc :=
  match dict_get (inspect.annotations argspec) arg_name with
  | Return annotation => annotation
  | Raise _ => DNone
  end.

Section FuncCall.

(** The state the wrapped function reads and writes *)
Variable W : Type.

(** A function object: what [repr] and [inspect.getfullargspec] show of it,
    and what calling it with [*args, **kwargs] does. *)
Record callable : Type := {
  func_repr : string;
  func_argspec : inspect.FullArgSpec;
  func_body : list value -> sdict value -> W -> result value * W
}.

Record FuncCallTypeChecker : Type := {
  _func : callable;
  _check_args : bool;
  _check_return : bool;
  _arg_checkers : sdict checker;
  _kw_checkers : sdict checker;
  _varg_checker : checker;
  _vkw_checker : checker;
  _ret_checker : checker;
  _arg_defaults : sdict value;
  _kw_defaults : sdict value
}.

(** The inner function [create_checker] of [__init__] *)
Definition create_checker (func : callable) (force_annotation : bool)
  (arg_name : option string) : M checker :=
  match dict_get (inspect.annotations (func_argspec func)) arg_name with
  | Return annotation => get_type_checker annotation
  | Raise e =>
      if catches KeyError e then
        if force_annotation
        then throw (Exc TypeError
                      ("Function " ++ dquote ++ func_repr func ++ dquote
                       ++ " must be fully annotated.") None)
        else get_type_checker DNone
      else throw e
  end.

(** The inner function [create_checker_dict] of [__init__] *)
Definition create_checker_dict (func : callable) (force_annotation : bool)
  (arg_name_list : list string) : M (sdict checker) :=
  pairs <-- mapM (fun arg_name =>
                    c <-- create_checker func force_annotation (Some arg_name) ;;
                    ret (arg_name, c))
                 arg_name_list ;;
  ret (sdict_of pairs).

Definition positional_default_message (name : string) : string :=
  "Positional argument " ++ dquote ++ name ++ dquote
  ++ " has an incompatible default value!".

Definition keyword_default_message (name : string) : string :=
  "Keyword-only argument " ++ dquote ++ name ++ dquote
  ++ " has an incompatible default value!".

(** [for name, default in defaults.items(): do_type_check(checkers[name], ...)] *)
Definition check_defaults (checkers : sdict checker) (message : string -> string)
  (defaults : sdict value) : result unit :=
  for_enumerate
    (fun _ nd =>
       checker <- sdict_getitem (fst nd) checkers ;;
       do_type_check checker (snd nd) (message (fst nd)) ;;; Return tt)
    0 defaults.

(** The pairs of [self._arg_defaults]:
    [zip(argspec.args[-len(arg_defaults):0], arg_defaults)] *)
Definition arg_defaults_pairs (argspec : inspect.FullArgSpec)
  : list (string * value) :=
  let arg_defaults := match inspect.defaults argspec with
                      | Some (d :: ds) => d :: ds
                      | Some [] | None => []       (* argspec.defaults or [] *)
                      end in
  combine (slice (inspect.args argspec)
                 (- Z.of_nat (List.length arg_defaults)) 0)
          arg_defaults.

(** [FuncCallTypeChecker.__init__] *)
Definition FuncCallTypeChecker_init (func : callable)
  (check_args check_return force_annotation : bool) : M FuncCallTypeChecker :=
  let argspec := func_argspec func in
  arg_checkers <-- create_checker_dict func force_annotation (inspect.args argspec) ;;
  kw_checkers <-- create_checker_dict func force_annotation (inspect.kwonlyargs argspec) ;;
  varg_checker <-- create_checker func force_annotation (inspect.varargs argspec) ;;
  vkw_checker <-- create_checker func force_annotation (inspect.varkw argspec) ;;
  ret_checker <-- create_checker func force_annotation (Some "return") ;;
  let arg_defaults := sdict_of (arg_defaults_pairs argspec) in
  _ <-- lift (check_defaults arg_checkers positional_default_message arg_defaults) ;;
  let kw_defaults := match inspect.kwonlydefaults argspec with
                     | Some (d :: ds) => d :: ds
                     | Some [] | None => []     (* argspec.kwonlydefaults or {} *)
                     end in
  _ <-- lift (check_defaults kw_checkers keyword_default_message kw_defaults) ;;
  ret {| _func := func;
         _check_args := check_args;
         _check_return := check_return;
         _arg_checkers := arg_checkers;
         _kw_checkers := kw_checkers;
         _varg_checker := varg_checker;
         _vkw_checker := vkw_checker;
         _ret_checker := ret_checker;
         _arg_defaults := arg_defaults;
         _kw_defaults := kw_defaults |}.

(** [args[arg_idx]] on the tuple of positional arguments *)
Definition args_getitem (args : list value) (arg_idx : nat) : result value :=
  match nth_error args arg_idx with
  | Some x => Return x
  | None => Raise (Exc IndexError "tuple index out of range" None)
  end.

Definition positional_message (name : string) : string :=
  "Positional argument " ++ dquote ++ name ++ dquote
  ++ " takes a incompatible value!".

Definition variadic_message (arg_idx : nat) : string :=
  "#" ++ str_of_nat arg_idx ++ " positional argument takes a incompatible value".

Definition keyword_message (name : string) : string :=
  "Keyword argument " ++ dquote ++ name ++ dquote
  ++ " takes a incompatible value!".

(** The first loop of [__call__], over [self._arg_checkers.items()]; it
    yields [arg_idx] as the loop leaves it. *)
Fixpoint check_positional (checkers : sdict checker) (args : list value)
  (arg_idx : nat) : result nat :=
  match checkers with
  | [] => Return arg_idx
  | (name, checker) :: rest =>
      if (arg_idx =? List.length args)%nat then Return arg_idx   (* break *)
      else
        item <- args_getitem args arg_idx ;;
        do_type_check checker item (positional_message name) ;;;
        check_positional rest args (S arg_idx)
  end.

(** [while arg_idx != num_arg: ...; arg_idx += 1].  The first loop leaves
    [arg_idx <= num_arg], so the body runs [todo = num_arg - arg_idx] times. *)
Fixpoint check_variadic (checker : checker) (args : list value)
  (arg_idx todo : nat) : result unit :=
  match todo with
  | 0 => Return tt
  | S todo' =>
      item <- args_getitem args arg_idx ;;
      do_type_check checker item (variadic_message arg_idx) ;;;
      check_variadic checker args (S arg_idx) todo'
  end.

(** The validator the third loop of [__call__] picks for a keyword argument *)
Definition keyword_checker (self : FuncCallTypeChecker) (name : string)
  : checker :=
  match sdict_get name (_arg_checkers self) with
  | Some checker => checker                   (* name in self._arg_checkers *)
  | None =>
      match sdict_get name (_kw_checkers self) with
      | Some checker => checker               (* name in self._kw_checkers *)
      | None => _vkw_checker self
      end
  end.

Definition check_keywords (self : FuncCallTypeChecker) (kwargs : sdict value)
  : result unit :=
  for_enumerate
    (fun _ nv =>
       do_type_check (keyword_checker self (fst nv)) (snd nv)
                     (keyword_message (fst nv)) ;;; Return tt)
    0 kwargs.

(** The block under [if self._check_args:] *)
Definition check_arguments (self : FuncCallTypeChecker)
  (args : list value) (kwargs : sdict value) : result unit :=
  arg_idx <- check_positional (_arg_checkers self) args 0 ;;
  check_variadic (_varg_checker self) args arg_idx (List.length args - arg_idx) ;;;
  check_keywords self kwargs.

(** What a call leaves behind: what it returned or raised, the state of the
    world, and how many times the wrapped function was entered. *)
Record run : Type := {
  outcome : result value;
  world : W;
  invocations : nat
}.

(** [FuncCallTypeChecker.__call__] *)
Definition FuncCallTypeChecker_call (self : FuncCallTypeChecker)
  (args : list value) (kwargs : sdict value) (w : W) : run :=
  match (if _check_args self then check_arguments self args kwargs
         else Return tt) with
  | Raise e => {| outcome := Raise e; world := w; invocations := 0 |}
  | Return _ =>
      let (r, w') := func_body (_func self) args kwargs w in
      match r with
      | Raise e => {| outcome := Raise e; world := w'; invocations := 1 |}
      | Return ret_ =>
          match (if _check_return self
                 then do_type_check (_ret_checker self) ret_
                                    "Return a incompatible value!"
                 else Return ret_) with
          | Raise e => {| outcome := Raise e; world := w'; invocations := 1 |}
          | Return _ => {| outcome := Return ret_; world := w'; invocations := 1 |}
          end
      end
  end.

(** The validator [__call__] applies to the positional argument at index
    [i]: the one of the [i]-th positional parameter, or the one of the
    variadic positional parameter when there are not that many. *)
Definition positional_checker (self : FuncCallTypeChecker) (i : nat) : checker :=
  match nth_error (_arg_checkers self) i with
  | Some (_, checker) => checker
  | None => _varg_checker self
  end.

(** The validator accepts the value. *)
Definition passes (c : checker) (v : value) : Prop :=
  exists r, call c v = Return r.

(** Every argument of the call passes the validator chosen for it. *)
Definition arguments_pass (self : FuncCallTypeChecker)
  (args : list value) (kwargs : sdict value) : Prop :=
  (forall i x, nth_error args i = Some x -> passes (positional_checker self i) x)
  /\ (forall name v, In (name, v) kwargs -> passes (keyword_checker self name) v).

End FuncCall.

(** ** Predicates on registries and the objects of the examples *)

(** [c] is the validator [create_type_checker] builds for [type_]: the
    singleton for [typing.Any], [typing.NoReturn] and [None], and otherwise a
    new validator whose [_type] is [type_]. *)
Definition made_for (type_ : desc) (c : checker) : Prop :=
  match type_ with
  | DAny | DNoReturn | DNone => c = EmptyTypeChecker
  | _ => desc_eqb (checker_type c) type_ = true /\ c <> EmptyTypeChecker
  end.

(** A lookup of [type_] keeps the property [P] of registries, whether it
    returns or raises. *)
Definition preserves (P : registry -> Prop) (type_ : desc) : Prop :=
  forall st r st', P st -> get_type_checker type_ st = (r, st') -> P st'.

(** No two entries of the cache have equal keys. *)
Definition keys_distinct (l : list (desc * checker)) : Prop :=
  forall i j k1 c1 k2 c2,
    nth_error l i = Some (k1, c1) -> nth_error l j = Some (k2, c2) ->
    desc_eqb k1 k2 = true -> i = j.

(** Every entry of the cache holds the validator made for its key. *)
Definition entries_made_for (l : list (desc * checker)) : Prop :=
  forall k c, In (k, c) l -> made_for k c.

(** [typing.List[int]], and a second, distinct alias object equal to it *)
Definition list_of_int : desc := DAlias 1 o_list [DClass c_int].
Definition list_of_int' : desc := DAlias 2 o_list [DClass c_int].

(** [typing.Tuple[int, float]] *)
Definition tuple_int_float : desc := DAlias 3 o_tuple [DClass c_int; DClass c_float].

(** [[1, 2, "x"]] *)
Definition one_two_x : value := VList [VInt 1; VInt 2; VStr "x"].

(** The validator the registry hands out for [typing.List[int]] when nothing
    is cached yet *)
Definition list_of_int_checker : checker :=
  ListTypeChecker 1 list_of_int (TypeChecker 2 (DClass c_int)).

(** A message names the index [i] when it holds [#i]. *)
Definition names_index (i : nat) (message : string) : bool :=
  contains ("#" ++ str_of_nat i) message.

(** What [inspect.getfullargspec] returns for a function with positional
    parameters only *)
Definition positional_argspec (names : list string) (defaults_ : option (list value))
  (annotations_ : sdict desc) : inspect.FullArgSpec :=
  {| inspect.args := names;
     inspect.varargs := None;
     inspect.varkw := None;
     inspect.defaults := defaults_;
     inspect.kwonlyargs := [];
     inspect.kwonlydefaults := None;
     inspect.annotations := annotations_ |}.

(** [def f(a: int = "x"): pass] *)
Definition f_bad_default : callable unit :=
  {| func_repr := "<function f at 0x7f0000000000>";
     func_argspec := positional_argspec ["a"] (Some [VStr "x"]) [("a", DClass c_int)];
     func_body := fun _ _ w => (Return VNone, w) |}.

(** The same function with [a: int = "x"] declared after a bare star, as a
    keyword-only parameter *)
Definition f_bad_kwonly_default : callable unit :=
  {| func_repr := "<function f at 0x7f0000000000>";
     func_argspec :=
       {| inspect.args := [];
          inspect.varargs := None;
          inspect.varkw := None;
          inspect.defaults := None;
          inspect.kwonlyargs := ["a"];
          inspect.kwonlydefaults := Some [("a", VStr "x")];
          inspect.annotations := [("a", DClass c_int)] |};
     func_body := fun _ _ w => (Return VNone, w) |}.

(** [def g(x): pass], with no annotation at all *)
Definition g_unannotated : callable unit :=
  {| func_repr := "<function g at 0x7f0000000000>";
     func_argspec := positional_argspec ["x"] None [];
     func_body := fun _ _ w => (Return VNone, w) |}.

(** [def h(a: int) -> int], whose body counts its executions in the world
    and returns a [str] *)
Definition h_counting : callable nat :=
  {| func_repr := "<function h at 0x7f0000000000>";
     func_argspec := positional_argspec ["a"] None
                       [("a", DClass c_int); ("return", DClass c_int)];
     func_body := fun _ _ w => (Return (VStr "done"), S w) |}.

(** The checker [type_check] builds for [h] when nothing is cached yet *)
Definition h_checker : FuncCallTypeChecker nat :=
  {| _func := h_counting;
     _check_args := true;
     _check_return := true;
     _arg_checkers := [("a", TypeChecker 1 (DClass c_int))];
     _kw_checkers := [];
     _varg_checker := EmptyTypeChecker;
     _vkw_checker := EmptyTypeChecker;
     _ret_checker := TypeChecker 1 (DClass c_int);
     _arg_defaults := [];
     _kw_defaults := [] |}.

(** The function of the repository's [test.py],
    [basic(a: int, *b: float, c: Tuple[int, float], **d: List[int]) -> float];
    of its body only the fact that it returns a [float] is kept. *)
Definition basic : callable unit :=
  {| func_repr := "<function basic at 0x7f0000000000>";
     func_argspec :=
       {| inspect.args := ["a"];
          inspect.varargs := Some "b";
          inspect.varkw := Some "d";
          inspect.defaults := None;
          inspect.kwonlyargs := ["c"];
          inspect.kwonlydefaults := None;
          inspect.annotations :=
            [("a", DClass c_int); ("b", DClass c_float); ("c", tuple_int_float);
             ("d", list_of_int); ("return", DClass c_float)] |};
     func_body := fun _ _ w => (Return (VFloat "25.1"), w) |}.

(** ** Measures of validators and of error chains *)

(** The exceptions of a chain, outermost first, following [__cause__] *)
Fixpoint causes (e : exception) : list exception :=
  match e with
  | Exc _ _ (Some cause) => e :: causes cause
  | Exc _ _ None => [e]
  end.

(** The nesting depth of a validator: 0 for a primitive one and the
    singleton, one more than its deepest child for a container *)
Fixpoint depth (self : checker) : nat :=
  match self with
  | TypeChecker _ _ | EmptyTypeChecker => 0
  | TupleTypeChecker _ _ elem_checkers =>
      S (fold_right (fun c m => Nat.max (depth c) m) 0 elem_checkers)
  | ListTypeChecker _ _ c | SetTypeChecker _ _ c => S (depth c)
  | DictTypeChecker _ _ k v => S (Nat.max (depth k) (depth v))
  end.

(** A chain of [TypeCheckError]s of at most [bound] exceptions whose innermost
    message is one that [raise_error] produces: the Expect/Actual message for
    some description and value, or the message on the length of a tuple. *)
Definition chain_shape (bound : nat) (e : exception) : Prop :=
  Forall (fun e' => exc_cls e' = TypeCheckError) (causes e)
  /\ List.length (causes e) <= bound
  /\ (exc_msg (leaf e) = "Length of the tuple mismatch!"
      \/ exists type_ obj, exc_msg (leaf e) = default_message type_ obj).

(** The [TypeError] with which [isinstance] refuses a description, raised as
    it is, without a cause. *)
Definition isinstance_refusal (e : exception) : Prop :=
  exc_cls e = TypeError /\ exc_cause e = None
  /\ exists obj type_, isinstance obj type_ = Raise e.

(** ** Sequences of lookups and the meaning of a description *)

(** The registry [st'] is what some sequence of lookups, returning or
    raising, makes of the registry [st]. *)
Inductive lookups : registry -> registry -> Prop :=
| lookups_none st : lookups st st
| lookups_more st type_ r st1 st' :
    get_type_checker type_ st = (r, st1) -> lookups st1 st' -> lookups st st'.

(** Every validator the first registry holds for a description the second
    holds too, and no identity handed out is handed out again. *)
Definition extends (st st' : registry) : Prop :=
  next_id st <= next_id st'
  /\ forall k c, cache_get k (cache st) = Some c -> cache_get k (cache st') = Some c.

(** [p] holds of the components of two tuples of the same length, pairwise *)
Definition all2b {A B} (p : A -> B -> bool) : list A -> list B -> bool :=
  fix loop (xs : list A) (ys : list B) {struct xs} : bool :=
    match xs, ys with
    | [], [] => true
    | x :: xs', y :: ys' => p x y && loop xs' ys'
    | _, _ => false
    end.

(** The value conforms to the description: an instance of the class; anything
    for [typing.Any], [typing.NoReturn] and [None]; a tuple whose elements
    conform to the arguments, one for one; a list or a set whose elements
    conform to the first argument; a dict whose keys conform to the first and
    whose values conform to the second argument; nothing for another
    subscripted generic. *)
Fixpoint conforms (d : desc) (v : value) {struct d} : bool :=
  match d with
  | DClass c | DVariadic _ c => issubclass (type_of v) c
  | DAny | DNoReturn | DNone => true
  | DAlias _ o args =>
      match o with
      | o_tuple =>
          match v with
          | VTuple items => all2b conforms args items
          | _ => false
          end
      | o_list =>
          match v, args with
          | VList items, a :: _ => forallb (conforms a) items
          | _, _ => false
          end
      | o_set =>
          match v, args with
          | VSet items, a :: _ => forallb (conforms a) items
          | _, _ => false
          end
      | o_dict =>
          match v, args with
          | VDict entries, k :: a :: _ =>
              forallb (fun kv => conforms k (fst kv) && conforms a (snd kv)) entries
          | _, _ => false
          end
      | o_other _ => false
      end
  end.

(** The description is built from classes, the special forms and the four
    containers the checkers know. *)
Fixpoint supported (d : desc) : bool :=
  match d with
  | DAlias _ o args =>
      match o with
      | o_other _ => false
      | _ => true
      end && forallb supported args
  | _ => true
  end.

(** The validator [c] decides conformance to [type_], and holds only
    descriptions [isinstance] accepts when [type_] is supported. *)
Definition decides (type_ : desc) (c : checker) : Prop :=
  (forall v, call c v = Return v <-> conforms type_ v = true)
  /\ (supported type_ = true -> usable c = true).

(** Every validator of the cache decides conformance to its key. *)
Definition cache_decides (st : registry) : Prop :=
  forall k c, In (k, c) (cache st) -> decides k c.

(** A lookup of [type_] keeps [cache_decides] and returns a validator that
    decides conformance to [type_]. *)
Definition lookup_decides (type_ : desc) : Prop :=
  forall st r st',
    cache_decides st -> get_type_checker type_ st = (r, st') ->
    cache_decides st' /\ forall c, r = Return c -> decides type_ c.

(** ** The decorator of [typechecker/decorator.py] *)

Section Decorator.

Variable W : Type.

(** The function [type_checked] that [type_check] returns.  It holds the
    checker, which is also stored as its attribute [_type_checker];
    [functools.wraps(func)] gives it the name and the documentation of
    [func]. *)
Record type_checked : Type := {
  wrapped : callable W;
  _type_checker : FuncCallTypeChecker W
}.

(** A call of [type_checked]: it returns what the call of the checker with
    the same arguments returns. *)
Definition type_checked_call (f : type_checked)
  (args : list value) (kwargs : sdict value) (w : W) : run W :=
  FuncCallTypeChecker_call (_type_checker f) args kwargs w.

(** The [else] branch of [type_check]: [func] is given. *)
Definition type_check_func (func : callable W)
  (check_args check_return force_annotations : bool) : M type_checked :=
  checker <-- FuncCallTypeChecker_init func check_args check_return force_annotations ;;
  ret {| wrapped := func; _type_checker := checker |}.

(** What [type_check] returns: the decorator [type_check_decorator] when
    [func] is [None], the decorated function otherwise. *)
Inductive type_check_result : Type :=
| a_decorator (type_check_decorator : callable W -> M type_checked)
| a_function (f : type_checked).

(** [type_check(func, check_args=..., check_return=..., force_annotations=...)].
    The decorator it returns calls [type_check] again with the function it is
    given, which takes the [else] branch. *)
Definition type_check (func : option (callable W))
  (check_args check_return force_annotations : bool) : M type_check_result :=
  match func with
  | None =>
      ret (a_decorator
             (fun func =>
                type_check_func func check_args check_return force_annotations))
  | Some func =>
      f <-- type_check_func func check_args check_return force_annotations ;;
      ret (a_function f)
  end.

End Decorator.

(** ** Arguments that conform to the annotations *)

(** The annotation that governs the positional argument at index [i]: the
    one of the [i]-th positional parameter, or the one of the variadic
    positional parameter. *)
Definition positional_annotation (argspec : inspect.FullArgSpec) (i : nat) : desc :=
  match nth_error (inspect.args argspec) i with
  | Some name => annotation_of argspec (Some name)
  | None => annotation_of argspec (inspect.varargs argspec)
  end.

(** The annotation that governs the keyword argument [name]: the one of the
    parameter of that name, or the one of the variadic keyword parameter. *)
Definition keyword_annotation (argspec : inspect.FullArgSpec) (name : string) : desc :=
  if existsb (String.eqb name) (inspect.args argspec)
     || existsb (String.eqb name) (inspect.kwonlyargs argspec)
  then annotation_of argspec (Some name)
  else annotation_of argspec (inspect.varkw argspec).

(** Every argument of the call conforms to the annotation that governs it. *)
Definition arguments_conform (argspec : inspect.FullArgSpec)
  (args : list value) (kwargs : sdict value) : Prop :=
  (forall i x, nth_error args i = Some x ->
               conforms (positional_annotation argspec i) x = true)
  /\ (forall name v, In (name, v) kwargs ->
                     conforms (keyword_annotation argspec name) v = true).

(** A function whose only parameter [a: int = 1] is keyword-only *)
Definition f_kwonly_default : callable unit :=
  {| func_repr := "<function f at 0x7f0000000000>";
     func_argspec :=
       {| inspect.args := [];
          inspect.varargs := None;
          inspect.varkw := None;
          inspect.defaults := None;
          inspect.kwonlyargs := ["a"];
          inspect.kwonlydefaults := Some [("a", VInt 1)];
          inspect.annotations := [("a", DClass c_int)] |};
     func_body := fun _ _ w => (Return VNone, w) |}.

(** ** The children of the validators of the registry *)

(** The number of nodes of a description *)
Fixpoint dsize (d : desc) : nat :=
  match d with
  | DAlias _ _ args => S (fold_right (fun a n => dsize a + n) 0 args)
  | _ => 1
  end.

(** The validator [c] of the container description [type_] is of the class
    the dispatch table gives for its origin, and each child it holds is what
    the cache [l] holds for the argument it was built for. *)
Definition children_cached (type_ : desc) (c : checker) (l : list (desc * checker))
  : Prop :=
  match type_ with
  | DAlias _ o_tuple args =>
      exists id_ t cs,
        c = TupleTypeChecker id_ t cs
        /\ Forall2 (fun a c0 => cache_get a l = Some c0) args cs
  | DAlias _ o_list (a :: _) =>
      exists id_ t c0, c = ListTypeChecker id_ t c0 /\ cache_get a l = Some c0
  | DAlias _ o_set (a :: _) =>
      exists id_ t c0, c = SetTypeChecker id_ t c0 /\ cache_get a l = Some c0
  | DAlias _ o_dict (k :: a :: _) =>
      exists id_ t kc vc,
        c = DictTypeChecker id_ t kc vc
        /\ cache_get k l = Some kc /\ cache_get a l = Some vc
  | _ => True
  end.

(** Every validator of the cache has its children in the cache. *)
Definition cache_children (st : registry) : Prop :=
  forall k c, In (k, c) (cache st) -> children_cached k c (cache st).

(** A lookup of [type_] leaves absent every description larger than [type_]
    that was absent. *)
Definition lookup_adds_small (type_ : desc) : Prop :=
  forall st r st',
    get_type_checker type_ st = (r, st') ->
    forall k, dsize type_ < dsize k ->
              cache_get k (cache st) = None -> cache_get k (cache st') = None.

(** A lookup of [type_] keeps [cache_children] and returns a validator whose
    children are in the cache. *)
Definition lookup_children (type_ : desc) : Prop :=
  forall st r st',
    cache_children st -> get_type_checker type_ st = (r, st') ->
    cache_children st'
    /\ forall c, r = Return c -> children_cached type_ c (cache st').

(** * Properties *)

(** ** Classes and [isinstance] *)

Lemma pyclass_eqb_eq c d : pyclass_eqb c d = true <-> c = d.
Proof. unfold pyclass_eqb. destruct (pyclass_eq_dec c d); split; congruence. Qed.

Lemma pyclass_eqb_refl c : pyclass_eqb c c = true.
Proof. now apply pyclass_eqb_eq. Qed.

(** The method resolution order of a class is the class followed by the
    order of its base. *)
Lemma mro_cons c :
  mro c = c :: match base c with Some b => mro b | None => [] end.
Proof. destruct c as [| | | | | | | | | |name [|a rest]]; reflexivity. Qed.

Lemma issubclass_In c d : issubclass c d = true <-> In d (mro c).
Proof.
  unfold issubclass. rewrite existsb_exists. split.
  - intros (x & Hx & E). apply pyclass_eqb_eq in E. now subst.
  - intros H. exists d. split; [assumption | apply pyclass_eqb_refl].
Qed.

Lemma subtype_In_mro c d : subtype c d -> In d (mro c).
Proof.
  induction 1 as [c | c b d Hb _ IH].
  - rewrite mro_cons. now left.
  - rewrite mro_cons, Hb. now right.
Qed.

Lemma user_mro_subtype ancestors :
  forall name d, In d (user_mro name ancestors) -> subtype (c_user name ancestors) d.
Proof.
  induction ancestors as [|a rest IH]; intros name d [<- | H]; try apply subtype_refl.
  - destruct H as [<- | []]. eapply subtype_base; [reflexivity | apply subtype_refl].
  - eapply subtype_base; [reflexivity | now apply IH].
Qed.

Ltac subtype_chain :=
  first [ apply subtype_refl
        | eapply subtype_base; [reflexivity | subtype_chain] ].

Lemma In_mro_subtype c d : In d (mro c) -> subtype c d.
Proof.
  destruct c; try (now apply user_mro_subtype); simpl; intros H;
    repeat (destruct H as [<- | H]; [subtype_chain |]); contradiction.
Qed.

(** [issubclass] decides the subtype relation. *)
Lemma issubclass_subtype c d : issubclass c d = true <-> subtype c d.
Proof.
  rewrite issubclass_In. split; [apply In_mro_subtype | apply subtype_In_mro].
Qed.

(** A validator returns the object it was given, if it returns. *)
Lemma call_returns_obj self obj r : call self obj = Return r -> r = obj.
Proof.
  destruct self; simpl; intros H.
  - destruct (isinstance obj _type) as [[|]|]; simpl in H; congruence || discriminate.
  - destruct (negb _); [discriminate|]. destruct (negb _); [discriminate|].
    destruct (for_enumerate _ _ _); simpl in H; congruence.
  - destruct (negb _); [discriminate|].
    destruct (for_enumerate _ _ _); simpl in H; congruence.
  - destruct (negb _); [discriminate|].
    destruct (for_enumerate _ _ _); simpl in H; congruence.
  - destruct (negb _); [discriminate|].
    destruct (for_enumerate _ _ _); simpl in H; congruence.
  - congruence.
Qed.

(** C1.  The validator of a primitive description, a class [D], returns the
    value [v] it is given exactly when the class of [v] is [D] or a subtype of
    [D]; on every other value it raises a [TypeCheckError] whose message
    states the expected class and the actual class and value. *)
Theorem primitive_checker_iff_subtype (id_ : nat) (D : pyclass) (v : value) :
  (call (TypeChecker id_ (DClass D)) v = Return v <-> subtype (type_of v) D)
  /\ ((exists r, call (TypeChecker id_ (DClass D)) v = Return r)
      <-> subtype (type_of v) D)
  /\ (~ subtype (type_of v) D <->
      call (TypeChecker id_ (DClass D)) v
      = Raise (Exc TypeCheckError (default_message (DClass D) v) None)).
Proof.
  rewrite <- issubclass_subtype. simpl.
  destruct (issubclass (type_of v) D); simpl; repeat split;
    try congruence; try discriminate; eauto;
    solve [ intros [r Hr]; discriminate | intros H; now elim H ].
Qed.

(** ** Descriptions and their equality *)

(** Induction on descriptions, with the hypothesis on every argument of an
    alias. *)
Lemma desc_ind' (P : desc -> Prop) :
  (forall c, P (DClass c)) -> P DAny -> P DNoReturn -> P DNone ->
  (forall n c, P (DVariadic n c)) ->
  (forall oid o args, Forall P args -> P (DAlias oid o args)) ->
  forall d, P d.
Proof.
  intros Hc Ha Hr Hn Hv Hal. fix IH 1.
  intros [c| | | |n c|oid o args];
    [apply Hc | exact Ha | exact Hr | exact Hn | apply Hv |].
  apply Hal. induction args as [|a rest IHargs]; constructor; [apply IH | exact IHargs].
Qed.

Lemma origin_eqb_eq o p : origin_eqb o p = true <-> o = p.
Proof.
  destruct o, p; simpl; split; try congruence; try discriminate.
  - intros H. apply String.eqb_eq in H. now subst.
  - intros [= ->]. apply String.eqb_refl.
Qed.

(** [==] on descriptions compares everything but the identities. *)
Lemma desc_eqb_erase d : forall e, desc_eqb d e = true <-> erase d = erase e.
Proof.
  induction d as [c| | | |n c|oid o args IH] using desc_ind';
    intros [c'| | | |n' c'|oid' o' args']; simpl;
    try (split; (congruence || discriminate)).
  - rewrite pyclass_eqb_eq. split; congruence.
  - rewrite andb_true_iff, String.eqb_eq, pyclass_eqb_eq. split.
    + intros [-> ->]. reflexivity.
    + intros [= -> ->]. now split.
  - rewrite andb_true_iff, origin_eqb_eq.
    assert (Hargs : tuple_eqb desc_eqb args args' = true
                    <-> map erase args = map erase args').
    { revert args'. induction IH as [|a rest Ha _ IHrest]; intros [|a' rest']; simpl;
        try (split; (congruence || discriminate)).
      rewrite andb_true_iff, Ha, IHrest. split.
      - intros [-> ->]. reflexivity.
      - intros [= -> ->]. now split. }
    rewrite Hargs. split.
    + intros [-> ->]. reflexivity.
    + intros [= -> ->]. now split.
Qed.

Lemma desc_eqb_refl d : desc_eqb d d = true.
Proof. now apply desc_eqb_erase. Qed.

Lemma desc_eqb_sym d e : desc_eqb d e = desc_eqb e d.
Proof.
  destruct (desc_eqb d e) eqn:E1, (desc_eqb e d) eqn:E2; try reflexivity.
  - apply desc_eqb_erase in E1. symmetry in E1. apply desc_eqb_erase in E1. congruence.
  - apply desc_eqb_erase in E2. symmetry in E2. apply desc_eqb_erase in E2. congruence.
Qed.

(** Equal descriptions are equal to the same descriptions. *)
Lemma desc_eqb_compat d e k : desc_eqb d e = true -> desc_eqb k d = desc_eqb k e.
Proof.
  intros E. apply desc_eqb_erase in E.
  destruct (desc_eqb k d) eqn:E1, (desc_eqb k e) eqn:E2; try reflexivity.
  - apply desc_eqb_erase in E1. rewrite E in E1. apply desc_eqb_erase in E1. congruence.
  - apply desc_eqb_erase in E2. rewrite <- E in E2. apply desc_eqb_erase in E2. congruence.
Qed.

(** The special forms and the classes are equal only to themselves. *)
Lemma desc_eqb_DNone k : desc_eqb k DNone = true -> k = DNone.
Proof. destruct k; simpl; congruence || discriminate. Qed.

(** ** The cache as a [dict] *)

Lemma cache_get_equal_keys d e l :
  desc_eqb d e = true -> cache_get d l = cache_get e l.
Proof.
  intros E. induction l as [|[k v] rest IH]; simpl; [reflexivity|].
  rewrite (@desc_eqb_compat d e k E), IH. reflexivity.
Qed.

Lemma cache_get_set_same k v l : cache_get k (cache_set k v l) = Some v.
Proof.
  induction l as [|[k' v'] rest IH]; simpl.
  - now rewrite desc_eqb_refl.
  - destruct (desc_eqb k' k) eqn:E; simpl; now rewrite E.
Qed.

Lemma cache_get_set_other k k' v l :
  desc_eqb k k' = false -> cache_get k' (cache_set k v l) = cache_get k' l.
Proof.
  intros N. induction l as [|[k0 v0] rest IH]; simpl.
  - now rewrite N.
  - destruct (desc_eqb k0 k) eqn:E; simpl.
    + destruct (desc_eqb k0 k') eqn:E'; [|reflexivity].
      rewrite desc_eqb_sym in E. pose proof (@desc_eqb_compat k k0 k' E) as C.
      rewrite (desc_eqb_sym k' k), (desc_eqb_sym k' k0) in C. congruence.
    + now rewrite IH.
Qed.

(** ** The registry *)

Lemma get_type_checker_unfold type_ :
  get_type_checker type_ =
  (present <-- cache_contains type_ ;;
   _ <-- (if negb present
          then c <-- create_type_checker get_type_checker type_ ;;
               cache_setitem type_ c
          else ret tt) ;;
   cache_getitem type_).
Proof. destruct type_; reflexivity. Qed.

(** A cached description is answered from the cache, which stays as it is. *)
Lemma get_type_checker_hit type_ st c :
  cache_get type_ (cache st) = Some c ->
  get_type_checker type_ st = (Return c, st).
Proof.
  intros H. rewrite get_type_checker_unfold.
  unfold Mbind, cache_contains, cache_getitem, ret. rewrite H. simpl. now rewrite H.
Qed.

(** A description that is not cached is created, stored and answered. *)
Lemma get_type_checker_miss type_ st :
  cache_get type_ (cache st) = None ->
  get_type_checker type_ st =
  match create_type_checker get_type_checker type_ st with
  | (Return c, st') =>
      (Return c, mk_registry (next_id st') (cache_set type_ c (cache st')))
  | (Raise e, st') => (Raise e, st')
  end.
Proof.
  intros H. rewrite get_type_checker_unfold.
  unfold Mbind at 1 2. unfold cache_contains. rewrite H. simpl.
  unfold Mbind. destruct (create_type_checker get_type_checker type_ st) as [[c|e] st'];
    [|reflexivity].
  unfold cache_setitem, cache_getitem. simpl. now rewrite cache_get_set_same.
Qed.

(** What a lookup returns is what the cache then holds for the description. *)
Lemma get_type_checker_cached type_ st c st' :
  get_type_checker type_ st = (Return c, st') ->
  cache_get type_ (cache st') = Some c.
Proof.
  destruct (cache_get type_ (cache st)) as [c0|] eqn:E.
  - rewrite (@get_type_checker_hit type_ st c0 E). intros [= <- <-]. exact E.
  - rewrite (@get_type_checker_miss type_ st E).
    destruct (create_type_checker get_type_checker type_ st) as [[c1|e] st1];
      intros [= <- <-]. simpl. apply cache_get_set_same.
Qed.

Lemma Mbind_inv A B (m : M A) (k : A -> M B) st r st' :
  Mbind m k st = (r, st') ->
  (exists a st1, m st = (Return a, st1) /\ k a st1 = (r, st'))
  \/ (exists e, m st = (Raise e, st') /\ r = Raise e).
Proof.
  unfold Mbind. destruct (m st) as [[a|e] st1]; intros H.
  - left. eauto.
  - right. injection H as <- <-. eauto.
Qed.

Section RegistryInvariant.

(** A property of registries that allocating an object keeps, and that
    storing a validator under the description it was made for keeps. *)
Variable P : registry -> Prop.
Hypothesis P_fresh :
  forall st, P st -> P (mk_registry (S (next_id st)) (cache st)).
Hypothesis P_set :
  forall type_ c st, P st -> made_for type_ c ->
    P (mk_registry (next_id st) (cache_set type_ c (cache st))).

Lemma mapM_preserves args :
  Forall (preserves P) args ->
  forall st r st', P st -> mapM get_type_checker args st = (r, st') -> P st'.
Proof.
  induction 1 as [|a rest Ha _ IH]; simpl; intros st r st' HP H.
  - injection H as <- <-. exact HP.
  - apply Mbind_inv in H as [(c & st1 & G & H) | (e & G & _)];
      [|exact (Ha _ _ _ HP G)].
    apply Mbind_inv in H as [(cs & st2 & G' & H) | (e & G' & _)].
    + injection H as <- <-. exact (IH _ _ _ (Ha _ _ _ HP G) G').
    + exact (IH _ _ _ (Ha _ _ _ HP G) G').
Qed.

Lemma create_type_checker_preserves type_ :
  match type_ with
  | DAlias _ _ args => Forall (preserves P) args
  | _ => True
  end ->
  forall st r st', P st ->
    create_type_checker get_type_checker type_ st = (r, st') ->
    P st' /\ (forall c, r = Return c -> made_for type_ c).
Proof.
  intros IH st r st' HP H.
  destruct type_ as [c| | | |n c|oid o args]; simpl in H;
    try (injection H as <- <-; split;
         [now auto
         |intros c' [= <-]; unfold made_for;
          solve [reflexivity | split; [apply desc_eqb_refl | discriminate]]]).
  destruct o as [| | | |name]; simpl in H;
    apply Mbind_inv in H as [(id_ & st1 & F & H) | (e & F & _)];
    try discriminate; injection F as <- <-; apply P_fresh in HP.
  - (* Tuple *)
    apply Mbind_inv in H as [(cs & st2 & G & H) | (e & G & ->)].
    + injection H as <- <-. split; [exact (mapM_preserves IH HP G)|].
      intros c' [= <-]. split; [apply desc_eqb_refl | discriminate].
    + split; [exact (mapM_preserves IH HP G) | discriminate].
  - (* List *)
    destruct args as [|a0 rest]; [injection H as <- <-; split; [exact HP | discriminate]|].
    apply Forall_inv in IH.
    apply Mbind_inv in H as [(c0 & st2 & G & H) | (e & G & ->)].
    + injection H as <- <-. split; [exact (IH _ _ _ HP G)|].
      intros c' [= <-]. split; [apply desc_eqb_refl | discriminate].
    + split; [exact (IH _ _ _ HP G) | discriminate].
  - (* Dict *)
    destruct args as [|a0 rest]; [injection H as <- <-; split; [exact HP | discriminate]|].
    pose proof (Forall_inv IH) as IH0. apply Forall_inv_tail in IH.
    apply Mbind_inv in H as [(c0 & st2 & G & H) | (e & G & ->)];
      [|split; [exact (IH0 _ _ _ HP G) | discriminate]].
    specialize (IH0 _ _ _ HP G).
    destruct rest as [|a1 rest];
      [injection H as <- <-; split; [exact IH0 | discriminate]|].
    apply Forall_inv in IH.
    apply Mbind_inv in H as [(c1 & st3 & G1 & H) | (e & G1 & ->)].
    + injection H as <- <-. split; [exact (IH _ _ _ IH0 G1)|].
      intros c' [= <-]. split; [apply desc_eqb_refl | discriminate].
    + split; [exact (IH _ _ _ IH0 G1) | discriminate].
  - (* Set *)
    destruct args as [|a0 rest]; [injection H as <- <-; split; [exact HP | discriminate]|].
    apply Forall_inv in IH.
    apply Mbind_inv in H as [(c0 & st2 & G & H) | (e & G & ->)].
    + injection H as <- <-. split; [exact (IH _ _ _ HP G)|].
      intros c' [= <-]. split; [apply desc_eqb_refl | discriminate].
    + split; [exact (IH _ _ _ HP G) | discriminate].
  - (* another origin *)
    injection H as <- <-. split; [exact HP|].
    intros c' [= <-]. split; [apply desc_eqb_refl | discriminate].
Qed.

(** A lookup keeps the property, whether it returns or raises. *)
Lemma get_type_checker_preserves type_ : preserves P type_.
Proof.
  assert (Step : forall t,
             match t with DAlias _ _ args => Forall (preserves P) args | _ => True end ->
             preserves P t).
  { intros t IH st r st' HP H.
    destruct (cache_get t (cache st)) as [c0|] eqn:E.
    - rewrite (@get_type_checker_hit t st c0 E) in H. now injection H as <- <-.
    - rewrite (@get_type_checker_miss t st E) in H.
      destruct (create_type_checker get_type_checker t st) as [[c|e] st1] eqn:C;
        destruct (@create_type_checker_preserves t IH st _ st1 HP C) as [HP1 Hm];
        injection H as <- <-; [|exact HP1].
      apply P_set; [exact HP1 | now apply Hm]. }
  induction type_ using desc_ind'; apply Step; auto.
Qed.

Lemma reachable_invariant : P initial_registry -> forall st, reachable st -> P st.
Proof.
  intros H0 st R. induction R as [|st type_ r st' _ IH G]; [exact H0|].
  exact (@get_type_checker_preserves type_ st r st' IH G).
Qed.

End RegistryInvariant.

(** ** Invariants of the cache *)

Lemma cache_get_None k l :
  cache_get k l = None -> forall k' c, In (k', c) l -> desc_eqb k' k = false.
Proof.
  induction l as [|[k0 v0] rest IH]; simpl; [contradiction|].
  destruct (desc_eqb k0 k) eqn:E; [discriminate|].
  intros H k' c [[= <- <-] | HIn]; [exact E | eauto].
Qed.

Lemma cache_get_Some k l c :
  cache_get k l = Some c -> exists k', In (k', c) l /\ desc_eqb k' k = true.
Proof.
  induction l as [|[k0 v0] rest IH]; simpl; [discriminate|].
  destruct (desc_eqb k0 k) eqn:E.
  - intros [= <-]. exists k0. auto.
  - intros H. destruct (IH H) as (k' & HIn & E'). exists k'. auto.
Qed.

(** An entry of the cache after an assignment is an old entry, or it holds
    the assigned value under the assigned key or under the old key equal
    to it. *)
Lemma In_cache_set k v l k' c' :
  In (k', c') (cache_set k v l) ->
  In (k', c') l
  \/ (c' = v /\ desc_eqb k' k = true /\ (k' = k \/ exists c0, In (k', c0) l)).
Proof.
  induction l as [|[k0 v0] rest IH]; simpl.
  - intros [[= <- <-] | []]. right. rewrite desc_eqb_refl. auto.
  - destruct (desc_eqb k0 k) eqn:E; simpl.
    + intros [[= <- <-] | HIn]; [|auto]. right. repeat split; eauto.
    + intros [[= <- <-] | HIn]; [auto|].
      destruct (IH HIn) as [H | (-> & E' & [-> | (c0 & H)])]; eauto 8.
Qed.

Lemma keys_distinct_cons k v l :
  keys_distinct ((k, v) :: l) <->
  (forall k' c', In (k', c') l -> desc_eqb k k' = false) /\ keys_distinct l.
Proof.
  unfold keys_distinct. split.
  - intros H. split.
    + intros k' c' HIn. apply In_nth_error in HIn as [j Hj].
      destruct (desc_eqb k k') eqn:E; [|reflexivity].
      discriminate (H 0 (S j) k v k' c' eq_refl Hj E).
    + intros i j k1 c1 k2 c2 Hi Hj E.
      pose proof (H (S i) (S j) k1 c1 k2 c2 Hi Hj E). lia.
  - intros [Hk Hl] [|i] [|j] k1 c1 k2 c2; simpl; intros Hi Hj E.
    + reflexivity.
    + injection Hi as <- <-. apply nth_error_In in Hj.
      rewrite (Hk _ _ Hj) in E. discriminate.
    + injection Hj as <- <-. apply nth_error_In in Hi.
      rewrite desc_eqb_sym, (Hk _ _ Hi) in E. discriminate.
    + f_equal. eapply Hl; eauto.
Qed.

Lemma keys_distinct_nil : keys_distinct [].
Proof. intros [|i] j k1 c1 k2 c2 H; discriminate. Qed.

(** A [dict] assignment never makes two entries with equal keys. *)
Lemma keys_distinct_set k v l :
  keys_distinct l -> keys_distinct (cache_set k v l).
Proof.
  induction l as [|[k0 v0] rest IH]; simpl; intros H.
  - apply keys_distinct_cons. split; [contradiction | exact H].
  - apply keys_distinct_cons in H as [Hk Hl].
    destruct (desc_eqb k0 k) eqn:E; apply keys_distinct_cons; split; auto.
    intros k' c' HIn.
    apply In_cache_set in HIn as [HIn | (_ & _ & [-> | (c0 & HIn)])]; eauto.
Qed.

Lemma made_for_equal k k' c :
  desc_eqb k' k = true -> made_for k c -> made_for k' c.
Proof.
  intros E Hm. pose proof (@desc_eqb_compat k' k (checker_type c) E) as C.
  destruct k, k'; simpl in E; try discriminate E; unfold made_for in *;
    try exact Hm; (destruct Hm as [H1 H2]; split; [congruence | exact H2]).
Qed.

Lemma entries_made_for_set k v l :
  made_for k v -> entries_made_for l -> entries_made_for (cache_set k v l).
Proof.
  intros Hm H k' c' HIn.
  apply In_cache_set in HIn as [HIn | (-> & E & _)]; [now apply H|].
  exact (@made_for_equal k k' v E Hm).
Qed.

(** In every state the program can reach, no two entries of the cache have
    equal keys. *)
Lemma reachable_keys_distinct st : reachable st -> keys_distinct (cache st).
Proof.
  apply (@reachable_invariant (fun st => keys_distinct (cache st))); simpl.
  - auto.
  - intros type_ c st0 H _. now apply keys_distinct_set.
  - apply keys_distinct_nil.
Qed.

(** In every state the program can reach, every entry of the cache holds a
    validator made for its key. *)
Lemma reachable_entries_made_for st : reachable st -> entries_made_for (cache st).
Proof.
  apply (@reachable_invariant (fun st => entries_made_for (cache st))); simpl.
  - auto.
  - intros type_ c st0 H Hm. now apply entries_made_for_set.
  - intros k c [].
Qed.

(** In a reachable state [None] is answered by the singleton. *)
Lemma reachable_get_DNone st r st' :
  reachable st -> get_type_checker DNone st = (r, st') ->
  r = Return EmptyTypeChecker.
Proof.
  intros R H.
  assert (R' : reachable st') by (eapply reachable_lookup; eauto).
  destruct (cache_get DNone (cache st)) as [c0|] eqn:E.
  - rewrite (@get_type_checker_hit DNone st c0 E) in H. injection H as <- <-.
    apply cache_get_Some in E as (k' & HIn & E).
    apply desc_eqb_DNone in E. subst k'.
    apply (reachable_entries_made_for R) in HIn. simpl in HIn. now subst.
  - rewrite (@get_type_checker_miss DNone st E) in H. simpl in H.
    now injection H as <- _.
Qed.

(** ** Lookups return *)

Lemma get_type_checker_of_create type_ st :
  (exists c st1, create_type_checker get_type_checker type_ st = (Return c, st1)) ->
  exists c st', get_type_checker type_ st = (Return c, st').
Proof.
  intros (c & st1 & C).
  destruct (cache_get type_ (cache st)) as [c0|] eqn:E.
  - rewrite (@get_type_checker_hit type_ st c0 E). eauto.
  - rewrite (@get_type_checker_miss type_ st E), C. eauto.
Qed.

Lemma mapM_returns args :
  Forall (fun a => forall st, exists c st', get_type_checker a st = (Return c, st')) args ->
  forall st, exists cs st', mapM get_type_checker args st = (Return cs, st').
Proof.
  induction 1 as [|a rest Ha _ IH]; intros st; simpl.
  - unfold ret. eauto.
  - unfold Mbind. destruct (Ha st) as (c & st1 & ->).
    destruct (IH st1) as (cs & st2 & ->). unfold ret. eauto.
Qed.

(** On a description as [typing] builds it, the lookup returns a validator,
    whatever the registry holds. *)
Lemma get_type_checker_returns type_ :
  wf_desc type_ = true ->
  forall st, exists c st', get_type_checker type_ st = (Return c, st').
Proof.
  induction type_ as [c| | | |n c|oid o args IH] using desc_ind'; intros Hwf st;
    apply get_type_checker_of_create;
    try (simpl; unfold Mbind, fresh_id, ret; now eauto).
  simpl in Hwf. apply andb_true_iff in Hwf as [Harity Hargs].
  assert (IH' : Forall (fun a => forall st, exists c st',
                            get_type_checker a st = (Return c, st')) args).
  { rewrite forallb_forall in Hargs. rewrite Forall_forall in IH |- *.
    intros a Ha. apply IH; auto. }
  clear IH Hargs.
  destruct o as [| | | |name]; simpl; unfold Mbind at 1; simpl.
  - destruct (mapM_returns IH' (mk_registry (S (next_id st)) (cache st)))
      as (cs & st1 & E).
    unfold Mbind. rewrite E. unfold ret. eauto.
  - destruct args as [|a0 [|a1 rest]]; try discriminate Harity.
    apply Forall_inv in IH'.
    destruct (IH' (mk_registry (S (next_id st)) (cache st))) as (c0 & st1 & E).
    unfold Mbind. rewrite E. unfold ret. eauto.
  - destruct args as [|a0 [|a1 [|a2 rest]]]; try discriminate Harity.
    pose proof (Forall_inv IH') as H0.
    pose proof (Forall_inv (Forall_inv_tail IH')) as H1.
    destruct (H0 (mk_registry (S (next_id st)) (cache st))) as (c0 & st1 & E0).
    destruct (H1 st1) as (c1 & st2 & E1).
    unfold Mbind. rewrite E0, E1. unfold ret. eauto.
  - destruct args as [|a0 [|a1 rest]]; try discriminate Harity.
    apply Forall_inv in IH'.
    destruct (IH' (mk_registry (S (next_id st)) (cache st))) as (c0 & st1 & E).
    unfold Mbind. rewrite E. unfold ret. eauto.
  - unfold ret. eauto.
Qed.

(** C2.  A lookup of a description [D] returns a validator, and a second
    lookup of the same description object returns that very validator, with
    the same identity, without constructing anything: the registry is left as
    the first lookup left it. *)
Theorem get_type_checker_same_instance (D : desc) (st : registry) :
  (forall c st1,
      get_type_checker D st = (Return c, st1) ->
      get_type_checker D st1 = (Return c, st1))
  /\ (wf_desc D = true ->
      exists c st1,
        get_type_checker D st = (Return c, st1)
        /\ get_type_checker D st1 = (Return c, st1)).
Proof.
  assert (Again : forall c st1,
             get_type_checker D st = (Return c, st1) ->
             get_type_checker D st1 = (Return c, st1)).
  { intros c st1 H. apply get_type_checker_hit.
    exact (@get_type_checker_cached D st c st1 H). }
  split; [exact Again|].
  intros Hwf. destruct (@get_type_checker_returns D Hwf st) as (c & st1 & H).
  exists c, st1. auto.
Qed.

(** C10.  The cache compares descriptions with [==]: after a lookup of [d1],
    a lookup of any description [d2] equal to it, be it another object,
    returns the validator the first lookup returned and stores nothing; and
    in every state the program can reach no two entries of the cache have
    equal keys, so that each class of equal descriptions has at most one
    validator. *)
Theorem cache_keyed_by_equality :
  (forall d1 d2 st c st1,
      desc_eqb d1 d2 = true ->
      get_type_checker d1 st = (Return c, st1) ->
      get_type_checker d2 st1 = (Return c, st1))
  /\ (forall st, reachable st -> keys_distinct (cache st))
  /\ (exists c st1,
        list_of_int <> list_of_int'
        /\ get_type_checker list_of_int initial_registry = (Return c, st1)
        /\ get_type_checker list_of_int' st1 = (Return c, st1)).
Proof.
  split; [|split].
  - intros d1 d2 st c st1 E H. apply get_type_checker_hit.
    rewrite <- (@cache_get_equal_keys d1 d2 (cache st1) E).
    exact (@get_type_checker_cached d1 st c st1 H).
  - exact reachable_keys_distinct.
  - eexists. eexists. split; [discriminate|]. split; reflexivity.
Qed.

(** ** Loops *)

Lemma for_enumerate_ok A (body : nat -> A -> result unit) xs :
  forall k,
    (forall i x, nth_error xs i = Some x -> body (k + i) x = Return tt) ->
    for_enumerate body k xs = Return tt.
Proof.
  induction xs as [|x rest IH]; intros k H; simpl; [reflexivity|].
  pose proof (H 0 x eq_refl) as H0. rewrite Nat.add_0_r in H0. rewrite H0. simpl.
  apply IH. intros i y Hi. specialize (H (S i) y Hi).
  now rewrite Nat.add_succ_r in H.
Qed.

(** The loop raises what its body raises on the first item it fails on. *)
Lemma for_enumerate_first_failure A (body : nat -> A -> result unit) pre x post e :
  forall k,
    (forall i y, nth_error pre i = Some y -> body (k + i) y = Return tt) ->
    body (k + List.length pre) x = Raise e ->
    for_enumerate body k (pre ++ x :: post) = Raise e.
Proof.
  induction pre as [|p pre IH]; intros k Hpre Hx; simpl in *.
  - rewrite Nat.add_0_r in Hx. now rewrite Hx.
  - pose proof (Hpre 0 p eq_refl) as H0. rewrite Nat.add_0_r in H0. rewrite H0. simpl.
    apply IH.
    + intros i y Hi. specialize (Hpre (S i) y Hi). now rewrite Nat.add_succ_r in Hpre.
    + now rewrite Nat.add_succ_r in Hx.
Qed.

(** If the loop returns, the body returned on every item; if it raises, the
    body raised that exception on some item. *)
Lemma for_enumerate_inv A (body : nat -> A -> result unit) xs :
  forall k,
    match for_enumerate body k xs with
    | Return _ => forall i x, nth_error xs i = Some x -> body (k + i) x = Return tt
    | Raise e => exists i x, nth_error xs i = Some x /\ body (k + i) x = Raise e
    end.
Proof.
  induction xs as [|x rest IH]; intros k; simpl.
  - intros [|i] y; discriminate.
  - destruct (body k x) as [[]|e] eqn:B; simpl.
    + specialize (IH (S k)). destruct (for_enumerate body (S k) rest).
      * intros [|i] y; simpl.
        -- intros [= <-]. now rewrite Nat.add_0_r.
        -- intros Hi. rewrite Nat.add_succ_r. now apply IH.
      * destruct IH as (i & y & Hi & Hb). exists (S i), y.
        rewrite Nat.add_succ_r. auto.
    + exists 0, x. rewrite Nat.add_0_r. auto.
Qed.

Lemma do_type_check_Return c obj message r :
  call c obj = Return r -> do_type_check c obj message = Return r.
Proof. unfold do_type_check, do_type_check_. now intros ->. Qed.

(** A [TypeCheckError] of the validator is wrapped in one that carries the
    message of the level and has the original as its cause. *)
Lemma do_type_check_wraps c obj message err :
  call c obj = Raise err -> catches TypeCheckError err = true ->
  do_type_check c obj message = Raise (Exc TypeCheckError message (Some err)).
Proof. unfold do_type_check, do_type_check_. now intros -> ->. Qed.

(** ** The tuple and list validators *)

(** C3.  A tuple validator with [n] child validators raises a
    [TypeCheckError] on every tuple whose length is not [n], whatever its
    elements are; on a tuple of length [n] whose element [i] passes child
    validator [i], for every [i], it returns the tuple it was given. *)
Theorem tuple_checker_arity (id_ : nat) (type_ : desc)
  (checkers : list checker) (items : list value) :
  (List.length items <> List.length checkers ->
   call (TupleTypeChecker id_ type_ checkers) (VTuple items)
   = Raise (Exc TypeCheckError "Length of the tuple mismatch!" None))
  /\ (List.length items = List.length checkers ->
      (forall i c x, nth_error checkers i = Some c -> nth_error items i = Some x ->
                     exists r, call c x = Return r) ->
      call (TupleTypeChecker id_ type_ checkers) (VTuple items) = Return (VTuple items)).
Proof.
  split; intros Hlen; simpl; unfold py_len; simpl.
  - apply Nat.eqb_neq in Hlen. now rewrite Hlen.
  - intros Hpass. rewrite Hlen, Nat.eqb_refl. simpl.
    rewrite for_enumerate_ok; [reflexivity|].
    intros i c Hc. simpl. unfold py_getitem. simpl.
    destruct (nth_error items i) as [x|] eqn:Hx.
    + simpl. destruct (Hpass i c x Hc Hx) as [r Hr].
      unfold do_type_check_. now rewrite Hr.
    + apply nth_error_None in Hx.
      assert (i < List.length checkers) by (apply nth_error_Some; congruence). lia.
Qed.

(** X14.  The list validator fails at the first element its child validator
    rejects, with the index of that element in the message and the child's
    error as the cause. *)
Lemma list_checker_first_failure id_ type_ c pre x post err :
  (forall y, In y pre -> exists r, call c y = Return r) ->
  call c x = Raise err -> catches TypeCheckError err = true ->
  call (ListTypeChecker id_ type_ c) (VList (pre ++ x :: post))
  = Raise (Exc TypeCheckError (element_message (List.length pre)) (Some err)).
Proof.
  intros Hpre Hx Hc. simpl.
  rewrite for_enumerate_first_failure
    with (e := Exc TypeCheckError (element_message (List.length pre)) (Some err));
    [reflexivity | |].
  - intros i y Hi. apply nth_error_In in Hi. destruct (Hpre y Hi) as [r Hr].
    unfold do_type_check_. now rewrite Hr.
  - simpl. unfold do_type_check_. now rewrite Hx, Hc.
Qed.

(** The claim as C4 states it fails: the validator of [typing.List[int]]
    raises on [[1, 2, "x"]], but the message of the innermost exception of
    the chain does not name the index 2. *)
Lemma list_of_int_leaf_names_no_index :
  ~ (exists c st e,
        get_type_checker list_of_int initial_registry = (Return c, st)
        /\ call c one_two_x = Raise e
        /\ names_index 2 (exc_msg (leaf e)) = true).
Proof.
  intros (c & st & e & G & H & N).
  vm_compute in G. injection G as <- _.
  vm_compute in H. injection H as <-.
  vm_compute in N. discriminate.
Qed.

(** C4, amended.  The validator of [typing.List[int]] raises on
    [[1, 2, "x"]]: the elements 1 and 2 pass the child validator, the element
    ["x"] does not; the outermost exception of the chain names the index 2
    in its message, and its cause, the innermost exception, states the
    expected class [int] and the actual class and value [str('x')] and names
    no index. *)
Theorem list_of_int_failure_chain :
  exists c st inner,
    get_type_checker list_of_int initial_registry = (Return c, st)
    /\ c = list_of_int_checker
    /\ call (TypeChecker 2 (DClass c_int)) (VInt 1) = Return (VInt 1)
    /\ call (TypeChecker 2 (DClass c_int)) (VInt 2) = Return (VInt 2)
    /\ call (TypeChecker 2 (DClass c_int)) (VStr "x") = Raise inner
    /\ call c one_two_x
       = Raise (Exc TypeCheckError "The #2 element has incompatible type!" (Some inner))
    /\ inner = Exc TypeCheckError
                 ("Expect: " ++ dquote ++ "<class 'int'>" ++ dquote ++ "." ++ newline
                  ++ "Actual " ++ dquote ++ "<class 'str'>('x')" ++ dquote ++ "."
                  ++ newline) None
    /\ leaf (Exc TypeCheckError "The #2 element has incompatible type!" (Some inner))
       = inner
    /\ chain_messages (Exc TypeCheckError "The #2 element has incompatible type!"
                                 (Some inner))
       = ["The #2 element has incompatible type!"; exc_msg inner]
    /\ exc_cause inner = None
    /\ names_index 2 "The #2 element has incompatible type!" = true
    /\ names_index 2 (exc_msg inner) = false.
Proof.
  do 3 eexists. split; [reflexivity|]. repeat split; reflexivity.
Qed.

(** ** Construction of the call checker *)

(** A slice that stops at index 0 is empty, wherever it starts. *)
Lemma slice_stop_0 A (l : list A) start : slice l start 0 = [].
Proof. unfold slice. replace (slice_bound (List.length l) 0) with 0; [reflexivity|].
  unfold slice_bound. simpl. destruct (List.length l); reflexivity.
Qed.

(** [self._arg_defaults] is empty for every function. *)
Lemma arg_defaults_pairs_nil argspec : arg_defaults_pairs argspec = [].
Proof. unfold arg_defaults_pairs. now rewrite slice_stop_0. Qed.

(** C5.  The code does not do what the claim says.  The names paired with
    the positional defaults are the slice [args[-len(defaults):0]], which is
    empty for every function, so no positional default is ever checked:
    constructing the checker of [def f(a: int = "x")] returns, although the
    validator of [a] rejects ["x"].  The same default on a keyword-only
    parameter is checked and fails the construction. *)
Theorem positional_defaults_never_checked :
  (forall argspec, arg_defaults_pairs argspec = [])
  /\ (exists self st a_checker e,
        FuncCallTypeChecker_init f_bad_default true true false initial_registry
        = (Return self, st)
        /\ _arg_defaults self = []
        /\ sdict_get "a" (_arg_checkers self) = Some a_checker
        /\ call a_checker (VStr "x") = Raise e)
  /\ (exists st cause,
        FuncCallTypeChecker_init f_bad_kwonly_default true true false initial_registry
        = (Raise (Exc TypeCheckError (keyword_default_message "a") (Some cause)), st)).
Proof.
  split; [exact arg_defaults_pairs_nil|]. split.
  - do 4 eexists. split; [reflexivity|]. repeat split; reflexivity.
  - do 2 eexists. reflexivity.
Qed.

(** [create_checker] does not look at [force_annotation]: [dict.get] never
    raises the [KeyError] the handler waits for. *)
Lemma create_checker_ignores_force W (func : callable W) force arg_name :
  create_checker func force arg_name = create_checker func false arg_name.
Proof. reflexivity. Qed.

(** A parameter without annotation gets the singleton, forced or not. *)
Lemma create_checker_unannotated W (func : callable W) force name st r st' :
  reachable st ->
  sdict_get name (inspect.annotations (func_argspec func)) = None ->
  create_checker func force (Some name) st = (r, st') ->
  r = Return EmptyTypeChecker.
Proof.
  intros R Hname. unfold create_checker, dict_get. rewrite Hname.
  now apply reachable_get_DNone.
Qed.

(** C6.  The code does not do what the claim says when annotations are
    forced.  [create_checker] behaves the same whatever [force_annotation]
    is, a parameter without annotation gets the accept-all singleton in both
    cases, and constructing the checker of [def g(x)] with
    [force_annotation=True] returns. *)
Theorem force_annotation_has_no_effect :
  (forall W (func : callable W) force arg_name,
      create_checker func force arg_name = create_checker func false arg_name)
  /\ (forall W (func : callable W) force name st r st',
        reachable st ->
        sdict_get name (inspect.annotations (func_argspec func)) = None ->
        create_checker func force (Some name) st = (r, st') ->
        r = Return EmptyTypeChecker)
  /\ (exists self st,
        FuncCallTypeChecker_init g_unannotated true true true initial_registry
        = (Return self, st)
        /\ _arg_checkers self = [("x", EmptyTypeChecker)]
        /\ _ret_checker self = EmptyTypeChecker).
Proof.
  split; [exact create_checker_ignores_force|].
  split; [exact create_checker_unannotated|].
  do 2 eexists. split; [reflexivity|]. split; reflexivity.
Qed.

(** ** Calls through the call checker *)

Lemma h_checker_built :
  fst (FuncCallTypeChecker_init h_counting true true false initial_registry)
  = Return h_checker.
Proof. reflexivity. Qed.

Lemma do_type_check_passes c obj message :
  passes c obj <-> exists r, do_type_check c obj message = Return r.
Proof.
  unfold passes, do_type_check, do_type_check_. destruct (call c obj) as [r|e].
  - split; eauto.
  - split; intros [r H]; [discriminate|].
    destruct (catches TypeCheckError e); discriminate.
Qed.

Lemma do_type_check_raises c obj message e :
  do_type_check c obj message = Raise e -> ~ passes c obj.
Proof.
  intros H [r Hr]. rewrite (do_type_check_Return _ _ message Hr) in H. discriminate.
Qed.

Lemma nth_error_Some_lt A (l : list A) i x :
  nth_error l i = Some x -> i < List.length l.
Proof. intros H. apply nth_error_Some. congruence. Qed.

Lemma args_getitem_Some args i x :
  nth_error args i = Some x -> args_getitem args i = Return x.
Proof. unfold args_getitem. now intros ->. Qed.

Section CallPhases.

Variable W : Type.
Variable args : list value.

(** The first loop checks the arguments before [min(len(checkers), len(args))]
    against the checkers at their index, and stops there. *)
Lemma check_positional_inv (checkers : sdict checker) :
  forall k, k <= List.length args ->
    match check_positional checkers args k with
    | Return k' =>
        k' = Nat.min (k + List.length checkers) (List.length args)
        /\ forall j name c x,
             nth_error checkers j = Some (name, c) ->
             nth_error args (k + j) = Some x -> passes c x
    | Raise e =>
        exists j name c x,
          nth_error checkers j = Some (name, c)
          /\ nth_error args (k + j) = Some x
          /\ do_type_check c x (positional_message name) = Raise e
    end.
Proof.
  induction checkers as [|[name c] rest IH]; intros k Hk; simpl.
  - split; [lia|]. intros [|j]; discriminate.
  - destruct (Nat.eqb_spec k (List.length args)) as [->|Hne].
    + split; [lia|]. intros j name' c' x _ Hx.
      apply nth_error_Some_lt in Hx. lia.
    + destruct (nth_error args k) as [x|] eqn:Hx;
        [|apply nth_error_None in Hx; lia].
      rewrite (args_getitem_Some _ _ Hx). simpl.
      destruct (do_type_check c x (positional_message name)) as [r|e] eqn:D; simpl.
      * assert (Hk' : S k <= List.length args) by lia.
        specialize (IH (S k) Hk').
        destruct (check_positional rest args (S k)) as [k'|e].
        -- destruct IH as [-> IH]. split; [lia|].
           intros [|j] name' c' y; simpl.
           ++ intros [= <- <-]. rewrite Nat.add_0_r, Hx. intros [= <-].
              apply (do_type_check_passes c x (positional_message name)); eauto.
           ++ rewrite Nat.add_succ_r. apply IH.
        -- destruct IH as (j & name' & c' & y & Hj & Hy & He).
           exists (S j), name', c', y. rewrite Nat.add_succ_r. auto.
      * exists 0, name, c, x. rewrite Nat.add_0_r. auto.
Qed.

(** The second loop checks every argument from [k] on. *)
Lemma check_variadic_inv (c : checker) :
  forall todo k, k + todo = List.length args ->
    match check_variadic c args k todo with
    | Return _ => forall j x, k <= j -> nth_error args j = Some x -> passes c x
    | Raise e =>
        exists j x, k <= j /\ nth_error args j = Some x
                    /\ do_type_check c x (variadic_message j) = Raise e
    end.
Proof.
  induction todo as [|todo IH]; intros k Hk; simpl.
  - intros j x Hj Hx. apply nth_error_Some_lt in Hx. lia.
  - destruct (nth_error args k) as [x|] eqn:Hx;
      [|apply nth_error_None in Hx; lia].
    rewrite (args_getitem_Some _ _ Hx). simpl.
    destruct (do_type_check c x (variadic_message k)) as [r|e] eqn:D; simpl.
    + assert (Hk' : S k + todo = List.length args) by lia.
      specialize (IH (S k) Hk').
      destruct (check_variadic c args (S k) todo) as [u|e].
      * intros j y Hj Hy. destruct (Nat.eq_dec j k) as [->|Hne].
        -- rewrite Hx in Hy. injection Hy as <-.
           apply (do_type_check_passes c x (variadic_message k)); eauto.
        -- apply (IH j y); [lia | exact Hy].
      * destruct IH as (j & y & Hj & Hy & He). exists j, y. split; [lia | auto].
    + exists k, x. auto.
Qed.

(** The third loop checks every keyword argument against the validator
    chosen for its name. *)
Lemma check_keywords_inv (self : FuncCallTypeChecker W) (kwargs : sdict value) :
  match check_keywords self kwargs with
  | Return _ => forall name v, In (name, v) kwargs -> passes (keyword_checker self name) v
  | Raise e =>
      exists name v, In (name, v) kwargs
                     /\ do_type_check (keyword_checker self name) v
                                      (keyword_message name) = Raise e
  end.
Proof.
  unfold check_keywords.
  match goal with |- match for_enumerate ?b 0 kwargs with _ => _ end =>
    pose proof (for_enumerate_inv b kwargs 0) as H;
    destruct (for_enumerate b 0 kwargs) as [u|e]
  end.
  - intros name v HIn. apply In_nth_error in HIn as [i Hi].
    specialize (H i (name, v) Hi). simpl in H.
    destruct (do_type_check (keyword_checker self name) v (keyword_message name))
      as [r|e] eqn:D; [|discriminate].
    apply (do_type_check_passes _ _ (keyword_message name)); eauto.
  - destruct H as (i & [name v] & Hi & H). simpl in H.
    exists name, v. split; [eapply nth_error_In; eauto|].
    destruct (do_type_check (keyword_checker self name) v (keyword_message name))
      as [r|e'] eqn:D; [discriminate | simpl in H; congruence].
Qed.

(** The argument checks return exactly when every argument passes the
    validator chosen for it, and raise otherwise. *)
Lemma check_arguments_spec (self : FuncCallTypeChecker W) (kwargs : sdict value) :
  match check_arguments self args kwargs with
  | Return _ => arguments_pass self args kwargs
  | Raise _ => ~ arguments_pass self args kwargs
  end.
Proof.
  unfold check_arguments.
  pose proof (@check_positional_inv (_arg_checkers self) 0 (Nat.le_0_l _)) as H1.
  destruct (check_positional (_arg_checkers self) args 0) as [k'|e]; simpl.
  - destruct H1 as [Hk' H1]. simpl in Hk'.
    assert (Hsum : k' + (List.length args - k') = List.length args) by lia.
    pose proof (@check_variadic_inv (_varg_checker self) _ k' Hsum) as H2.
    destruct (check_variadic (_varg_checker self) args k' (List.length args - k'))
      as [u|e]; simpl.
    + pose proof (check_keywords_inv self kwargs) as H3.
      destruct (check_keywords self kwargs) as [u'|e].
      * split; [|exact H3]. intros i x Hx. unfold positional_checker.
        destruct (nth_error (_arg_checkers self) i) as [[name c]|] eqn:Hc.
        -- exact (H1 i name c x Hc Hx).
        -- apply nth_error_None in Hc. apply nth_error_Some_lt in Hx as Hlt.
           apply (H2 i x); [lia | exact Hx].
      * intros [_ Hkw]. destruct H3 as (name & v & HIn & D).
        exact (@do_type_check_raises _ _ _ _ D (Hkw name v HIn)).
    + intros [Hpos _]. destruct H2 as (j & x & Hj & Hx & D).
      apply (@do_type_check_raises _ _ _ _ D). specialize (Hpos j x Hx).
      unfold positional_checker in Hpos.
      assert (Hnone : nth_error (_arg_checkers self) j = None).
      { apply nth_error_None. apply nth_error_Some_lt in Hx. lia. }
      now rewrite Hnone in Hpos.
  - intros [Hpos _]. destruct H1 as (j & name & c & x & Hc & Hx & D).
    apply (@do_type_check_raises _ _ _ _ D). specialize (Hpos j x Hx).
    unfold positional_checker in Hpos. now rewrite Hc in Hpos.
Qed.

End CallPhases.

(** C7.  With argument checking enabled: when some argument does not pass
    the validator chosen for it, the call raises what the argument checks
    raised, the wrapped function is not entered and the world is as it was;
    when every argument passes, the wrapped function is entered once, and the
    world is the one it leaves, also when the check of the returned value
    then raises. *)
Theorem call_aborts_before_or_after (W : Type) (self : FuncCallTypeChecker W)
  (args : list value) (kwargs : sdict value) (w : W) :
  _check_args self = true ->
  let out := FuncCallTypeChecker_call self args kwargs w in
  let after := func_body (_func self) args kwargs w in
  (~ arguments_pass self args kwargs ->
   invocations out = 0 /\ world out = w
   /\ exists e, check_arguments self args kwargs = Raise e /\ outcome out = Raise e)
  /\ (arguments_pass self args kwargs ->
      invocations out = 1 /\ world out = snd after
      /\ match fst after with
         | Raise e => outcome out = Raise e
         | Return ret_ =>
             if _check_return self then
               match do_type_check (_ret_checker self) ret_
                                   "Return a incompatible value!" with
               | Return _ => outcome out = Return ret_
               | Raise e => outcome out = Raise e
               end
             else outcome out = Return ret_
         end).
Proof.
  intros Hca out after. subst out after. unfold FuncCallTypeChecker_call.
  rewrite Hca. pose proof (check_arguments_spec args self kwargs) as Hspec.
  destruct (check_arguments self args kwargs) as [u|e].
  - split; [intros N; now elim N|]. intros _.
    destruct (func_body (_func self) args kwargs w) as [[ret_|e] w']; simpl;
      [|auto].
    destruct (_check_return self); [|auto].
    destruct (do_type_check (_ret_checker self) ret_ "Return a incompatible value!");
      auto.
  - split; [|intros Hp; now elim Hspec]. intros _. simpl. eauto.
Qed.

(** C7 on [h]: a [str] for [a] stops the call before the body; an [int] lets
    the body run once, and its effect on the world stands although the
    returned [str] then fails the check of the return value. *)
Lemma call_aborts_before_or_after_witness :
  _check_args h_checker = true
  /\ invocations (FuncCallTypeChecker_call h_checker [VStr "a"] [] 0) = 0
  /\ world (FuncCallTypeChecker_call h_checker [VStr "a"] [] 0) = 0
  /\ invocations (FuncCallTypeChecker_call h_checker [VInt 1] [] 0) = 1
  /\ world (FuncCallTypeChecker_call h_checker [VInt 1] [] 0) = 1.
Proof.
  split; [reflexivity|].
  destruct (@call_aborts_before_or_after nat h_checker [VStr "a"] [] 0 eq_refl)
    as [Hfail _].
  destruct (@call_aborts_before_or_after nat h_checker [VInt 1] [] 0 eq_refl)
    as [_ Hpass].
  assert (Hbad : ~ arguments_pass h_checker [VStr "a"] []).
  { intros [Hpos _]. destruct (Hpos 0 (VStr "a") eq_refl) as [r Hr]. discriminate. }
  assert (Hgood : arguments_pass h_checker [VInt 1] []).
  { split.
    - intros [|[|i]] x; simpl; intros [= <-]. exists (VInt 1). reflexivity.
    - intros name v []. }
  destruct (Hfail Hbad) as (H1 & H2 & _). destruct (Hpass Hgood) as (H3 & H4 & _).
  repeat split; assumption.
Defined.

(** ** The validators of a call checker *)

Lemma sdict_get_set A k k' (v : A) d :
  sdict_get k (sdict_set k' v d) = if String.eqb k' k then Some v else sdict_get k d.
Proof.
  induction d as [|[k0 v0] rest IH]; simpl; [reflexivity|].
  destruct (String.eqb_spec k0 k') as [->|N]; simpl.
  - destruct (String.eqb k' k); reflexivity.
  - rewrite IH. destruct (String.eqb_spec k0 k) as [->|N']; [|reflexivity].
    destruct (String.eqb_spec k' k) as [->|_]; [now elim N | reflexivity].
Qed.

Lemma sdict_fold_get A (pairs : list (string * A)) k v :
  forall d,
    sdict_get k (fold_left (fun d kv => sdict_set (fst kv) (snd kv) d) pairs d) = Some v ->
    In (k, v) pairs \/ sdict_get k d = Some v.
Proof.
  induction pairs as [|[k0 v0] rest IH]; simpl; intros d H; [auto|].
  destruct (IH _ H) as [HIn | Hd]; [auto|].
  rewrite sdict_get_set in Hd. simpl in Hd.
  destruct (String.eqb_spec k0 k) as [->|_]; [|auto].
  injection Hd as ->. auto.
Qed.

Lemma sdict_fold_keys A (pairs : list (string * A)) k :
  forall d,
    In k (map fst pairs) \/ sdict_get k d <> None ->
    sdict_get k (fold_left (fun d kv => sdict_set (fst kv) (snd kv) d) pairs d) <> None.
Proof.
  induction pairs as [|[k0 v0] rest IH]; simpl; intros d H.
  - destruct H as [[] | H]; exact H.
  - apply IH. rewrite sdict_get_set.
    destruct (String.eqb_spec k0 k) as [->|N]; [right; discriminate|].
    destruct H as [[E | HIn] | H]; [now elim N | auto | auto].
Qed.

(** The entries of [dict(pairs)] are among the pairs, and every first
    component is a key. *)
Lemma sdict_of_get A (pairs : list (string * A)) k v :
  sdict_get k (sdict_of pairs) = Some v -> In (k, v) pairs.
Proof.
  intros H. destruct (sdict_fold_get _ _ _ H) as [HIn | Hd]; [exact HIn | discriminate].
Qed.

Lemma sdict_of_keys A (pairs : list (string * A)) k :
  In k (map fst pairs) -> sdict_get k (sdict_of pairs) <> None.
Proof. intros H. apply sdict_fold_keys. auto. Qed.

Lemma mapM_Forall2 A B (f : A -> M B) (P : registry -> Prop) (Q : A -> B -> Prop) :
  (forall x st r st', P st -> f x st = (r, st') ->
                      P st' /\ forall y, r = Return y -> Q x y) ->
  forall xs st r st', P st -> mapM f xs st = (r, st') ->
                      P st' /\ forall ys, r = Return ys -> Forall2 Q xs ys.
Proof.
  intros Hf. induction xs as [|x rest IH]; simpl; intros st r st' HP H.
  - injection H as <- <-. split; [exact HP|]. intros ys [= <-]. constructor.
  - apply Mbind_inv in H as [(y & st1 & F & H) | (e & F & ->)].
    + destruct (Hf _ _ _ _ HP F) as [HP1 HQ].
      apply Mbind_inv in H as [(ys & st2 & G & H) | (e & G & ->)].
      * destruct (IH _ _ _ HP1 G) as [HP2 HQs]. injection H as <- <-.
        split; [exact HP2|]. intros ys' [= <-]. constructor; auto.
      * destruct (IH _ _ _ HP1 G) as [HP2 _]. split; [exact HP2 | discriminate].
    + destruct (Hf _ _ _ _ HP F) as [HP1 _]. split; [exact HP1 | discriminate].
Qed.

(** In a reachable state a lookup returns a validator made for the
    description. *)
Lemma get_type_checker_made_for type_ st c st' :
  reachable st -> get_type_checker type_ st = (Return c, st') -> made_for type_ c.
Proof.
  intros R H.
  assert (R' : reachable st') by (eapply reachable_lookup; eauto).
  apply get_type_checker_cached in H. apply cache_get_Some in H as (k' & HIn & E).
  apply (reachable_entries_made_for R') in HIn.
  rewrite desc_eqb_sym in E. exact (@made_for_equal k' type_ c E HIn).
Qed.

Section CallCheckerConstruction.

Variable W : Type.
Variable func : callable W.
Variable force_annotation : bool.

Lemma create_checker_spec arg_name st r st' :
  reachable st ->
  create_checker func force_annotation arg_name st = (r, st') ->
  reachable st'
  /\ forall c, r = Return c -> made_for (annotation_of (func_argspec func) arg_name) c.
Proof.
  intros R H. change (get_type_checker (annotation_of (func_argspec func) arg_name) st
                      = (r, st')) in H.
  split; [eapply reachable_lookup; eauto|].
  intros c ->. eapply get_type_checker_made_for; eauto.
Qed.

(** [create_checker_dict] maps exactly the given names, each to a validator
    made for its annotation. *)
Lemma create_checker_dict_spec names st r st' :
  reachable st ->
  create_checker_dict func force_annotation names st = (r, st') ->
  reachable st'
  /\ forall d, r = Return d ->
       (forall name, In name names <-> sdict_get name d <> None)
       /\ (forall name c, sdict_get name d = Some c ->
             made_for (annotation_of (func_argspec func) (Some name)) c).
Proof.
  intros R H. unfold create_checker_dict in H.
  apply Mbind_inv in H as [(pairs & st1 & F & H) | (e & F & ->)].
  - apply (@mapM_Forall2 _ _ _ reachable
             (fun name p => fst p = name
                /\ made_for (annotation_of (func_argspec func) (Some name)) (snd p)))
      in F as [R1 HQ]; [| |exact R].
    + injection H as <- <-. split; [exact R1|]. intros d [= <-].
      specialize (HQ pairs eq_refl).
      assert (Hkeys : map fst pairs = names).
      { clear -HQ. induction HQ as [|n p ns ps [Hn _] _ IH]; simpl; congruence. }
      split.
      * intros name. split.
        -- intros HIn. apply sdict_of_keys. now rewrite Hkeys.
        -- intros Hget. destruct (sdict_get name (sdict_of pairs)) as [c|] eqn:E;
             [|now elim Hget].
           apply sdict_of_get in E. rewrite <- Hkeys.
           change name with (fst (name, c)). now apply in_map.
      * intros name c E. apply sdict_of_get in E.
        clear -HQ E. induction HQ as [|n p ns ps [Hn Hm] _ IH]; [contradiction|].
        destruct E as [-> | E]; [simpl in *; now subst | auto].
    + intros name st0 r0 st0' R0 F0.
      apply Mbind_inv in F0 as [(c & st2 & G & F0) | (e & G & ->)].
      * destruct (create_checker_spec _ R0 G) as [R2 Hm]. injection F0 as <- <-.
        split; [exact R2|]. intros y [= <-]. simpl. auto.
      * destruct (create_checker_spec _ R0 G) as [R2 _].
        split; [exact R2 | discriminate].
  - apply (@mapM_Forall2 _ _ _ reachable (fun _ _ => True)) in F as [R1 _];
      [split; [exact R1 | discriminate] | | exact R].
    intros name st0 r0 st0' R0 F0.
    apply Mbind_inv in F0 as [(c & st2 & G & F0) | (e0 & G & ->)];
      destruct (create_checker_spec _ R0 G) as [R2 _].
    + injection F0 as <- <-. auto.
    + auto.
Qed.

End CallCheckerConstruction.




(** ** The exceptions of the validators *)

(** Induction on validators, with the hypothesis on every child. *)
Lemma checker_ind' (P : checker -> Prop) :
  (forall id_ type_, P (TypeChecker id_ type_)) ->
  (forall id_ type_ elem_checkers,
      Forall P elem_checkers -> P (TupleTypeChecker id_ type_ elem_checkers)) ->
  (forall id_ type_ c, P c -> P (ListTypeChecker id_ type_ c)) ->
  (forall id_ type_ k v, P k -> P v -> P (DictTypeChecker id_ type_ k v)) ->
  (forall id_ type_ c, P c -> P (SetTypeChecker id_ type_ c)) ->
  P EmptyTypeChecker ->
  forall self, P self.
Proof.
  intros Hp Ht Hl Hd Hs He. fix IH 1.
  intros [id_ t|id_ t cs|id_ t c|id_ t k v|id_ t c|].
  - apply Hp.
  - apply Ht. induction cs as [|c rest IHcs]; constructor; [apply IH | exact IHcs].
  - apply Hl, IH.
  - apply Hd; apply IH.
  - apply Hs, IH.
  - exact He.
Qed.

Lemma TypeCheckError_is_TypeError : exc_issubclass TypeCheckError TypeError = true.
Proof. reflexivity. Qed.

Lemma isinstance_raises obj type_ e :
  isinstance obj type_ = Raise e ->
  isinstance_accepts type_ = false /\ exc_cls e = TypeError.
Proof. destruct type_; simpl; intros [= <-]; auto. Qed.

(** [do_type_check] raises a [TypeCheckError] of its own, or lets through
    what the validator raised when that is not a [TypeCheckError]. *)
Lemma do_type_check_exception c obj message e :
  do_type_check c obj message = Raise e ->
  (exists err, e = Exc TypeCheckError message (Some err) /\ call c obj = Raise err)
  \/ (call c obj = Raise e /\ catches TypeCheckError e = false).
Proof.
  unfold do_type_check, do_type_check_. destruct (call c obj) as [r|err]; [discriminate|].
  destruct (catches TypeCheckError err) eqn:C; intros [= <-]; eauto.
Qed.

(** What a validator raises is a [TypeCheckError], unless some primitive
    validator inside it holds a description that [isinstance] refuses, with a
    [TypeError]. *)
Lemma call_exception self :
  forall obj e, call self obj = Raise e ->
    exc_cls e = TypeCheckError \/ (usable self = false /\ exc_cls e = TypeError).
Proof.
  induction self as [id_ t|id_ t cs IH|id_ t c IH|id_ t k v IHk IHv|id_ t c IH|]
    using checker_ind'; intros obj e H; simpl in H.
  - destruct (isinstance obj t) as [[|]|e0] eqn:I; simpl in H.
    + discriminate.
    + injection H as <-. now left.
    + injection H as <-. right. now apply isinstance_raises in I.
  - destruct (negb (issubclass (type_of obj) c_tuple)); [injection H as <-; now left|].
    destruct (Nat.eqb_spec (py_len obj) (List.length cs)) as [Hlen|_];
      simpl in H; [|injection H as <-; now left].
    match type of H with bind (for_enumerate ?b 0 cs) _ = _ =>
      pose proof (for_enumerate_inv b cs 0) as L;
      destruct (for_enumerate b 0 cs) as [u|e0]; [discriminate|]
    end.
    simpl in H. injection H as ->. destruct L as (i & c & Hc & L). simpl in L.
    unfold py_getitem in L. unfold py_len in Hlen.
    destruct (nth_error (py_iter obj) i) as [x|] eqn:Hx.
    + simpl in L. fold (do_type_check c x (element_message i)) in L.
      destruct (do_type_check c x (element_message i)) as [r|e1] eqn:D;
        simpl in L; [discriminate|]. injection L as ->.
      apply do_type_check_exception in D as [(err & -> & _) | [D _]]; [now left|].
      rewrite Forall_forall in IH. apply nth_error_In in Hc as HIn.
      destruct (IH c HIn _ _ D) as [T | [U T]]; [now left|]. right. split; [|exact T].
      simpl. apply not_true_is_false. intros A. rewrite forallb_forall in A.
      rewrite (A c HIn) in U. discriminate.
    + apply nth_error_None in Hx. apply nth_error_Some_lt in Hc. lia.
  - destruct (negb (issubclass (type_of obj) c_list)); [injection H as <-; now left|].
    match type of H with bind (for_enumerate ?b 0 ?l) _ = _ =>
      pose proof (for_enumerate_inv b l 0) as L;
      destruct (for_enumerate b 0 l) as [u|e0]; [discriminate|]
    end.
    simpl in H. injection H as ->. destruct L as (i & x & _ & L). simpl in L.
    fold (do_type_check c x (element_message i)) in L.
    destruct (do_type_check c x (element_message i)) as [r|e1] eqn:D;
      simpl in L; [discriminate|]. injection L as ->.
    apply do_type_check_exception in D as [(err & -> & _) | [D _]]; [now left|].
    exact (IH _ _ D).
  - destruct (negb (issubclass (type_of obj) c_dict)); [injection H as <-; now left|].
    match type of H with bind (for_enumerate ?b 0 ?l) _ = _ =>
      pose proof (for_enumerate_inv b l 0) as L;
      destruct (for_enumerate b 0 l) as [u|e0]; [discriminate|]
    end.
    simpl in H. injection H as ->. destruct L as (i & [x y] & _ & L). simpl in L.
    fold (do_type_check k x "Found a key that has incompatible type!") in L.
    destruct (do_type_check k x "Found a key that has incompatible type!")
      as [r|e1] eqn:D; simpl in L.
    + fold (do_type_check v y "Found a value that has incompatible type!") in L.
      destruct (do_type_check v y "Found a value that has incompatible type!")
        as [r'|e2] eqn:D'; simpl in L; [discriminate|]. injection L as ->.
      apply do_type_check_exception in D' as [(err & -> & _) | [D' _]]; [now left|].
      destruct (IHv _ _ D') as [T | [U T]]; [now left|]. right. split; [|exact T].
      simpl. rewrite U. apply andb_false_r.
    + injection L as ->.
      apply do_type_check_exception in D as [(err & -> & _) | [D _]]; [now left|].
      destruct (IHk _ _ D) as [T | [U T]]; [now left|]. right. split; [|exact T].
      simpl. now rewrite U.
  - destruct (negb (issubclass (type_of obj) c_set)); [injection H as <-; now left|].
    match type of H with bind (for_enumerate ?b 0 ?l) _ = _ =>
      pose proof (for_enumerate_inv b l 0) as L;
      destruct (for_enumerate b 0 l) as [u|e0]; [discriminate|]
    end.
    simpl in H. injection H as ->. destruct L as (i & x & _ & L). simpl in L.
    fold (do_type_check c x "Found an element that has incompatible type!") in L.
    destruct (do_type_check c x "Found an element that has incompatible type!")
      as [r|e1] eqn:D; simpl in L; [discriminate|]. injection L as ->.
    apply do_type_check_exception in D as [(err & -> & _) | [D _]]; [now left|].
    exact (IH _ _ D).
  - discriminate.
Qed.

(** What [do_type_check] raises is a [TypeCheckError] or a [TypeError]. *)
Lemma do_type_check_class c obj message e :
  do_type_check c obj message = Raise e ->
  exc_cls e = TypeCheckError \/ (usable c = false /\ exc_cls e = TypeError).
Proof.
  intros D. apply do_type_check_exception in D as [(err & -> & _) | [D _]]; [now left|].
  exact (call_exception _ _ D).
Qed.

Lemma catches_TypeError e :
  exc_cls e = TypeCheckError \/ exc_cls e = TypeError -> catches TypeError e = true.
Proof. unfold catches. intros [-> | ->]; reflexivity. Qed.

(** What the argument checks raise was raised by [do_type_check]. *)
Lemma check_arguments_exception W (self : FuncCallTypeChecker W) args kwargs e :
  check_arguments self args kwargs = Raise e ->
  exists c x message, do_type_check c x message = Raise e.
Proof.
  unfold check_arguments. intros H.
  pose proof (@check_positional_inv args (_arg_checkers self) 0 (Nat.le_0_l _)) as H1.
  destruct (check_positional (_arg_checkers self) args 0) as [k'|e1]; simpl in H.
  - destruct H1 as [Hk' _]. simpl in Hk'.
    assert (Hsum : k' + (List.length args - k') = List.length args) by lia.
    pose proof (@check_variadic_inv args (_varg_checker self) _ k' Hsum) as H2.
    destruct (check_variadic (_varg_checker self) args k' (List.length args - k'))
      as [u|e2]; simpl in H.
    + pose proof (check_keywords_inv self kwargs) as H3. rewrite H in H3.
      destruct H3 as (name & v & _ & D). eauto.
    + injection H as ->. destruct H2 as (j & x & _ & _ & D). eauto.
  - injection H as ->. destruct H1 as (j & name & c & x & _ & _ & D). eauto.
Qed.

(** C9.  [TypeCheckError] derives from [TypeError].  [raise_error] raises a
    [TypeCheckError], and so does [do_type_check] when it wraps one.
    Whatever a validator, [do_type_check] or the argument checks of a call
    raise is caught by [except TypeError]; it is a [TypeCheckError] whenever
    the descriptions of the validator are classes, the only other exception
    being the [TypeError] of [isinstance] on a description it refuses.  What
    [raise_exception_or_warning] raises is a [TypeCheckError] too. *)
Theorem validation_failures_are_TypeErrors :
  exc_issubclass TypeCheckError TypeError = true
  /\ exc_base TypeCheckError = Some TypeError
  /\ (forall type_ obj msg,
        exists m, @raise_error value type_ obj msg = Raise (Exc TypeCheckError m None))
  /\ (forall self obj e,
        call self obj = Raise e ->
        catches TypeError e = true
        /\ (usable self = true -> exc_cls e = TypeCheckError))
  /\ (forall c obj message e,
        do_type_check c obj message = Raise e ->
        catches TypeError e = true
        /\ (usable c = true -> exc_cls e = TypeCheckError))
  /\ (forall W (self : FuncCallTypeChecker W) args kwargs e,
        check_arguments self args kwargs = Raise e -> catches TypeError e = true)
  /\ (forall msg use_warning e,
        fst (raise_exception_or_warning msg use_warning) = Raise e ->
        e = Exc TypeCheckError msg None).
Proof.
  split; [reflexivity|]. split; [reflexivity|]. split; [|split; [|split; [|split]]];
    [| | | |intros msg [|] e; simpl; congruence].
  - intros type_ obj msg. unfold raise_error. eauto.
  - intros self obj e H. destruct (call_exception _ _ H) as [T | [U T]].
    + split; [apply catches_TypeError; auto | auto].
    + split; [apply catches_TypeError; auto | congruence].
  - intros c obj message e H. destruct (do_type_check_class _ _ _ H) as [T | [U T]].
    + split; [apply catches_TypeError; auto | auto].
    + split; [apply catches_TypeError; auto | congruence].
  - intros W self args kwargs e H.
    apply check_arguments_exception in H as (c & x & message & D).
    destruct (do_type_check_class _ _ _ D) as [T | [_ T]];
      apply catches_TypeError; auto.
Qed.

(** C9 on the validator of [int] and the value ['x']. *)
Lemma validation_failures_are_TypeErrors_witness :
  exists e,
    call (TypeChecker 1 (DClass c_int)) (VStr "x") = Raise e
    /\ catches TypeError e = true
    /\ exc_cls e = TypeCheckError.
Proof.
  eexists. split; [reflexivity|].
  destruct validation_failures_are_TypeErrors as (_ & _ & _ & Hcall & _).
  destruct (Hcall (TypeChecker 1 (DClass c_int)) (VStr "x") _ eq_refl) as [Hc Hu].
  split; [exact Hc | exact (Hu eq_refl)].
Defined.

(** ** Instances and examples *)

(** C2 on [typing.List[int]] in the initial registry. *)
Lemma get_type_checker_same_instance_witness :
  wf_desc list_of_int = true
  /\ exists c st1,
       get_type_checker list_of_int initial_registry = (Return c, st1)
       /\ get_type_checker list_of_int st1 = (Return c, st1).
Proof.
  split; [reflexivity|].
  apply (proj2 (get_type_checker_same_instance list_of_int initial_registry)).
  reflexivity.
Defined.

(** C10 on two distinct alias objects for [typing.List[int]]. *)
Lemma cache_keyed_by_equality_witness :
  desc_eqb list_of_int list_of_int' = true
  /\ list_of_int <> list_of_int'
  /\ get_type_checker list_of_int'
       (snd (get_type_checker list_of_int initial_registry))
     = (Return list_of_int_checker,
        snd (get_type_checker list_of_int initial_registry)).
Proof.
  split; [reflexivity|]. split; [discriminate|].
  apply (proj1 cache_keyed_by_equality list_of_int list_of_int' initial_registry);
    reflexivity.
Defined.

(** C3 on the validator of [typing.Tuple[int, float]]: a tuple of three
    elements is refused, [(2, 3.0)] is returned. *)
Lemma tuple_checker_arity_witness :
  call (TupleTypeChecker 1 tuple_int_float
          [TypeChecker 2 (DClass c_int); TypeChecker 3 (DClass c_float)])
       (VTuple [VStr "a"; VStr "b"; VStr "c"])
  = Raise (Exc TypeCheckError "Length of the tuple mismatch!" None)
  /\ call (TupleTypeChecker 1 tuple_int_float
             [TypeChecker 2 (DClass c_int); TypeChecker 3 (DClass c_float)])
          (VTuple [VInt 2; VFloat "3.0"])
     = Return (VTuple [VInt 2; VFloat "3.0"]).
Proof.
  split.
  - apply (proj1 (tuple_checker_arity 1 tuple_int_float
                    [TypeChecker 2 (DClass c_int); TypeChecker 3 (DClass c_float)]
                    [VStr "a"; VStr "b"; VStr "c"])).
    simpl. lia.
  - apply (proj2 (tuple_checker_arity 1 tuple_int_float
                    [TypeChecker 2 (DClass c_int); TypeChecker 3 (DClass c_float)]
                    [VInt 2; VFloat "3.0"])); [reflexivity|].
    intros [|[|[|i]]] c x; simpl; intros Hc Hx; try discriminate;
      injection Hc as <-; injection Hx as <-; eexists; reflexivity.
Defined.

Example repr_examples :
  repr (VList [VInt 1; VInt (-2); VStr "x"]) = "[1, -2, 'x']"
  /\ repr (VTuple [VFloat "3.0"]) = "(3.0,)"
  /\ repr (VStr "it's") = dquote ++ "it's" ++ dquote
  /\ repr (VDict [(VStr "a", VInt 1)]) = "{'a': 1}"
  /\ repr_class c_int = "<class 'int'>"
  /\ repr_desc false tuple_int_float = "typing.Tuple[int, float]"
  /\ str_of_nat 0 = "0" /\ str_of_nat 12 = "12".
Proof. repeat split; reflexivity. Qed.

Example isinstance_examples :
  isinstance (VBool true) (DClass c_int) = Return true
  /\ isinstance (VInt 1) (DClass c_bool) = Return false
  /\ isinstance (VInt 1) (DClass c_object) = Return true
  /\ isinstance (VInstance "m.B" ["m.A"] 16) (DClass (c_user "m.A" [])) = Return true
  /\ isinstance (VInstance "m.A" [] 16) (DClass (c_user "m.B" ["m.A"])) = Return false
  /\ isinstance (VTuple []) (DVariadic "Tuple" c_tuple) = Return true.
Proof. repeat split; reflexivity. Qed.

Example slice_examples :
  slice [1; 2; 3] (-2) 0 = []
  /\ slice [1; 2; 3] (-2) 3 = [2; 3]
  /\ slice [1; 2; 3] 1 (-1) = [2]
  /\ slice [1; 2; 3] (-5) 2 = [1; 2].
Proof. repeat split; reflexivity. Qed.

(** The call of the repository's [test.py],
    [basic(0, 1.0, 1.1, c=(2, 3.0), d0=[3, 4], d1=[5, 6])], passes every check;
    [basic(0.0, 1, c=2, d=3)] fails on [a] before the body is entered. *)
Example test_py_calls :
  exists self st cause,
    FuncCallTypeChecker_init basic true true false initial_registry = (Return self, st)
    /\ outcome (FuncCallTypeChecker_call self
                  [VInt 0; VFloat "1.0"; VFloat "1.1"]
                  [("c", VTuple [VInt 2; VFloat "3.0"]);
                   ("d0", VList [VInt 3; VInt 4]); ("d1", VList [VInt 5; VInt 6])] tt)
       = Return (VFloat "25.1")
    /\ FuncCallTypeChecker_call self [VFloat "0.0"; VInt 1]
         [("c", VInt 2); ("d", VInt 3)] tt
       = {| outcome := Raise (Exc TypeCheckError (positional_message "a") (Some cause));
            world := tt;
            invocations := 0 |}.
Proof. do 3 eexists. split; [reflexivity|]. split; reflexivity. Qed.

(** * Further properties *)

(** ** The container validators on arbitrary values *)

Lemma user_mro_classes ancestors :
  forall name d, In d (user_mro name ancestors) ->
                 d = c_object \/ exists n a, d = c_user n a.
Proof.
  induction ancestors as [|a rest IH]; intros name d [<- | H]; eauto.
  destruct H as [<- | []]. now left.
Qed.

(** Only the values of the four container kinds are instances of the
    container classes. *)
Lemma isinstance_tuple obj :
  issubclass (type_of obj) c_tuple = true <-> exists items, obj = VTuple items.
Proof.
  split.
  - destruct obj; simpl; try discriminate; eauto.
    intros H. apply issubclass_In in H. simpl in H.
    apply user_mro_classes in H as [H | (n & a & H)]; discriminate.
  - intros [items ->]. reflexivity.
Qed.

Lemma isinstance_list obj :
  issubclass (type_of obj) c_list = true <-> exists items, obj = VList items.
Proof.
  split.
  - destruct obj; simpl; try discriminate; eauto.
    intros H. apply issubclass_In in H. simpl in H.
    apply user_mro_classes in H as [H | (n & a & H)]; discriminate.
  - intros [items ->]. reflexivity.
Qed.

Lemma isinstance_dict obj :
  issubclass (type_of obj) c_dict = true <-> exists entries, obj = VDict entries.
Proof.
  split.
  - destruct obj; simpl; try discriminate; eauto.
    intros H. apply issubclass_In in H. simpl in H.
    apply user_mro_classes in H as [H | (n & a & H)]; discriminate.
  - intros [entries ->]. reflexivity.
Qed.

Lemma isinstance_set obj :
  issubclass (type_of obj) c_set = true <-> exists items, obj = VSet items.
Proof.
  split.
  - destruct obj; simpl; try discriminate; eauto.
    intros H. apply issubclass_In in H. simpl in H.
    apply user_mro_classes in H as [H | (n & a & H)]; discriminate.
  - intros [items ->]. reflexivity.
Qed.

(** A loop returns exactly when its body returns on every item. *)
Lemma for_enumerate_Return_iff A (body : nat -> A -> result unit) xs k :
  for_enumerate body k xs = Return tt
  <-> forall i x, nth_error xs i = Some x -> body (k + i) x = Return tt.
Proof.
  split.
  - intros H. pose proof (for_enumerate_inv body xs k) as L. now rewrite H in L.
  - apply for_enumerate_ok.
Qed.

Lemma check_step_iff c x message :
  (do_type_check c x message ;;; Return tt) = Return tt <-> passes c x.
Proof.
  rewrite (do_type_check_passes c x message).
  destruct (do_type_check c x message) as [r|e]; simpl; split; eauto;
    try discriminate. intros [r H]. discriminate.
Qed.

Lemma passes_accepts c x : passes c x <-> call c x = Return x.
Proof.
  split; [|intros H; now exists x].
  intros [r H]. now rewrite (call_returns_obj _ _ H) in H.
Qed.

Lemma In_nth_error_iff A (xs : list A) (P : A -> Prop) :
  (forall i x, nth_error xs i = Some x -> P x) <-> (forall x, In x xs -> P x).
Proof.
  split.
  - intros H x HIn. apply In_nth_error in HIn as [i Hi]. eauto.
  - intros H i x Hi. apply nth_error_In in Hi. auto.
Qed.

Lemma then_Return_iff (r : result unit) (obj : value) :
  (r ;;; Return obj) = Return obj <-> r = Return tt.
Proof. destruct r as [[]|e]; simpl; split; congruence. Qed.

Lemma list_accepts_iff id_ type_ c obj :
  call (ListTypeChecker id_ type_ c) obj = Return obj
  <-> exists items, obj = VList items /\ forall x, In x items -> passes c x.
Proof.
  simpl. destruct (issubclass (type_of obj) c_list) eqn:I; simpl.
  - apply isinstance_list in I as [items ->]. simpl.
    rewrite then_Return_iff, for_enumerate_Return_iff. split.
    + intros H. exists items. split; [reflexivity|].
      apply In_nth_error_iff. intros i x Hi. apply (check_step_iff c x (element_message i)).
      exact (H i x Hi).
    + intros (items' & [= <-] & H) i x Hi.
      apply check_step_iff. apply nth_error_In in Hi. auto.
  - split; [discriminate|]. intros (items & -> & _). discriminate.
Qed.

(** X1.  The list validator returns the object it is given exactly when the
    object is a list whose every element passes the child validator; an
    object that is not a list is refused with the Expect/Actual message of
    the list description itself, whatever it holds. *)
Theorem list_checker_accepts (id_ : nat) (type_ : desc) (c : checker) (obj : value) :
  (call (ListTypeChecker id_ type_ c) obj = Return obj
   <-> exists items, obj = VList items /\ forall x, In x items -> passes c x)
  /\ ((forall items, obj <> VList items) <->
      call (ListTypeChecker id_ type_ c) obj
      = Raise (Exc TypeCheckError (default_message type_ obj) None)
      /\ issubclass (type_of obj) c_list = false).
Proof.
  split; [apply list_accepts_iff|].
  simpl. destruct (issubclass (type_of obj) c_list) eqn:I; simpl.
  - apply isinstance_list in I as [items ->].
    split; [intros N; now elim (N items) | intros [_ [=]]].
  - split; [auto|]. intros _ items ->. discriminate.
Qed.

Lemma set_accepts_iff id_ type_ c obj :
  call (SetTypeChecker id_ type_ c) obj = Return obj
  <-> exists items, obj = VSet items /\ forall x, In x items -> passes c x.
Proof.
  simpl. destruct (issubclass (type_of obj) c_set) eqn:I; simpl.
  + apply isinstance_set in I as [items ->]. simpl.
    rewrite then_Return_iff, for_enumerate_Return_iff. split.
    * intros H. exists items. split; [reflexivity|].
      apply In_nth_error_iff. intros i x Hi.
      apply (check_step_iff c x "Found an element that has incompatible type!").
      exact (H i x Hi).
    * intros (items' & [= <-] & H) i x Hi.
      apply check_step_iff. apply nth_error_In in Hi. auto.
  + split; [discriminate|]. intros (items & -> & _). discriminate.
Qed.

(** X2.  The set validator returns the object it is given exactly when the
    object is a set whose every element passes the child validator.  On the
    first element that the child refuses with a [TypeCheckError] it raises a
    [TypeCheckError] whose message carries no index and whose cause is the
    child's error; an object that is not a set is refused with the
    Expect/Actual message. *)
Theorem set_checker_accepts (id_ : nat) (type_ : desc) (c : checker) (obj : value) :
  (call (SetTypeChecker id_ type_ c) obj = Return obj
   <-> exists items, obj = VSet items /\ forall x, In x items -> passes c x)
  /\ (forall pre x post err,
        obj = VSet (pre ++ x :: post) ->
        (forall y, In y pre -> passes c y) ->
        call c x = Raise err -> catches TypeCheckError err = true ->
        call (SetTypeChecker id_ type_ c) obj
        = Raise (Exc TypeCheckError "Found an element that has incompatible type!"
                     (Some err)))
  /\ ((forall items, obj <> VSet items) ->
      call (SetTypeChecker id_ type_ c) obj
      = Raise (Exc TypeCheckError (default_message type_ obj) None)).
Proof.
  split; [|split].
  - apply set_accepts_iff.
  - intros pre x post err -> Hpre Hx Hc. simpl.
    rewrite for_enumerate_first_failure
      with (e := Exc TypeCheckError "Found an element that has incompatible type!"
                     (Some err)); [reflexivity | |].
    + intros i y Hi. apply nth_error_In in Hi. apply check_step_iff. auto.
    + simpl. unfold do_type_check_. now rewrite Hx, Hc.
  - intros N. simpl. destruct (issubclass (type_of obj) c_set) eqn:I; [|reflexivity].
    apply isinstance_set in I as [items ->]. now elim (N items).
Qed.

Lemma set_checker_accepts_witness :
  call (SetTypeChecker 1 (DAlias 4 o_set [DClass c_int]) (TypeChecker 2 (DClass c_int)))
       (VSet [VInt 1; VStr "x"; VInt 3])
  = Raise (Exc TypeCheckError "Found an element that has incompatible type!"
             (Some (Exc TypeCheckError (default_message (DClass c_int) (VStr "x")) None)))
  /\ call (SetTypeChecker 1 (DAlias 4 o_set [DClass c_int]) (TypeChecker 2 (DClass c_int)))
          (VList [VInt 1])
     = Raise (Exc TypeCheckError
                (default_message (DAlias 4 o_set [DClass c_int]) (VList [VInt 1])) None).
Proof.
  split.
  - apply (proj1 (proj2 (set_checker_accepts 1 (DAlias 4 o_set [DClass c_int])
                           (TypeChecker 2 (DClass c_int))
                           (VSet [VInt 1; VStr "x"; VInt 3])))
             [VInt 1] (VStr "x") [VInt 3]); try reflexivity.
    intros y [<- | []]. exists (VInt 1). reflexivity.
  - apply (proj2 (proj2 (set_checker_accepts 1 (DAlias 4 o_set [DClass c_int])
                           (TypeChecker 2 (DClass c_int)) (VList [VInt 1])))).
    intros items. discriminate.
Defined.

Lemma dict_step_iff kc vc k v :
  (do_type_check kc k "Found a key that has incompatible type!" ;;;
   do_type_check vc v "Found a value that has incompatible type!" ;;;
   Return tt) = Return tt
  <-> passes kc k /\ passes vc v.
Proof.
  rewrite (do_type_check_passes kc k "Found a key that has incompatible type!").
  rewrite <- (check_step_iff vc v "Found a value that has incompatible type!").
  destruct (do_type_check kc k "Found a key that has incompatible type!") as [r|e];
    simpl.
  - split; [intros H; split; eauto | now intros [_ H]].
  - split; [discriminate | intros [[r H] _]; discriminate].
Qed.

Lemma dict_accepts_iff id_ type_ kc vc obj :
  call (DictTypeChecker id_ type_ kc vc) obj = Return obj
  <-> exists entries,
        obj = VDict entries
        /\ forall k v, In (k, v) entries -> passes kc k /\ passes vc v.
Proof.
  pose proof (dict_step_iff kc vc) as Step.
  simpl. destruct (issubclass (type_of obj) c_dict) eqn:I; simpl.
  + apply isinstance_dict in I as [entries ->]. simpl.
    rewrite then_Return_iff, for_enumerate_Return_iff. split.
    * intros H. exists entries. split; [reflexivity|].
      intros k v HIn. apply In_nth_error in HIn as [i Hi].
      apply Step. exact (H i (k, v) Hi).
    * intros (entries' & [= <-] & H) i [k v] Hi.
      apply Step. apply nth_error_In in Hi. auto.
  + split; [discriminate|]. intros (entries & -> & _). discriminate.
Qed.

(** X3.  The dict validator returns the object it is given exactly when the
    object is a dict whose every key passes the key validator and whose every
    value passes the value validator.  Entries are checked in order, the key
    of an entry before its value: the first refusal decides whether the error
    says "key" or "value", and its cause is the child's error.  An object that
    is not a dict is refused with the Expect/Actual message. *)
Theorem dict_checker_accepts (id_ : nat) (type_ : desc) (kc vc : checker)
  (obj : value) :
  (call (DictTypeChecker id_ type_ kc vc) obj = Return obj
   <-> exists entries,
         obj = VDict entries
         /\ forall k v, In (k, v) entries -> passes kc k /\ passes vc v)
  /\ (forall pre k v post,
        obj = VDict (pre ++ (k, v) :: post) ->
        (forall k' v', In (k', v') pre -> passes kc k' /\ passes vc v') ->
        (forall err,
            call kc k = Raise err -> catches TypeCheckError err = true ->
            call (DictTypeChecker id_ type_ kc vc) obj
            = Raise (Exc TypeCheckError "Found a key that has incompatible type!"
                         (Some err)))
        /\ (forall err,
              passes kc k ->
              call vc v = Raise err -> catches TypeCheckError err = true ->
              call (DictTypeChecker id_ type_ kc vc) obj
              = Raise (Exc TypeCheckError "Found a value that has incompatible type!"
                           (Some err))))
  /\ ((forall entries, obj <> VDict entries) ->
      call (DictTypeChecker id_ type_ kc vc) obj
      = Raise (Exc TypeCheckError (default_message type_ obj) None)).
Proof.
  pose proof (dict_step_iff kc vc) as Step.
  split; [|split].
  - apply dict_accepts_iff.
  - intros pre k v post -> Hpre. split.
    + intros err Hk Hc. simpl.
      rewrite for_enumerate_first_failure
        with (e := Exc TypeCheckError "Found a key that has incompatible type!"
                       (Some err)); [reflexivity | |].
      * intros i [k' v'] Hi. apply nth_error_In in Hi. apply Step. auto.
      * simpl. unfold do_type_check_. now rewrite Hk, Hc.
    + intros err [r Hk] Hv Hc. simpl.
      rewrite for_enumerate_first_failure
        with (e := Exc TypeCheckError "Found a value that has incompatible type!"
                       (Some err)); [reflexivity | |].
      * intros i [k' v'] Hi. apply nth_error_In in Hi. apply Step. auto.
      * simpl. unfold do_type_check_. now rewrite Hk, Hv, Hc.
  - intros N. simpl. destruct (issubclass (type_of obj) c_dict) eqn:I; [|reflexivity].
    apply isinstance_dict in I as [entries ->]. now elim (N entries).
Qed.

Lemma dict_checker_accepts_witness :
  call (DictTypeChecker 1 (DAlias 5 o_dict [DClass c_str; DClass c_int])
          (TypeChecker 2 (DClass c_str)) (TypeChecker 3 (DClass c_int)))
       (VDict [(VStr "a", VInt 1); (VStr "b", VStr "c")])
  = Raise (Exc TypeCheckError "Found a value that has incompatible type!"
             (Some (Exc TypeCheckError (default_message (DClass c_int) (VStr "c")) None)))
  /\ call (DictTypeChecker 1 (DAlias 5 o_dict [DClass c_str; DClass c_int])
             (TypeChecker 2 (DClass c_str)) (TypeChecker 3 (DClass c_int)))
          (VDict [(VInt 7, VStr "c")])
     = Raise (Exc TypeCheckError "Found a key that has incompatible type!"
                (Some (Exc TypeCheckError (default_message (DClass c_str) (VInt 7)) None))).
Proof.
  split.
  - destruct (proj1 (proj2 (dict_checker_accepts 1
                              (DAlias 5 o_dict [DClass c_str; DClass c_int])
                              (TypeChecker 2 (DClass c_str)) (TypeChecker 3 (DClass c_int))
                              (VDict [(VStr "a", VInt 1); (VStr "b", VStr "c")])))
                [(VStr "a", VInt 1)] (VStr "b") (VStr "c") [] eq_refl) as [_ Hv].
    + intros k' v' [[= <- <-] | []]. split; eexists; reflexivity.
    + apply Hv; try reflexivity. eexists. reflexivity.
  - destruct (proj1 (proj2 (dict_checker_accepts 1
                              (DAlias 5 o_dict [DClass c_str; DClass c_int])
                              (TypeChecker 2 (DClass c_str)) (TypeChecker 3 (DClass c_int))
                              (VDict [(VInt 7, VStr "c")])))
                [] (VInt 7) (VStr "c") [] eq_refl) as [Hk _].
    + intros k' v' [].
    + apply Hk; reflexivity.
Defined.

Lemma tuple_step items i c x :
  nth_error items i = Some x ->
  (item <- py_getitem (VTuple items) i ;;
   do_type_check_ call c item (element_message i) ;;; Return tt)
  = (do_type_check c x (element_message i) ;;; Return tt).
Proof. intros Hx. unfold py_getitem. simpl. now rewrite Hx. Qed.

Lemma tuple_accepts_iff id_ type_ checkers obj :
  call (TupleTypeChecker id_ type_ checkers) obj = Return obj
  <-> exists items,
        obj = VTuple items
        /\ List.length items = List.length checkers
        /\ forall i c x, nth_error checkers i = Some c -> nth_error items i = Some x ->
                         passes c x.
Proof.
  pose proof tuple_step as Step.
  simpl. destruct (issubclass (type_of obj) c_tuple) eqn:I; simpl.
  + apply isinstance_tuple in I as [items ->]. unfold py_len. simpl.
    destruct (Nat.eqb_spec (List.length items) (List.length checkers)) as [Hlen|Hlen];
      simpl.
    * rewrite then_Return_iff, for_enumerate_Return_iff. split.
      -- intros H. exists items. split; [reflexivity|]. split; [exact Hlen|].
         intros i c x Hc Hx. specialize (H i c Hc). simpl in H.
         rewrite (Step items i c x Hx) in H. now apply check_step_iff in H.
      -- intros (items' & [= <-] & _ & H) i c Hc. simpl.
         destruct (nth_error items i) as [x|] eqn:Hx.
         ++ rewrite (Step items i c x Hx). apply check_step_iff. eauto.
         ++ apply nth_error_None in Hx. apply nth_error_Some_lt in Hc. lia.
    * split; [discriminate|]. intros (items' & [= <-] & E & _). now elim Hlen.
  + split; [discriminate|]. intros (items & -> & _). discriminate.
Qed.

(** X4.  The tuple validator returns the object it is given exactly when the
    object is a tuple with as many elements as the validator has children and
    every element passes the child at its index; a list with the right
    elements is refused like any other object that is not a tuple.  Among
    tuples of the right length, the first element its child refuses with a
    [TypeCheckError] is named by its index in the message, with the child's
    error as the cause. *)
Theorem tuple_checker_accepts (id_ : nat) (type_ : desc)
  (checkers : list checker) (obj : value) :
  (call (TupleTypeChecker id_ type_ checkers) obj = Return obj
   <-> exists items,
         obj = VTuple items
         /\ List.length items = List.length checkers
         /\ forall i c x, nth_error checkers i = Some c -> nth_error items i = Some x ->
                          passes c x)
  /\ (forall items i c x err,
        obj = VTuple items ->
        List.length items = List.length checkers ->
        nth_error checkers i = Some c -> nth_error items i = Some x ->
        (forall j cj xj, j < i -> nth_error checkers j = Some cj ->
                         nth_error items j = Some xj -> passes cj xj) ->
        call c x = Raise err -> catches TypeCheckError err = true ->
        call (TupleTypeChecker id_ type_ checkers) obj
        = Raise (Exc TypeCheckError (element_message i) (Some err)))
  /\ ((forall items, obj <> VTuple items) ->
      call (TupleTypeChecker id_ type_ checkers) obj
      = Raise (Exc TypeCheckError (default_message type_ obj) None)).
Proof.
  pose proof tuple_step as Step.
  split; [|split].
  - apply tuple_accepts_iff.
  - intros items i c x err -> Hlen Hc Hx Hbefore Herr Hcatch. simpl.
    unfold py_len. simpl. rewrite Hlen, Nat.eqb_refl. simpl.
    destruct (nth_error_split checkers i Hc) as (cpre & cpost & -> & Hi).
    rewrite for_enumerate_first_failure
      with (e := Exc TypeCheckError (element_message i) (Some err)); [reflexivity | |].
    + intros j cj Hj. simpl.
      assert (Hlt : j < i) by (rewrite <- Hi; now apply nth_error_Some_lt in Hj).
      destruct (nth_error items j) as [xj|] eqn:Hxj.
      * rewrite (Step items j cj xj Hxj). apply check_step_iff.
        apply (Hbefore j cj xj Hlt); [|exact Hxj].
        rewrite nth_error_app1; [exact Hj | lia].
      * apply nth_error_None in Hxj. apply nth_error_Some_lt in Hx. lia.
    + rewrite Hi. simpl. rewrite (Step items i c x Hx).
      unfold do_type_check, do_type_check_. now rewrite Herr, Hcatch.
  - intros N. simpl. destruct (issubclass (type_of obj) c_tuple) eqn:I; [|reflexivity].
    apply isinstance_tuple in I as [items ->]. now elim (N items).
Qed.

Lemma tuple_checker_accepts_witness :
  call (TupleTypeChecker 1 tuple_int_float
          [TypeChecker 2 (DClass c_int); TypeChecker 3 (DClass c_float)])
       (VTuple [VInt 2; VInt 3])
  = Raise (Exc TypeCheckError (element_message 1)
             (Some (Exc TypeCheckError (default_message (DClass c_float) (VInt 3)) None)))
  /\ call (TupleTypeChecker 1 tuple_int_float
             [TypeChecker 2 (DClass c_int); TypeChecker 3 (DClass c_float)])
          (VList [VInt 2; VFloat "3.0"])
     = Raise (Exc TypeCheckError
                (default_message tuple_int_float (VList [VInt 2; VFloat "3.0"])) None).
Proof.
  split.
  - apply (proj1 (proj2 (tuple_checker_accepts 1 tuple_int_float
                           [TypeChecker 2 (DClass c_int); TypeChecker 3 (DClass c_float)]
                           (VTuple [VInt 2; VInt 3])))
             [VInt 2; VInt 3] 1 (TypeChecker 3 (DClass c_float)) (VInt 3));
      try reflexivity.
    intros [|j] cj xj Hj; [|lia]. simpl. intros [= <-] [= <-].
    eexists. reflexivity.
  - apply (proj2 (proj2 (tuple_checker_accepts 1 tuple_int_float
                           [TypeChecker 2 (DClass c_int); TypeChecker 3 (DClass c_float)]
                           (VList [VInt 2; VFloat "3.0"])))).
    intros items. discriminate.
Defined.

(** The list validator of [typing.List[int]] on [[1, 2, "x"]], by the
    general statement on the first refused element. *)
Lemma list_checker_first_failure_witness :
  call (ListTypeChecker 1 list_of_int (TypeChecker 2 (DClass c_int)))
       (VList ([VInt 1; VInt 2] ++ VStr "x" :: []))
  = Raise (Exc TypeCheckError (element_message 2)
             (Some (Exc TypeCheckError (default_message (DClass c_int) (VStr "x")) None))).
Proof.
  apply (@list_checker_first_failure 1 list_of_int (TypeChecker 2 (DClass c_int))
           [VInt 1; VInt 2] (VStr "x") []); try reflexivity.
  intros y [<- | [<- | []]]; eexists; reflexivity.
Defined.

(** ** The shape of the errors *)

Lemma catches_TypeCheckError e :
  catches TypeCheckError e = true <-> exc_cls e = TypeCheckError.
Proof.
  destruct e as [[] m c]; cbv; split; congruence.
Qed.

Lemma chain_shape_wrap n e message :
  chain_shape n e -> chain_shape (S n) (Exc TypeCheckError message (Some e)).
Proof.
  intros (Hall & Hlen & Hleaf). unfold chain_shape. simpl. repeat split.
  - constructor; [reflexivity | exact Hall].
  - lia.
  - exact Hleaf.
Qed.

Lemma chain_shape_le n m e : n <= m -> chain_shape n e -> chain_shape m e.
Proof. intros Hle (Hall & Hlen & Hleaf). repeat split; auto. lia. Qed.

Lemma chain_shape_raise_error type_ obj e :
  @raise_error value type_ obj None = Raise e
  \/ @raise_error value type_ obj (Some "Length of the tuple mismatch!") = Raise e ->
  chain_shape 1 e.
Proof.
  unfold raise_error, chain_shape. intros [[= <-] | [= <-]]; simpl; repeat split; eauto.
Qed.

Lemma isinstance_refusal_of obj type_ e :
  isinstance obj type_ = Raise e -> isinstance_refusal e.
Proof.
  intros H. pose proof H as H'. unfold isinstance_refusal.
  destruct type_; simpl in H; try discriminate H; injection H as <-;
    (split; [reflexivity|]; split; [reflexivity|]; eauto).
Qed.

(** [do_type_check] wraps what it caught as a [TypeCheckError], and lets
    through what it did not catch. *)
Lemma do_type_check_inv c obj message e :
  do_type_check c obj message = Raise e ->
  (exists err, e = Exc TypeCheckError message (Some err)
               /\ call c obj = Raise err /\ catches TypeCheckError err = true)
  \/ (call c obj = Raise e /\ catches TypeCheckError e = false).
Proof.
  unfold do_type_check, do_type_check_. destruct (call c obj) as [r|err]; [discriminate|].
  destruct (catches TypeCheckError err) eqn:C; intros [= <-]; eauto.
Qed.

Lemma chain_shape_class n e : chain_shape n e -> exc_cls e = TypeCheckError.
Proof.
  intros (Hall & _). destruct e as [cls m [cause|]]; simpl in Hall; now inversion Hall.
Qed.

(** What [do_type_check] raises on a child whose errors have the shape. *)
Lemma do_type_check_shape c x message e n :
  (forall obj e', call c obj = Raise e' -> chain_shape n e' \/ isinstance_refusal e') ->
  do_type_check c x message = Raise e ->
  chain_shape (S n) e \/ isinstance_refusal e.
Proof.
  intros IH D.
  apply do_type_check_inv in D as [(err & -> & H & Hc) | [H Hc]].
  - destruct (IH _ _ H) as [Hs | (Hcls & _)].
    + left. now apply chain_shape_wrap.
    + apply catches_TypeCheckError in Hc. congruence.
  - destruct (IH _ _ H) as [Hs | R]; [|now right].
    apply chain_shape_class, catches_TypeCheckError in Hs. congruence.
Qed.

Lemma depth_child_le c cs :
  In c cs -> depth c <= fold_right (fun c m => Nat.max (depth c) m) 0 cs.
Proof.
  induction cs as [|c0 rest IH]; simpl; [contradiction|].
  intros [-> | H]; [lia | specialize (IH H); lia].
Qed.

Lemma call_error_shape_aux self :
  forall obj e, call self obj = Raise e ->
    chain_shape (S (depth self)) e \/ isinstance_refusal e.
Proof.
  induction self as [id_ t|id_ t cs IH|id_ t c IH|id_ t k v IHk IHv|id_ t c IH|]
    using checker_ind'; intros obj e H; simpl in H.
  - destruct (isinstance obj t) as [[|]|e0] eqn:I; simpl in H.
    + discriminate.
    + left. apply (@chain_shape_raise_error t obj e). now left.
    + injection H as <-. right. eapply isinstance_refusal_of; eauto.
  - destruct (negb (issubclass (type_of obj) c_tuple)).
    { left. apply chain_shape_le with (n := 1); [lia|].
      apply (@chain_shape_raise_error t obj e). now left. }
    destruct (Nat.eqb_spec (py_len obj) (List.length cs)) as [Hlen|_]; simpl in H.
    2:{ left. apply chain_shape_le with (n := 1); [lia|].
        apply (@chain_shape_raise_error t obj e). now right. }
    match type of H with bind (for_enumerate ?b 0 cs) _ = _ =>
      pose proof (for_enumerate_inv b cs 0) as L;
      destruct (for_enumerate b 0 cs) as [u|e0]; [discriminate|]
    end.
    simpl in H. injection H as ->. destruct L as (i & c & Hc & L). simpl in L.
    unfold py_getitem in L. unfold py_len in Hlen.
    destruct (nth_error (py_iter obj) i) as [x|] eqn:Hx.
    + simpl in L. fold (do_type_check c x (element_message i)) in L.
      destruct (do_type_check c x (element_message i)) as [r|e1] eqn:D;
        simpl in L; [discriminate|]. injection L as ->.
      rewrite Forall_forall in IH. apply nth_error_In in Hc as HIn.
      destruct (@do_type_check_shape c x _ e (S (depth c)) (IH c HIn) D) as [Hs | R];
        [left | now right].
      apply chain_shape_le with (n := S (S (depth c))); [|exact Hs].
      simpl. pose proof (depth_child_le _ _ HIn). lia.
    + apply nth_error_None in Hx. apply nth_error_Some_lt in Hc. lia.
  - destruct (negb (issubclass (type_of obj) c_list)).
    { left. apply chain_shape_le with (n := 1); [lia|].
      apply (@chain_shape_raise_error t obj e). now left. }
    match type of H with bind (for_enumerate ?b 0 ?l) _ = _ =>
      pose proof (for_enumerate_inv b l 0) as L;
      destruct (for_enumerate b 0 l) as [u|e0]; [discriminate|]
    end.
    simpl in H. injection H as ->. destruct L as (i & x & _ & L). simpl in L.
    fold (do_type_check c x (element_message i)) in L.
    destruct (do_type_check c x (element_message i)) as [r|e1] eqn:D;
      simpl in L; [discriminate|]. injection L as ->.
    exact (@do_type_check_shape c x _ e (S (depth c)) IH D).
  - destruct (negb (issubclass (type_of obj) c_dict)).
    { left. apply chain_shape_le with (n := 1); [lia|].
      apply (@chain_shape_raise_error t obj e). now left. }
    match type of H with bind (for_enumerate ?b 0 ?l) _ = _ =>
      pose proof (for_enumerate_inv b l 0) as L;
      destruct (for_enumerate b 0 l) as [u|e0]; [discriminate|]
    end.
    simpl in H. injection H as ->. destruct L as (i & [x y] & _ & L). simpl in L.
    fold (do_type_check k x "Found a key that has incompatible type!") in L.
    destruct (do_type_check k x "Found a key that has incompatible type!")
      as [r|e1] eqn:D; simpl in L.
    + fold (do_type_check v y "Found a value that has incompatible type!") in L.
      destruct (do_type_check v y "Found a value that has incompatible type!")
        as [r'|e2] eqn:D'; simpl in L; [discriminate|]. injection L as ->.
      destruct (@do_type_check_shape v y _ e (S (depth v)) IHv D') as [Hs | R];
        [left | now right].
      apply chain_shape_le with (n := S (S (depth v))); [simpl; lia | exact Hs].
    + injection L as ->.
      destruct (@do_type_check_shape k x _ e (S (depth k)) IHk D) as [Hs | R];
        [left | now right].
      apply chain_shape_le with (n := S (S (depth k))); [simpl; lia | exact Hs].
  - destruct (negb (issubclass (type_of obj) c_set)).
    { left. apply chain_shape_le with (n := 1); [lia|].
      apply (@chain_shape_raise_error t obj e). now left. }
    match type of H with bind (for_enumerate ?b 0 ?l) _ = _ =>
      pose proof (for_enumerate_inv b l 0) as L;
      destruct (for_enumerate b 0 l) as [u|e0]; [discriminate|]
    end.
    simpl in H. injection H as ->. destruct L as (i & x & _ & L). simpl in L.
    fold (do_type_check c x "Found an element that has incompatible type!") in L.
    destruct (do_type_check c x "Found an element that has incompatible type!")
      as [r|e1] eqn:D; simpl in L; [discriminate|]. injection L as ->.
    exact (@do_type_check_shape c x _ e (S (depth c)) IH D).
  - discriminate.
Qed.

(** X5.  Whatever a validator raises is one of two things.  Either a chain
    of [TypeCheckError]s, one more than the nesting depth of the validator at
    most, whose innermost message is the Expect/Actual message of some
    description and value or the message on the length of a tuple; or the
    [TypeError] with which [isinstance] refused a description, unwrapped and
    without a cause.  The second never happens when every description inside
    the validator is one [isinstance] accepts. *)
Theorem call_error_shape (self : checker) (obj : value) (e : exception) :
  call self obj = Raise e ->
  (chain_shape (S (depth self)) e \/ isinstance_refusal e)
  /\ (usable self = true -> chain_shape (S (depth self)) e).
Proof.
  intros H. pose proof (call_error_shape_aux _ _ H) as Hs.
  split; [exact Hs|]. intros U. destruct Hs as [Hs | (Hcls & _)]; [exact Hs|].
  destruct (call_exception _ _ H) as [T | [U' _]]; congruence.
Qed.

Lemma call_error_shape_witness :
  exists e,
    call list_of_int_checker one_two_x = Raise e
    /\ chain_shape 2 e
    /\ List.length (causes e) = 2.
Proof.
  eexists. split; [reflexivity|].
  split; [|reflexivity].
  apply (call_error_shape list_of_int_checker one_two_x); reflexivity.
Defined.

(** ** The registry never forgets *)

Lemma extends_refl st : extends st st.
Proof. split; auto. Qed.

Lemma extends_trans st1 st2 st3 : extends st1 st2 -> extends st2 st3 -> extends st1 st3.
Proof. intros [H1 K1] [H2 K2]. split; [lia | auto]. Qed.

Lemma extends_fresh st : extends st (mk_registry (S (next_id st)) (cache st)).
Proof. split; simpl; auto. Qed.

Lemma mapM_extends args :
  Forall (fun a => forall st r st', get_type_checker a st = (r, st') -> extends st st') args ->
  forall st r st', mapM get_type_checker args st = (r, st') -> extends st st'.
Proof.
  induction 1 as [|a rest Ha _ IH]; simpl; intros st r st' H.
  - injection H as <- <-. apply extends_refl.
  - apply Mbind_inv in H as [(c & st1 & G & H) | (e & G & _)]; [|exact (Ha _ _ _ G)].
    apply Mbind_inv in H as [(cs & st2 & G' & H) | (e & G' & _)].
    + injection H as <- <-. exact (extends_trans (Ha _ _ _ G) (IH _ _ _ G')).
    + exact (extends_trans (Ha _ _ _ G) (IH _ _ _ G')).
Qed.

Lemma create_type_checker_extends type_ :
  match type_ with
  | DAlias _ _ args =>
      Forall (fun a => forall st r st', get_type_checker a st = (r, st') -> extends st st')
             args
  | _ => True
  end ->
  forall st r st',
    create_type_checker get_type_checker type_ st = (r, st') -> extends st st'.
Proof.
  intros IH st r st' H.
  destruct type_ as [c| | | |n c|oid o args]; simpl in H;
    try (injection H as <- <-; solve [apply extends_refl | apply extends_fresh]).
  destruct o as [| | | |name]; simpl in H;
    apply Mbind_inv in H as [(id_ & st1 & F & H) | (e & F & _)];
    try discriminate; injection F as <- <-;
    apply (extends_trans (extends_fresh st)).
  - apply Mbind_inv in H as [(cs & st2 & G & H) | (e & G & _)].
    + injection H as <- <-. exact (mapM_extends IH _ G).
    + exact (mapM_extends IH _ G).
  - destruct args as [|a0 rest]; [injection H as <- <-; apply extends_refl|].
    apply Forall_inv in IH.
    apply Mbind_inv in H as [(c0 & st2 & G & H) | (e & G & _)];
      [injection H as <- <-|]; exact (IH _ _ _ G).
  - destruct args as [|a0 rest]; [injection H as <- <-; apply extends_refl|].
    pose proof (Forall_inv IH) as IH0. apply Forall_inv_tail in IH.
    apply Mbind_inv in H as [(c0 & st2 & G & H) | (e & G & _)];
      [|exact (IH0 _ _ _ G)].
    apply (extends_trans (IH0 _ _ _ G)).
    destruct rest as [|a1 rest]; [injection H as <- <-; apply extends_refl|].
    apply Forall_inv in IH.
    apply Mbind_inv in H as [(c1 & st3 & G1 & H) | (e & G1 & _)];
      [injection H as <- <-|]; exact (IH _ _ _ G1).
  - destruct args as [|a0 rest]; [injection H as <- <-; apply extends_refl|].
    apply Forall_inv in IH.
    apply Mbind_inv in H as [(c0 & st2 & G & H) | (e & G & _)];
      [injection H as <- <-|]; exact (IH _ _ _ G).
  - injection H as <- <-. apply extends_refl.
Qed.

(** A lookup keeps every validator the cache holds, under its description. *)
Lemma get_type_checker_extends type_ :
  forall st r st', get_type_checker type_ st = (r, st') -> extends st st'.
Proof.
  assert (Step : forall t,
             match t with
             | DAlias _ _ args =>
                 Forall (fun a => forall st r st',
                             get_type_checker a st = (r, st') -> extends st st') args
             | _ => True
             end ->
             forall st r st', get_type_checker t st = (r, st') -> extends st st').
  { intros t IH st r st' H.
    destruct (cache_get t (cache st)) as [c0|] eqn:E.
    - rewrite (@get_type_checker_hit t st c0 E) in H. injection H as <- <-.
      apply extends_refl.
    - rewrite (@get_type_checker_miss t st E) in H.
      destruct (create_type_checker get_type_checker t st) as [[c|e] st1] eqn:C;
        pose proof (@create_type_checker_extends t IH st _ st1 C) as [Hid Hc];
        injection H as <- <-; [|split; assumption].
      split; [exact Hid|]. simpl. intros k c' Hk.
      rewrite cache_get_set_other; [now apply Hc|].
      destruct (desc_eqb t k) eqn:Etk; [|reflexivity].
      rewrite (@cache_get_equal_keys t k (cache st) Etk) in E. congruence. }
  induction type_ using desc_ind'; apply Step; auto.
Qed.

Lemma lookups_extends st st' : lookups st st' -> extends st st'.
Proof.
  induction 1 as [st | st t r st1 st' G _ IH]; [apply extends_refl|].
  exact (extends_trans (get_type_checker_extends _ _ G) IH).
Qed.

(** X6.  The cache is never evicted nor overwritten: the validator a lookup
    returned for a description is the one every later lookup of an equal
    description returns, whatever was looked up in between, and whether those
    lookups returned or raised. *)
Theorem get_type_checker_stable (d1 d2 : desc) (st st1 st2 : registry) (c : checker) :
  get_type_checker d1 st = (Return c, st1) ->
  lookups st1 st2 ->
  desc_eqb d1 d2 = true ->
  get_type_checker d2 st2 = (Return c, st2).
Proof.
  intros H L E. apply get_type_checker_hit.
  rewrite <- (@cache_get_equal_keys d1 d2 (cache st2) E).
  apply (lookups_extends L). exact (@get_type_checker_cached d1 st c st1 H).
Qed.

Lemma get_type_checker_stable_witness :
  exists st1 st2,
    get_type_checker list_of_int initial_registry = (Return list_of_int_checker, st1)
    /\ lookups st1 st2
    /\ cache st1 <> cache st2
    /\ get_type_checker list_of_int' st2 = (Return list_of_int_checker, st2).
Proof.
  exists (snd (get_type_checker list_of_int initial_registry)).
  exists (snd (get_type_checker tuple_int_float
                 (snd (get_type_checker list_of_int initial_registry)))).
  assert (L : lookups (snd (get_type_checker list_of_int initial_registry))
                (snd (get_type_checker tuple_int_float
                        (snd (get_type_checker list_of_int initial_registry))))).
  { eapply lookups_more with (type_ := tuple_int_float);
      [apply surjective_pairing | apply lookups_none]. }
  split; [reflexivity|]. split; [exact L|]. split; [discriminate|].
  apply (@get_type_checker_stable list_of_int list_of_int' initial_registry _ _
           list_of_int_checker eq_refl L eq_refl).
Defined.

(** ** What the validators of the registry decide *)

Lemma forallb_pointwise A (f g : A -> bool) l :
  (forall x, f x = g x) -> forallb f l = forallb g l.
Proof. intros H. induction l as [|x rest IH]; simpl; [reflexivity | now rewrite H, IH]. Qed.

Lemma conforms_erase d : forall v, conforms (erase d) v = conforms d v.
Proof.
  induction d as [c| | | |n c|oid o args IH] using desc_ind'; intros v;
    try reflexivity.
  simpl. destruct o as [| | | |name]; try reflexivity.
  - destruct v; try reflexivity. revert items.
    induction IH as [|a rest Ha _ IHrest]; intros [|x items]; simpl; try reflexivity.
    now rewrite Ha, IHrest.
  - destruct v; try reflexivity. destruct IH as [|a rest Ha _]; [reflexivity|].
    simpl. apply forallb_pointwise. exact Ha.
  - destruct v; try reflexivity. destruct IH as [|k rest Hk IH]; [reflexivity|].
    destruct IH as [|a rest Ha _]; [reflexivity|].
    simpl. apply forallb_pointwise. intros kv. now rewrite Hk, Ha.
  - destruct v; try reflexivity. destruct IH as [|a rest Ha _]; [reflexivity|].
    simpl. apply forallb_pointwise. exact Ha.
Qed.

Lemma supported_erase d : supported (erase d) = supported d.
Proof.
  induction d as [c| | | |n c|oid o args IH] using desc_ind'; try reflexivity.
  simpl. f_equal. induction IH as [|a rest Ha _ IHrest]; simpl; [reflexivity|].
  now rewrite Ha, IHrest.
Qed.

(** Equal descriptions have the same conforming values. *)
Lemma conforms_equal d e v : desc_eqb d e = true -> conforms d v = conforms e v.
Proof.
  intros E. apply desc_eqb_erase in E.
  now rewrite <- (conforms_erase d), <- (conforms_erase e), E.
Qed.

Lemma supported_equal d e : desc_eqb d e = true -> supported d = supported e.
Proof.
  intros E. apply desc_eqb_erase in E.
  now rewrite <- (supported_erase d), <- (supported_erase e), E.
Qed.

Lemma decides_equal k k' c : desc_eqb k' k = true -> decides k c -> decides k' c.
Proof.
  intros E [Hc Hu]. split.
  - intros v. rewrite (@conforms_equal k' k v E). apply Hc.
  - rewrite (@supported_equal k' k E). exact Hu.
Qed.

Lemma decides_passes type_ c v : decides type_ c -> passes c v <-> conforms type_ v = true.
Proof. intros [Hc _]. rewrite passes_accepts. apply Hc. Qed.

Lemma decides_primitive id_ type_ :
  match type_ with
  | DClass _ | DVariadic _ _ | DAlias _ (o_other _) _ => True
  | _ => False
  end ->
  decides type_ (TypeChecker id_ type_).
Proof.
  destruct type_ as [c| | | |n c|oid [| | | |name] args]; try contradiction; intros _;
    (split; [intros v; simpl | simpl; auto]).
  - destruct (issubclass (type_of v) c); simpl; split; congruence || discriminate.
  - destruct (issubclass (type_of v) c); simpl; split; congruence || discriminate.
  - split; discriminate.
Qed.

Lemma decides_empty type_ :
  match type_ with DAny | DNoReturn | DNone => True | _ => False end ->
  decides type_ EmptyTypeChecker.
Proof.
  destruct type_; try contradiction; intros _; split; try reflexivity;
    intros v; simpl; split; reflexivity.
Qed.

Lemma decides_list id_ oid type_ a rest c :
  decides a c -> decides (DAlias oid o_list (a :: rest)) (ListTypeChecker id_ type_ c).
Proof.
  intros D. split.
  - intros v. rewrite list_accepts_iff. simpl. split.
    + intros (items & -> & H). apply forallb_forall. intros x Hx.
      apply (decides_passes x D). auto.
    + destruct v; try discriminate. intros H. exists items. split; [reflexivity|].
      intros x Hx. apply (decides_passes x D).
      rewrite forallb_forall in H. auto.
  - simpl. intros H. apply andb_true_iff in H as [H _]. now apply D.
Qed.

Lemma decides_set id_ oid type_ a rest c :
  decides a c -> decides (DAlias oid o_set (a :: rest)) (SetTypeChecker id_ type_ c).
Proof.
  intros D. split.
  - intros v. rewrite set_accepts_iff. simpl. split.
    + intros (items & -> & H). apply forallb_forall. intros x Hx.
      apply (decides_passes x D). auto.
    + destruct v; try discriminate. intros H. exists items. split; [reflexivity|].
      intros x Hx. apply (decides_passes x D).
      rewrite forallb_forall in H. auto.
  - simpl. intros H. apply andb_true_iff in H as [H _]. now apply D.
Qed.

Lemma decides_dict id_ oid type_ k a rest kc vc :
  decides k kc -> decides a vc ->
  decides (DAlias oid o_dict (k :: a :: rest)) (DictTypeChecker id_ type_ kc vc).
Proof.
  intros Dk Da. split.
  - intros v. rewrite dict_accepts_iff. simpl. split.
    + intros (entries & -> & H). apply forallb_forall. intros [x y] Hx. simpl.
      destruct (H x y Hx) as [Hk Hv].
      apply (decides_passes x Dk) in Hk. apply (decides_passes y Da) in Hv.
      now rewrite Hk, Hv.
    + destruct v; try discriminate. intros H. exists entries. split; [reflexivity|].
      intros x y Hx. rewrite forallb_forall in H. specialize (H (x, y) Hx).
      simpl in H. apply andb_true_iff in H as [Hk Hv].
      split; [apply (decides_passes x Dk) | apply (decides_passes y Da)]; assumption.
  - simpl. intros H. apply andb_true_iff in H as [Hk H].
    apply andb_true_iff in H as [Ha _].
    apply andb_true_iff. split; [now apply Dk | now apply Da].
Qed.

Lemma decides_tuple_items args cs :
  Forall2 decides args cs ->
  forall items,
    (List.length items = List.length cs
     /\ forall i c x, nth_error cs i = Some c -> nth_error items i = Some x -> passes c x)
    <-> all2b conforms args items = true.
Proof.
  induction 1 as [|a c args cs D _ IH]; intros [|x items]; simpl.
  - split; [reflexivity|]. intros _. split; [reflexivity|]. intros [|i]; discriminate.
  - split; [intros [[=] _] | discriminate].
  - split; [intros [[=] _] | discriminate].
  - rewrite andb_true_iff, <- IH, <- (decides_passes x D). split.
    + intros [Hlen H]. split; [exact (H 0 c x eq_refl eq_refl)|].
      split; [lia|]. intros i c' y Hc Hy. exact (H (S i) c' y Hc Hy).
    + intros [H0 [Hlen H]]. split; [lia|].
      intros [|i] c' y; simpl; [intros [= <-] [= <-]; exact H0 | apply H].
Qed.

Lemma decides_tuple id_ oid type_ args cs :
  Forall2 decides args cs ->
  decides (DAlias oid o_tuple args) (TupleTypeChecker id_ type_ cs).
Proof.
  intros F. split.
  - intros v. rewrite tuple_accepts_iff. simpl. split.
    + intros (items & -> & H). now apply (decides_tuple_items F).
    + destruct v; try discriminate. intros H. exists items. split; [reflexivity|].
      now apply (decides_tuple_items F).
  - simpl. intros H. induction F as [|a c args cs [_ D] _ IH]; [reflexivity|].
    simpl in H |- *. apply andb_true_iff in H as [Ha H].
    rewrite (D Ha). simpl. now apply IH.
Qed.

Lemma cache_decides_fresh st :
  cache_decides st -> cache_decides (mk_registry (S (next_id st)) (cache st)).
Proof. exact (fun H => H). Qed.

Lemma cache_decides_set k c st :
  cache_decides st -> decides k c ->
  cache_decides (mk_registry (next_id st) (cache_set k c (cache st))).
Proof.
  intros H D k' c' HIn. simpl in HIn.
  apply In_cache_set in HIn as [HIn | (-> & E & _)]; [now apply H|].
  exact (@decides_equal k k' c E D).
Qed.

Lemma mapM_decides args :
  Forall lookup_decides args ->
  forall st r st',
    cache_decides st -> mapM get_type_checker args st = (r, st') ->
    cache_decides st' /\ forall cs, r = Return cs -> Forall2 decides args cs.
Proof.
  induction 1 as [|a rest Ha _ IH]; simpl; intros st r st' HP H.
  - injection H as <- <-. split; [exact HP|]. intros cs [= <-]. constructor.
  - apply Mbind_inv in H as [(c & st1 & G & H) | (e & G & ->)].
    + destruct (Ha _ _ _ HP G) as [HP1 D]. specialize (D c eq_refl).
      apply Mbind_inv in H as [(cs & st2 & G' & H) | (e & G' & ->)].
      * destruct (IH _ _ _ HP1 G') as [HP2 Ds]. injection H as <- <-.
        split; [exact HP2|]. intros cs' [= <-]. constructor; auto.
      * destruct (IH _ _ _ HP1 G') as [HP2 _]. split; [exact HP2 | discriminate].
    + destruct (Ha _ _ _ HP G) as [HP1 _]. split; [exact HP1 | discriminate].
Qed.

Lemma create_type_checker_decides type_ :
  match type_ with
  | DAlias _ _ args => Forall lookup_decides args
  | _ => True
  end ->
  forall st r st',
    cache_decides st ->
    create_type_checker get_type_checker type_ st = (r, st') ->
    cache_decides st' /\ forall c, r = Return c -> decides type_ c.
Proof.
  intros IH st r st' HP H.
  destruct type_ as [c| | | |n c|oid o args]; simpl in H;
    try (injection H as <- <-; split; [exact HP|]; intros c' [= <-];
         solve [now apply decides_primitive | now apply decides_empty]).
  destruct o as [| | | |name]; simpl in H;
    apply Mbind_inv in H as [(id_ & st1 & F & H) | (e & F & _)];
    try discriminate; injection F as <- <-; apply cache_decides_fresh in HP.
  - apply Mbind_inv in H as [(cs & st2 & G & H) | (e & G & ->)].
    + destruct (@mapM_decides args IH _ _ _ HP G) as [HP2 Ds]. injection H as <- <-.
      split; [exact HP2|]. intros c' [= <-]. apply decides_tuple. now apply Ds.
    + destruct (@mapM_decides args IH _ _ _ HP G) as [HP2 _]. split; [exact HP2 | discriminate].
  - destruct args as [|a0 rest]; [injection H as <- <-; split; [exact HP | discriminate]|].
    apply Forall_inv in IH.
    apply Mbind_inv in H as [(c0 & st2 & G & H) | (e & G & ->)];
      destruct (IH _ _ _ HP G) as [HP2 D]; [|split; [exact HP2 | discriminate]].
    injection H as <- <-. split; [exact HP2|]. intros c' [= <-].
    apply decides_list. now apply D.
  - destruct args as [|a0 rest]; [injection H as <- <-; split; [exact HP | discriminate]|].
    pose proof (Forall_inv IH) as IH0. apply Forall_inv_tail in IH.
    apply Mbind_inv in H as [(c0 & st2 & G & H) | (e & G & ->)];
      destruct (IH0 _ _ _ HP G) as [HP2 D0]; [|split; [exact HP2 | discriminate]].
    destruct rest as [|a1 rest];
      [injection H as <- <-; split; [exact HP2 | discriminate]|].
    apply Forall_inv in IH.
    apply Mbind_inv in H as [(c1 & st3 & G1 & H) | (e & G1 & ->)];
      destruct (IH _ _ _ HP2 G1) as [HP3 D1]; [|split; [exact HP3 | discriminate]].
    injection H as <- <-. split; [exact HP3|]. intros c' [= <-].
    apply decides_dict; [now apply D0 | now apply D1].
  - destruct args as [|a0 rest]; [injection H as <- <-; split; [exact HP | discriminate]|].
    apply Forall_inv in IH.
    apply Mbind_inv in H as [(c0 & st2 & G & H) | (e & G & ->)];
      destruct (IH _ _ _ HP G) as [HP2 D]; [|split; [exact HP2 | discriminate]].
    injection H as <- <-. split; [exact HP2|]. intros c' [= <-].
    apply decides_set. now apply D.
  - injection H as <- <-. split; [exact HP|]. intros c' [= <-].
    now apply decides_primitive.
Qed.

Lemma get_type_checker_decides type_ : lookup_decides type_.
Proof.
  assert (Step : forall t,
             match t with DAlias _ _ args => Forall lookup_decides args | _ => True end ->
             lookup_decides t).
  { intros t IH st r st' HP H.
    destruct (cache_get t (cache st)) as [c0|] eqn:E.
    - rewrite (@get_type_checker_hit t st c0 E) in H. injection H as <- <-.
      split; [exact HP|]. intros c [= <-].
      apply cache_get_Some in E as (k' & HIn & E). rewrite desc_eqb_sym in E.
      exact (@decides_equal k' t c0 E (HP _ _ HIn)).
    - rewrite (@get_type_checker_miss t st E) in H.
      destruct (create_type_checker get_type_checker t st) as [[c|e] st1] eqn:C;
        destruct (@create_type_checker_decides t IH st _ st1 HP C) as [HP1 D];
        injection H as <- <-; [|split; [exact HP1 | discriminate]].
      specialize (D c eq_refl). split; [now apply cache_decides_set|].
      now intros c' [= <-]. }
  induction type_ using desc_ind'; apply Step; auto.
Qed.

Lemma reachable_cache_decides st : reachable st -> cache_decides st.
Proof.
  induction 1 as [|st type_ r st' _ IH G]; [intros k c []|].
  exact (proj1 (@get_type_checker_decides type_ st r st' IH G)).
Qed.

(** X7.  In every state the program can reach, the validator the registry
    returns for a description accepts a value, returning it, exactly when the
    value conforms to the description; and when the description is built from
    classes and the four known containers only, it refuses every other value
    with a chain of [TypeCheckError]s. *)
Theorem registry_validator_decides_conformance
  (type_ : desc) (st st' : registry) (c : checker) (v : value) :
  reachable st ->
  get_type_checker type_ st = (Return c, st') ->
  (call c v = Return v <-> conforms type_ v = true)
  /\ (supported type_ = true -> conforms type_ v = false ->
      exists e, call c v = Raise e /\ chain_shape (S (depth c)) e).
Proof.
  intros R H.
  destruct (proj2 (@get_type_checker_decides type_ st _ st'
                      (reachable_cache_decides R) H) c eq_refl)
    as [Hc Hu].
  split; [apply Hc|]. intros Hs Hn. specialize (Hu Hs).
  destruct (call c v) as [r|e] eqn:E.
  - rewrite (call_returns_obj _ _ E) in E. apply Hc in E. congruence.
  - exists e. split; [reflexivity|].
    destruct (call_error_shape_aux _ _ E) as [Hshape | (Hcls & _)]; [exact Hshape|].
    destruct (call_exception _ _ E) as [T | [U _]]; congruence.
Qed.

Lemma registry_validator_decides_conformance_witness :
  let c := TupleTypeChecker 1 tuple_int_float
             [TypeChecker 2 (DClass c_int); TypeChecker 3 (DClass c_float)] in
  fst (get_type_checker tuple_int_float initial_registry) = Return c
  /\ call c (VTuple [VInt 2; VFloat "3.0"]) = Return (VTuple [VInt 2; VFloat "3.0"])
  /\ exists e, call c (VTuple [VFloat "2.0"; VInt 3]) = Raise e
               /\ chain_shape (S (depth c)) e.
Proof.
  intros c.
  assert (R : reachable initial_registry) by constructor.
  assert (H : get_type_checker tuple_int_float initial_registry
              = (Return c, snd (get_type_checker tuple_int_float initial_registry)))
    by reflexivity.
  split; [reflexivity|]. split.
  - apply (proj1 (@registry_validator_decides_conformance tuple_int_float _ _ c
                    (VTuple [VInt 2; VFloat "3.0"]) R H)).
    reflexivity.
  - apply (proj2 (@registry_validator_decides_conformance tuple_int_float _ _ c
                    (VTuple [VFloat "2.0"; VInt 3]) R H)); reflexivity.
Defined.

(** X8.  In every state the program can reach, [typing.Any],
    [typing.NoReturn] and [None] are all answered by the one accept-all
    singleton, and the lookup constructs no validator: no identity is
    handed out. *)
Theorem special_forms_get_the_singleton (type_ : desc) (st : registry) :
  reachable st ->
  type_ = DAny \/ type_ = DNoReturn \/ type_ = DNone ->
  exists st',
    get_type_checker type_ st = (Return EmptyTypeChecker, st')
    /\ next_id st' = next_id st
    /\ forall k c, cache_get k (cache st) = Some c -> cache_get k (cache st') = Some c.
Proof.
  intros R Hspecial.
  destruct (cache_get type_ (cache st)) as [c0|] eqn:E.
  - exists st. rewrite (@get_type_checker_hit type_ st c0 E).
    apply cache_get_Some in E as (k' & HIn & E).
    apply (reachable_entries_made_for R) in HIn.
    assert (k' = type_) as ->.
    { destruct Hspecial as [-> | [-> | ->]]; destruct k'; simpl in E;
        congruence || discriminate. }
    assert (c0 = EmptyTypeChecker) as ->.
    { destruct Hspecial as [-> | [-> | ->]]; exact HIn. }
    auto.
  - rewrite (@get_type_checker_miss type_ st E).
    assert (C : create_type_checker get_type_checker type_ st
                = (Return EmptyTypeChecker, st)).
    { destruct Hspecial as [-> | [-> | ->]]; reflexivity. }
    rewrite C. eexists. split; [reflexivity|]. split; [reflexivity|]. simpl.
    intros k c Hk. rewrite cache_get_set_other; [exact Hk|].
    destruct (desc_eqb type_ k) eqn:Etk; [|reflexivity].
    rewrite (@cache_get_equal_keys type_ k (cache st) Etk) in E. congruence.
Qed.

Lemma special_forms_get_the_singleton_witness :
  exists st',
    get_type_checker DNoReturn (snd (get_type_checker list_of_int initial_registry))
    = (Return EmptyTypeChecker, st')
    /\ next_id st' = 3.
Proof.
  assert (R : reachable (snd (get_type_checker list_of_int initial_registry))).
  { eapply reachable_lookup with (type_ := list_of_int);
      [constructor | apply surjective_pairing]. }
  destruct (@special_forms_get_the_singleton DNoReturn _ R (or_intror (or_introl eq_refl)))
    as (st' & H & Hid & _).
  exists st'. split; [exact H | exact Hid].
Defined.

(** ** The argument checks of a call *)

(** X9.  The argument checks of a call return exactly when every argument
    given passes the validator chosen for it: for the positional argument at
    index [i] the validator of the [i]-th positional parameter, or the one of
    the variadic positional parameter when there are fewer parameters; for a
    keyword argument the validator resolved from its name.  Nothing is
    required of parameters that receive no argument. *)
Theorem check_arguments_returns_iff (W : Type) (self : FuncCallTypeChecker W)
  (args : list value) (kwargs : sdict value) :
  (check_arguments self args kwargs = Return tt <-> arguments_pass self args kwargs)
  /\ ((exists e, check_arguments self args kwargs = Raise e)
      <-> ~ arguments_pass self args kwargs).
Proof.
  pose proof (check_arguments_spec args self kwargs) as H.
  destruct (check_arguments self args kwargs) as [[]|e]; split; split;
    try (intros; assumption); try discriminate; eauto.
  - intros [e He]. discriminate.
  - intros N. now elim N.
  - intros Hp. now elim H.
Qed.

Section FirstRefusal.

Variable W : Type.
Variable args : list value.

Lemma check_positional_all_pass (checkers : sdict checker) k :
  k <= List.length args ->
  (forall j name c y, nth_error checkers j = Some (name, c) ->
                      nth_error args (k + j) = Some y -> passes c y) ->
  check_positional checkers args k
  = Return (Nat.min (k + List.length checkers) (List.length args)).
Proof.
  intros Hk Hpass. pose proof (@check_positional_inv args checkers k Hk) as H.
  destruct (check_positional checkers args k) as [k'|e].
  - now destruct H as [-> _].
  - destruct H as (j & name & c & y & Hc & Hy & D).
    elim (@do_type_check_raises _ _ _ _ D). eauto.
Qed.

Lemma check_positional_first_refusal (cpre : sdict checker) name c
  (cpost : sdict checker) x e :
  forall k,
    (forall j name' c' y, nth_error cpre j = Some (name', c') ->
                          nth_error args (k + j) = Some y -> passes c' y) ->
    nth_error args (k + List.length cpre) = Some x ->
    do_type_check c x (positional_message name) = Raise e ->
    check_positional (cpre ++ (name, c) :: cpost)%list args k = Raise e.
Proof.
  induction cpre as [|[n0 c0] cpre IH]; intros k Hpre Hx D; simpl in *.
  - rewrite Nat.add_0_r in Hx. apply nth_error_Some_lt in Hx as Hlt.
    destruct (Nat.eqb_spec k (List.length args)) as [->|_]; [lia|].
    rewrite (args_getitem_Some _ _ Hx). simpl. now rewrite D.
  - apply nth_error_Some_lt in Hx as Hlt.
    destruct (Nat.eqb_spec k (List.length args)) as [->|_]; [lia|].
    destruct (nth_error args k) as [y|] eqn:Hy;
      [|apply nth_error_None in Hy; lia].
    rewrite (args_getitem_Some _ _ Hy). simpl.
    assert (P0 : passes c0 y).
    { apply (Hpre 0 n0 c0 y eq_refl). now rewrite Nat.add_0_r. }
    apply (do_type_check_passes c0 y (positional_message n0)) in P0 as [r ->]. simpl.
    apply IH.
    + intros j name' c' z Hj Hz. apply (Hpre (S j) name' c' z Hj).
      now rewrite Nat.add_succ_r.
    + now rewrite Nat.add_succ_r in Hx.
    + exact D.
Qed.

Lemma check_variadic_all_pass c k todo :
  k + todo = List.length args ->
  (forall j y, k <= j -> nth_error args j = Some y -> passes c y) ->
  check_variadic c args k todo = Return tt.
Proof.
  intros Hk Hpass. pose proof (@check_variadic_inv args c todo k Hk) as H.
  destruct (check_variadic c args k todo) as [[]|e]; [reflexivity|].
  destruct H as (j & y & Hj & Hy & D).
  elim (@do_type_check_raises _ _ _ _ D). eauto.
Qed.

Lemma check_variadic_first_refusal c n x e :
  forall todo k,
    k <= n -> n < k + todo ->
    (forall j y, k <= j -> j < n -> nth_error args j = Some y -> passes c y) ->
    nth_error args n = Some x ->
    do_type_check c x (variadic_message n) = Raise e ->
    check_variadic c args k todo = Raise e.
Proof.
  induction todo as [|todo IH]; intros k Hk Hn Hpre Hx D; [lia|]. simpl.
  destruct (Nat.eq_dec k n) as [->|Hne].
  - rewrite (args_getitem_Some _ _ Hx). simpl. now rewrite D.
  - apply nth_error_Some_lt in Hx as Hlt.
    destruct (nth_error args k) as [y|] eqn:Hy;
      [|apply nth_error_None in Hy; lia].
    rewrite (args_getitem_Some _ _ Hy). simpl.
    assert (P0 : passes c y) by (apply (Hpre k y); [lia | lia | exact Hy]).
    apply (do_type_check_passes c y (variadic_message k)) in P0 as [r ->]. simpl.
    apply IH; try lia; [|exact Hx | exact D].
    intros j z Hj Hjn Hz. apply (Hpre j z); [lia | exact Hjn | exact Hz].
Qed.

End FirstRefusal.

Lemma nth_error_app_left A (pre : list A) x post i y :
  nth_error pre i = Some y -> nth_error (pre ++ x :: post)%list i = Some y.
Proof.
  intros H. rewrite nth_error_app1; [exact H | now apply nth_error_Some_lt in H].
Qed.

Lemma nth_error_app_middle A (pre : list A) x post :
  nth_error (pre ++ x :: post)%list (List.length pre) = Some x.
Proof. rewrite nth_error_app2, Nat.sub_diag; [reflexivity | lia]. Qed.

(** X10.  The first argument that its validator refuses decides the error of
    the call, positional arguments before keyword arguments.  A refused
    positional argument is reported under the name of its parameter, or under
    its index when it falls to the variadic positional parameter, whatever the
    keyword arguments are; a refused keyword argument is reported under its
    name, when every positional argument and every earlier keyword argument
    passes.  The cause is the validator's error. *)
Theorem first_refused_argument (W : Type) (self : FuncCallTypeChecker W)
  (args : list value) (kwargs : sdict value) :
  (forall pre x post err,
      args = (pre ++ x :: post)%list ->
      (forall i y, nth_error pre i = Some y -> passes (positional_checker self i) y) ->
      call (positional_checker self (List.length pre)) x = Raise err ->
      catches TypeCheckError err = true ->
      check_arguments self args kwargs
      = Raise (Exc TypeCheckError
                 match nth_error (_arg_checkers self) (List.length pre) with
                 | Some (name, _) => positional_message name
                 | None => variadic_message (List.length pre)
                 end (Some err)))
  /\ (forall kpre name v kpost err,
        kwargs = (kpre ++ (name, v) :: kpost)%list ->
        (forall i y, nth_error args i = Some y -> passes (positional_checker self i) y) ->
        (forall n' v', In (n', v') kpre -> passes (keyword_checker self n') v') ->
        call (keyword_checker self name) v = Raise err ->
        catches TypeCheckError err = true ->
        check_arguments self args kwargs
        = Raise (Exc TypeCheckError (keyword_message name) (Some err))).
Proof.
  split.
  - intros pre x post err -> Hpre Hx Hc. unfold check_arguments.
    unfold positional_checker in Hx.
    destruct (nth_error (_arg_checkers self) (List.length pre))
      as [[name c]|] eqn:E.
    + destruct (nth_error_split _ _ E) as (cpre & cpost & Hsplit & Hlen).
      rewrite Hsplit.
      rewrite check_positional_first_refusal
        with (x := x) (e := Exc TypeCheckError (positional_message name) (Some err));
        [reflexivity | | |].
      * intros j name' c' y Hj Hy. simpl in Hy.
        assert (Hlt : j < List.length pre)
          by (rewrite <- Hlen; now apply nth_error_Some_lt in Hj).
        rewrite nth_error_app1 in Hy by exact Hlt.
        specialize (Hpre j y Hy). unfold positional_checker in Hpre.
        rewrite Hsplit, (@nth_error_app_left _ cpre (name, c) cpost j _ Hj) in Hpre.
        exact Hpre.
      * simpl. rewrite Hlen. apply nth_error_app_middle.
      * now apply do_type_check_wraps.
    + apply nth_error_None in E.
      rewrite check_positional_all_pass.
      * simpl. rewrite Nat.min_l by (rewrite length_app; simpl; lia).
        rewrite check_variadic_first_refusal
          with (n := List.length pre) (x := x)
               (e := Exc TypeCheckError (variadic_message (List.length pre)) (Some err));
          [reflexivity | lia | rewrite length_app; simpl; lia | | |].
        -- intros j y Hj Hjn Hy. rewrite nth_error_app1 in Hy by exact Hjn.
           specialize (Hpre j y Hy). unfold positional_checker in Hpre.
           assert (Hnone : nth_error (_arg_checkers self) j = None)
             by (apply nth_error_None; lia).
           now rewrite Hnone in Hpre.
        -- apply nth_error_app_middle.
        -- now apply do_type_check_wraps.
      * lia.
      * intros j name c y Hj Hy. simpl in Hy.
        assert (Hlt : j < List.length pre) by (apply nth_error_Some_lt in Hj; lia).
        rewrite nth_error_app1 in Hy by exact Hlt.
        specialize (Hpre j y Hy). unfold positional_checker in Hpre.
        now rewrite Hj in Hpre.
  - intros kpre name v kpost err -> Hpos Hkpre Hv Hc. unfold check_arguments.
    rewrite check_positional_all_pass.
    + simpl.
      rewrite check_variadic_all_pass.
      * simpl. unfold check_keywords.
        rewrite for_enumerate_first_failure
          with (e := Exc TypeCheckError (keyword_message name) (Some err));
          [reflexivity | |].
        -- intros i [n' v'] Hi. simpl. apply check_step_iff.
           apply nth_error_In in Hi. eauto.
        -- simpl. now rewrite (do_type_check_wraps _ _ (keyword_message name) Hv Hc).
      * lia.
      * intros j y Hj Hy. apply nth_error_Some_lt in Hy as Hlt.
        specialize (Hpos j y Hy). unfold positional_checker in Hpos.
        assert (Hnone : nth_error (_arg_checkers self) j = None)
          by (apply nth_error_None; lia).
        now rewrite Hnone in Hpos.
    + lia.
    + intros j n' c y Hj Hy. simpl in Hy. specialize (Hpos j y Hy).
      unfold positional_checker in Hpos. now rewrite Hj in Hpos.
Qed.

Lemma first_refused_argument_witness :
  check_arguments h_checker [VInt 1; VStr "extra"; VInt 3] [("a", VStr "x")]
  = Raise (Exc TypeCheckError (keyword_message "a")
             (Some (Exc TypeCheckError (default_message (DClass c_int) (VStr "x")) None)))
  /\ check_arguments h_checker [VStr "s"] [("a", VStr "x")]
     = Raise (Exc TypeCheckError (positional_message "a")
                (Some (Exc TypeCheckError (default_message (DClass c_int) (VStr "s")) None))).
Proof.
  split.
  - apply (proj2 (@first_refused_argument nat h_checker
                    [VInt 1; VStr "extra"; VInt 3] [("a", VStr "x")])
             [] "a" (VStr "x") []); try reflexivity.
    + intros [|[|[|[|i]]]] y; simpl; intros [= <-]; eexists; reflexivity.
    + intros n' v' [].
  - apply (proj1 (@first_refused_argument nat h_checker [VStr "s"] [("a", VStr "x")])
             [] (VStr "s") []); try reflexivity.
    intros [|i] y; discriminate.
Defined.

(** ** From the annotations to the call *)

Lemma sdict_get_Some_In A k (v : A) d : sdict_get k d = Some v -> In (k, v) d.
Proof.
  induction d as [|[k0 v0] rest IH]; simpl; [discriminate|].
  destruct (String.eqb_spec k0 k) as [->|_]; [intros [= ->]; now left | auto].
Qed.

Lemma sdict_get_None_iff A k (d : sdict A) :
  sdict_get k d = None <-> ~ In k (map fst d).
Proof.
  induction d as [|[k0 v0] rest IH]; simpl; [tauto|].
  destruct (String.eqb_spec k0 k) as [->|N].
  - split; [discriminate | intros H; elim H; now left].
  - rewrite IH. tauto.
Qed.

Lemma sdict_set_absent A k (v : A) d :
  ~ In k (map fst d) -> sdict_set k v d = (d ++ [(k, v)])%list.
Proof.
  induction d as [|[k0 v0] rest IH]; simpl; intros N; [reflexivity|].
  destruct (String.eqb_spec k0 k) as [->|_]; [elim N; now left|].
  rewrite IH; [reflexivity | tauto].
Qed.

Lemma sdict_fold_NoDup A (pairs : list (string * A)) :
  forall d,
    NoDup (map fst (d ++ pairs)%list) ->
    fold_left (fun d kv => sdict_set (fst kv) (snd kv) d) pairs d = (d ++ pairs)%list.
Proof.
  induction pairs as [|[k v] rest IH]; intros d H; simpl.
  - now rewrite app_nil_r.
  - rewrite sdict_set_absent.
    + rewrite IH; rewrite <- app_assoc; [reflexivity | exact H].
    + rewrite map_app in H. simpl in H. apply NoDup_remove_2 in H.
      intros HIn. apply H. apply in_or_app. now left.
Qed.

(** A [dict] built from pairs with distinct keys lists the pairs in order. *)
Lemma sdict_of_NoDup A (pairs : list (string * A)) :
  NoDup (map fst pairs) -> sdict_of pairs = pairs.
Proof. intros H. unfold sdict_of. now rewrite sdict_fold_NoDup. Qed.

Lemma existsb_eqb_In name names :
  existsb (String.eqb name) names = true <-> In name names.
Proof.
  rewrite existsb_exists. split.
  - intros (x & Hx & E). apply String.eqb_eq in E. now subst.
  - intros H. exists name. split; [exact H | apply String.eqb_refl].
Qed.

Section CallCheckerDecides.

Variable W : Type.
Variable func : callable W.
Variable force_annotation : bool.

Lemma create_checker_decides arg_name st c st' :
  reachable st ->
  create_checker func force_annotation arg_name st = (Return c, st') ->
  decides (annotation_of (func_argspec func) arg_name) c.
Proof.
  intros R H. change (get_type_checker (annotation_of (func_argspec func) arg_name) st
                      = (Return c, st')) in H.
  exact (proj2 (@get_type_checker_decides _ st _ st' (reachable_cache_decides R) H)
           c eq_refl).
Qed.

(** For distinct names, [create_checker_dict] lists the names in order, each
    with a validator that decides conformance to its annotation. *)
Lemma create_checker_dict_decides names st d st' :
  reachable st -> NoDup names ->
  create_checker_dict func force_annotation names st = (Return d, st') ->
  map fst d = names
  /\ forall name c, In (name, c) d ->
       decides (annotation_of (func_argspec func) (Some name)) c.
Proof.
  intros R Hnd H. unfold create_checker_dict in H.
  apply Mbind_inv in H as [(pairs & st1 & F & H) | (e & _ & [=])].
  apply (@mapM_Forall2 _ _ _ reachable
           (fun name p => fst p = name
              /\ decides (annotation_of (func_argspec func) (Some name)) (snd p)))
    in F as [R1 HQ]; [| |exact R].
  - injection H as <- _. specialize (HQ pairs eq_refl).
    assert (Hkeys : map fst pairs = names).
    { clear -HQ. induction HQ as [|n p ns ps [Hn _] _ IH]; simpl; congruence. }
    rewrite sdict_of_NoDup by (now rewrite Hkeys).
    split; [exact Hkeys|].
    intros name c HIn. clear -HQ HIn.
    induction HQ as [|n p ns ps [Hn Hm] _ IH]; [contradiction|].
    destruct HIn as [-> | HIn]; [simpl in *; now subst | auto].
  - intros name st0 r0 st0' R0 F0.
    apply Mbind_inv in F0 as [(c & st2 & G & F0) | (e & G & ->)].
    + destruct (@create_checker_spec _ _ _ _ _ _ _ R0 G) as [R2 _].
      injection F0 as <- <-. split; [exact R2|]. intros y [= <-]. simpl.
      split; [reflexivity|]. exact (@create_checker_decides (Some name) st0 c st2 R0 G).
    + destruct (@create_checker_spec _ _ _ _ _ _ _ R0 G) as [R2 _].
      split; [exact R2 | discriminate].
Qed.

(** What a checker that [__init__] returned holds. *)
Lemma FuncCallTypeChecker_init_fields check_args check_return st self st' :
  FuncCallTypeChecker_init func check_args check_return force_annotation st
  = (Return self, st') ->
  _func self = func
  /\ _check_args self = check_args
  /\ _check_return self = check_return
  /\ _kw_defaults self
     = match inspect.kwonlydefaults (func_argspec func) with
       | Some (d :: ds) => d :: ds
       | Some [] | None => []
       end
  /\ check_defaults (_kw_checkers self) keyword_default_message (_kw_defaults self)
     = Return tt.
Proof.
  intros H. unfold FuncCallTypeChecker_init in H.
  apply Mbind_inv in H as [(d1 & st1 & _ & H) | (e & _ & [=])].
  apply Mbind_inv in H as [(d2 & st2 & _ & H) | (e & _ & [=])].
  apply Mbind_inv in H as [(c3 & st3 & _ & H) | (e & _ & [=])].
  apply Mbind_inv in H as [(c4 & st4 & _ & H) | (e & _ & [=])].
  apply Mbind_inv in H as [(c5 & st5 & _ & H) | (e & _ & [=])].
  apply Mbind_inv in H as [(u6 & st6 & _ & H) | (e & _ & [=])].
  apply Mbind_inv in H as [(u7 & st7 & F7 & H) | (e & _ & [=])].
  injection H as <- _. simpl. unfold lift in F7. injection F7 as F7 _.
  destruct u7. repeat split; auto.
Qed.

Lemma FuncCallTypeChecker_init_decides check_args check_return st self st' :
  reachable st ->
  NoDup (inspect.args (func_argspec func)) ->
  NoDup (inspect.kwonlyargs (func_argspec func)) ->
  FuncCallTypeChecker_init func check_args check_return force_annotation st
  = (Return self, st') ->
  let spec := func_argspec func in
  map fst (_arg_checkers self) = inspect.args spec
  /\ (forall name c, In (name, c) (_arg_checkers self) ->
        decides (annotation_of spec (Some name)) c)
  /\ map fst (_kw_checkers self) = inspect.kwonlyargs spec
  /\ (forall name c, In (name, c) (_kw_checkers self) ->
        decides (annotation_of spec (Some name)) c)
  /\ decides (annotation_of spec (inspect.varargs spec)) (_varg_checker self)
  /\ decides (annotation_of spec (inspect.varkw spec)) (_vkw_checker self)
  /\ decides (annotation_of spec (Some "return")) (_ret_checker self).
Proof.
  intros R N1 N2 H spec. unfold FuncCallTypeChecker_init in H. fold spec in H.
  apply Mbind_inv in H as [(d1 & st1 & F1 & H) | (e & _ & [=])].
  destruct (@create_checker_dict_spec _ _ _ _ _ _ _ R F1) as [R1 _].
  destruct (@create_checker_dict_decides _ _ _ _ R N1 F1) as [K1 M1].
  apply Mbind_inv in H as [(d2 & st2 & F2 & H) | (e & _ & [=])].
  destruct (@create_checker_dict_spec _ _ _ _ _ _ _ R1 F2) as [R2 _].
  destruct (@create_checker_dict_decides _ _ _ _ R1 N2 F2) as [K2 M2].
  apply Mbind_inv in H as [(c3 & st3 & F3 & H) | (e & _ & [=])].
  destruct (@create_checker_spec _ _ _ _ _ _ _ R2 F3) as [R3 _].
  pose proof (@create_checker_decides _ _ _ _ R2 F3) as M3.
  apply Mbind_inv in H as [(c4 & st4 & F4 & H) | (e & _ & [=])].
  destruct (@create_checker_spec _ _ _ _ _ _ _ R3 F4) as [R4 _].
  pose proof (@create_checker_decides _ _ _ _ R3 F4) as M4.
  apply Mbind_inv in H as [(c5 & st5 & F5 & H) | (e & _ & [=])].
  pose proof (@create_checker_decides _ _ _ _ R4 F5) as M5.
  apply Mbind_inv in H as [(u6 & st6 & _ & H) | (e & _ & [=])].
  apply Mbind_inv in H as [(u7 & st7 & _ & H) | (e & _ & [=])].
  injection H as <- _. simpl.
  exact (conj K1 (conj M1 (conj K2 (conj M2 (conj M3 (conj M4 M5)))))).
Qed.

End CallCheckerDecides.

(** For a checker built by [__init__] from a function whose parameter names
    are distinct, the arguments pass their validators exactly when they
    conform to the annotations that govern them. *)
Lemma arguments_pass_iff_conform W (func : callable W)
  check_args check_return force_annotation st self st' args kwargs :
  reachable st ->
  NoDup (inspect.args (func_argspec func)) ->
  NoDup (inspect.kwonlyargs (func_argspec func)) ->
  FuncCallTypeChecker_init func check_args check_return force_annotation st
  = (Return self, st') ->
  arguments_pass self args kwargs <-> arguments_conform (func_argspec func) args kwargs.
Proof.
  intros R N1 N2 H.
  destruct (@FuncCallTypeChecker_init_decides W func force_annotation check_args
              check_return st self st' R N1 N2 H)
    as (K1 & M1 & K2 & M2 & M3 & M4 & _).
  set (spec := func_argspec func) in *.
  assert (Pos : forall i x,
             passes (positional_checker self i) x
             <-> conforms (positional_annotation spec i) x = true).
  { intros i x. unfold positional_checker, positional_annotation.
    rewrite <- K1, nth_error_map.
    destruct (nth_error (_arg_checkers self) i) as [[name c]|] eqn:E; simpl.
    - apply decides_passes. apply M1. eapply nth_error_In; eauto.
    - now apply decides_passes. }
  assert (Kw : forall name v,
             passes (keyword_checker self name) v
             <-> conforms (keyword_annotation spec name) v = true).
  { intros name v. unfold keyword_checker, keyword_annotation.
    destruct (sdict_get name (_arg_checkers self)) as [c|] eqn:E1.
    - apply sdict_get_Some_In in E1 as HIn.
      assert (Hin : In name (inspect.args spec)).
      { rewrite <- K1. change name with (fst (name, c)). now apply in_map. }
      apply existsb_eqb_In in Hin. rewrite Hin. simpl.
      apply decides_passes. now apply M1.
    - apply sdict_get_None_iff in E1. rewrite K1 in E1.
      destruct (existsb (String.eqb name) (inspect.args spec)) eqn:X1;
        [apply existsb_eqb_In in X1; contradiction|]. simpl.
      destruct (sdict_get name (_kw_checkers self)) as [c|] eqn:E2.
      + apply sdict_get_Some_In in E2 as HIn.
        assert (Hin : In name (inspect.kwonlyargs spec)).
        { rewrite <- K2. change name with (fst (name, c)). now apply in_map. }
        apply existsb_eqb_In in Hin. rewrite Hin.
        apply decides_passes. now apply M2.
      + apply sdict_get_None_iff in E2. rewrite K2 in E2.
        destruct (existsb (String.eqb name) (inspect.kwonlyargs spec)) eqn:X2;
          [apply existsb_eqb_In in X2; contradiction|].
        now apply decides_passes. }
  unfold arguments_pass, arguments_conform. split; intros [Hp Hk]; split.
  - intros i x Hx. apply Pos. auto.
  - intros name v HIn. apply Kw. auto.
  - intros i x Hx. apply Pos. auto.
  - intros name v HIn. apply Kw. auto.
Qed.

(** X11.  A function decorated with [type_check], both checks enabled, whose
    parameter names are distinct: when some argument of a call does not
    conform to the annotation that governs it, the call raises, the function
    is not entered and the world is as it was.  When every argument conforms,
    the function is entered once and the world is the one it leaves; what it
    raises is raised, what it returns is returned if it conforms to the
    annotation of [return], and otherwise the call raises, with a
    [TypeCheckError] on the return value as long as that annotation is
    supported. *)
Theorem type_checked_call_conformance (W : Type) (func : callable W)
  (force_annotations : bool) (st st' : registry) (f : type_checked W)
  (args : list value) (kwargs : sdict value) (w : W) :
  reachable st ->
  NoDup (inspect.args (func_argspec func)) ->
  NoDup (inspect.kwonlyargs (func_argspec func)) ->
  type_check_func func true true force_annotations st = (Return f, st') ->
  let spec := func_argspec func in
  let out := type_checked_call f args kwargs w in
  let after := func_body func args kwargs w in
  (~ arguments_conform spec args kwargs ->
   invocations out = 0 /\ world out = w /\ exists e, outcome out = Raise e)
  /\ (arguments_conform spec args kwargs ->
      invocations out = 1 /\ world out = snd after
      /\ match fst after with
         | Raise e => outcome out = Raise e
         | Return ret_ =>
             if conforms (annotation_of spec (Some "return")) ret_
             then outcome out = Return ret_
             else exists e,
                 outcome out = Raise e
                 /\ (supported (annotation_of spec (Some "return")) = true ->
                     exists cause,
                       e = Exc TypeCheckError "Return a incompatible value!"
                               (Some cause))
         end).
Proof.
  intros R N1 N2 H spec out after. subst out after.
  unfold type_check_func in H.
  apply Mbind_inv in H as [(self & st1 & Hinit & H) | (e & _ & [=])].
  injection H as <- _. unfold type_checked_call. simpl.
  destruct (@FuncCallTypeChecker_init_fields W func force_annotations true true
              st self st1 Hinit) as (Hf & Hca & Hcr & _).
  destruct (@FuncCallTypeChecker_init_decides W func force_annotations true true
              st self st1 R N1 N2 Hinit) as (_ & _ & _ & _ & _ & _ & Mret).
  fold spec in Mret.
  pose proof (@arguments_pass_iff_conform W func true true force_annotations
                st self st1 args kwargs R N1 N2 Hinit) as Hiff.
  fold spec in Hiff.
  unfold FuncCallTypeChecker_call. rewrite Hca, Hcr, Hf.
  pose proof (check_arguments_spec args self kwargs) as Hspec.
  destruct (check_arguments self args kwargs) as [u|e].
  - apply Hiff in Hspec. split; [intros N; now elim N|]. intros _.
    destruct (func_body func args kwargs w) as [[ret_|e] w']; simpl; [|auto].
    destruct (do_type_check (_ret_checker self) ret_ "Return a incompatible value!")
      as [r|e] eqn:D; simpl; (split; [reflexivity|]; split; [reflexivity|]).
    + assert (P : passes (_ret_checker self) ret_)
        by (apply (do_type_check_passes _ _ "Return a incompatible value!"); eauto).
      apply (decides_passes ret_ Mret) in P. now rewrite P.
    + destruct (conforms (annotation_of spec (Some "return")) ret_) eqn:C.
      * apply (decides_passes ret_ Mret) in C.
        apply (do_type_check_passes _ _ "Return a incompatible value!") in C as [r C].
        congruence.
      * exists e. split; [reflexivity|]. intros Hs.
        apply do_type_check_inv in D as [(err & -> & _) | [D Hc]]; [eauto|].
        destruct (call_exception _ _ D) as [T | [U _]].
        -- apply catches_TypeCheckError in T. congruence.
        -- rewrite (proj2 Mret Hs) in U. discriminate.
  - split; [|intros Hc; apply Hiff in Hc; now elim Hspec].
    intros _. simpl. eauto.
Qed.

Lemma type_checked_call_conformance_witness :
  exists f st',
    type_check_func basic true true false initial_registry = (Return f, st')
    /\ invocations (type_checked_call f [VFloat "0.0"; VInt 1]
                      [("c", VInt 2); ("d", VInt 3)] tt) = 0
    /\ invocations (type_checked_call f [VInt 0; VFloat "1.0"; VFloat "1.1"]
                      [("c", VTuple [VInt 2; VFloat "3.0"]);
                       ("d0", VList [VInt 3; VInt 4])] tt) = 1.
Proof.
  destruct (type_check_func basic true true false initial_registry) as [[f|e] st'] eqn:H;
    [|discriminate H].
  exists f, st'. split; [reflexivity|].
  assert (R : reachable initial_registry) by constructor.
  assert (N1 : NoDup (inspect.args (func_argspec basic)))
    by (repeat constructor; simpl; tauto).
  assert (N2 : NoDup (inspect.kwonlyargs (func_argspec basic)))
    by (repeat constructor; simpl; tauto).
  split.
  - apply (proj1 (@type_checked_call_conformance unit basic false _ _ f
                    [VFloat "0.0"; VInt 1] [("c", VInt 2); ("d", VInt 3)] tt
                    R N1 N2 H)).
    intros [Hpos _]. specialize (Hpos 0 (VFloat "0.0") eq_refl). discriminate.
  - apply (proj2 (@type_checked_call_conformance unit basic false _ _ f
                    [VInt 0; VFloat "1.0"; VFloat "1.1"]
                    [("c", VTuple [VInt 2; VFloat "3.0"]);
                     ("d0", VList [VInt 3; VInt 4])] tt R N1 N2 H)).
    split.
    + intros [|[|[|[|i]]]] x; simpl; intros [= <-]; reflexivity.
    + intros name v [[= <- <-] | [[= <- <-] | []]]; reflexivity.
Defined.

(** X12.  A checker that [__init__] returned has checked every default of a
    keyword-only parameter against the validator of that parameter: each
    declared default passes it, and, for a function with distinct parameter
    names built in a reachable state, conforms to the annotation of its
    parameter.  A keyword-only default that does not conform makes the
    construction raise. *)
Theorem keyword_only_defaults_checked (W : Type) (func : callable W)
  (check_args check_return force_annotation : bool)
  (st st' : registry) (self : FuncCallTypeChecker W) :
  FuncCallTypeChecker_init func check_args check_return force_annotation st
  = (Return self, st') ->
  forall defaults_ name v,
    inspect.kwonlydefaults (func_argspec func) = Some defaults_ ->
    In (name, v) defaults_ ->
    (exists c, sdict_get name (_kw_checkers self) = Some c /\ passes c v)
    /\ (reachable st ->
        NoDup (inspect.args (func_argspec func)) ->
        NoDup (inspect.kwonlyargs (func_argspec func)) ->
        conforms (annotation_of (func_argspec func) (Some name)) v = true).
Proof.
  intros H defaults_ name v Hd HIn.
  destruct (@FuncCallTypeChecker_init_fields W func force_annotation check_args
              check_return st self st' H) as (_ & _ & _ & Hkw & Hchk).
  rewrite Hd in Hkw.
  assert (HIn' : In (name, v) (_kw_defaults self)).
  { rewrite Hkw. destruct defaults_; [contradiction | exact HIn]. }
  unfold check_defaults in Hchk. rewrite for_enumerate_Return_iff in Hchk.
  apply In_nth_error in HIn' as [i Hi]. specialize (Hchk i (name, v) Hi).
  simpl in Hchk. unfold sdict_getitem in Hchk.
  destruct (sdict_get name (_kw_checkers self)) as [c|] eqn:E; [|discriminate].
  simpl in Hchk. apply check_step_iff in Hchk.
  split; [eauto|]. intros R N1 N2.
  destruct (@FuncCallTypeChecker_init_decides W func force_annotation check_args
              check_return st self st' R N1 N2 H) as (_ & _ & _ & M2 & _).
  apply sdict_get_Some_In in E. apply (decides_passes v (M2 name c E)). exact Hchk.
Qed.

Lemma keyword_only_defaults_checked_witness :
  (exists self st',
      FuncCallTypeChecker_init f_kwonly_default true true false initial_registry
      = (Return self, st')
      /\ conforms (annotation_of (func_argspec f_kwonly_default) (Some "a")) (VInt 1)
         = true)
  /\ (forall self st',
        FuncCallTypeChecker_init f_bad_kwonly_default true true false initial_registry
        <> (Return self, st')).
Proof.
  assert (R : reachable initial_registry) by constructor.
  split.
  - destruct (FuncCallTypeChecker_init f_kwonly_default true true false initial_registry)
      as [[self|e] st'] eqn:H; [|discriminate H].
    exists self, st'. split; [reflexivity|].
    apply (proj2 (@keyword_only_defaults_checked unit f_kwonly_default true true false
                    initial_registry st' self H [("a", VInt 1)] "a" (VInt 1) eq_refl
                    (or_introl eq_refl)) R).
    + constructor.
    + repeat constructor; simpl; tauto.
  - intros self st' H.
    assert (N1 : NoDup (inspect.args (func_argspec f_bad_kwonly_default)))
      by constructor.
    assert (N2 : NoDup (inspect.kwonlyargs (func_argspec f_bad_kwonly_default)))
      by (repeat constructor; simpl; tauto).
    destruct (@keyword_only_defaults_checked unit f_bad_kwonly_default true true false
                initial_registry st' self H [("a", VStr "x")] "a" (VStr "x") eq_refl
                (or_introl eq_refl)) as [_ C].
    specialize (C R N1 N2). discriminate.
Defined.

(** X13.  A function decorated with both checks disabled behaves as the
    function itself: every call enters it once with the arguments given and
    yields its outcome and its world, whatever the arguments, the annotations
    and the returned value are. *)
Theorem type_check_disabled_is_transparent (W : Type) (func : callable W)
  (force_annotations : bool) (st st' : registry) (f : type_checked W)
  (args : list value) (kwargs : sdict value) (w : W) :
  type_check_func func false false force_annotations st = (Return f, st') ->
  type_checked_call f args kwargs w
  = {| outcome := fst (func_body func args kwargs w);
       world := snd (func_body func args kwargs w);
       invocations := 1 |}.
Proof.
  intros H. unfold type_check_func in H.
  apply Mbind_inv in H as [(self & st1 & Hinit & H) | (e & _ & [=])].
  injection H as <- _. unfold type_checked_call. simpl.
  destruct (@FuncCallTypeChecker_init_fields W func force_annotations false false
              st self st1 Hinit) as (Hf & Hca & Hcr & _).
  unfold FuncCallTypeChecker_call. rewrite Hca, Hcr, Hf.
  destruct (func_body func args kwargs w) as [[ret_|e] w']; reflexivity.
Qed.

Lemma type_check_disabled_is_transparent_witness :
  exists f st',
    type_check_func h_counting false false false initial_registry = (Return f, st')
    /\ type_checked_call f [VStr "not an int"] [] 0
       = {| outcome := Return (VStr "done"); world := 1; invocations := 1 |}.
Proof.
  destruct (type_check_func h_counting false false false initial_registry)
    as [[f|e] st'] eqn:H; [|discriminate H].
  exists f, st'. split; [reflexivity|].
  exact (@type_check_disabled_is_transparent nat h_counting false _ _ f
           [VStr "not an int"] [] 0 H).
Defined.

(** ** Construction of a call checker returns *)

Lemma Mbind_Return A B (m : M A) (k : A -> M B) st a st1 :
  m st = (Return a, st1) -> Mbind m k st = k a st1.
Proof. unfold Mbind. now intros ->. Qed.

Section CallCheckerReturns.

Variable W : Type.
Variable func : callable W.
Variable force_annotation : bool.

Hypothesis annotations_wf :
  forall name d, In (name, d) (inspect.annotations (func_argspec func)) ->
                 wf_desc d = true.

Lemma annotation_of_wf arg_name :
  wf_desc (annotation_of (func_argspec func) arg_name) = true.
Proof.
  unfold annotation_of, dict_get. destruct arg_name as [name|]; [|reflexivity].
  destruct (sdict_get name (inspect.annotations (func_argspec func))) as [d|] eqn:E;
    [|reflexivity].
  apply sdict_get_Some_In in E. eauto.
Qed.

Lemma create_checker_returns arg_name st :
  exists c st', create_checker func force_annotation arg_name st = (Return c, st').
Proof.
  change (create_checker func force_annotation arg_name st)
    with (get_type_checker (annotation_of (func_argspec func) arg_name) st).
  apply get_type_checker_returns, annotation_of_wf.
Qed.

Lemma create_checker_dict_returns names st :
  exists d st', create_checker_dict func force_annotation names st = (Return d, st').
Proof.
  unfold create_checker_dict.
  assert (Hmap : forall st,
             exists pairs st',
               mapM (fun arg_name =>
                       c <-- create_checker func force_annotation (Some arg_name) ;;
                       ret (arg_name, c)) names st = (Return pairs, st')).
  { induction names as [|name rest IH]; intros st0; simpl.
    - unfold ret. eauto.
    - destruct (create_checker_returns (Some name) st0) as (c & st1 & E1).
      destruct (IH st1) as (pairs & st2 & E2).
      exists ((name, c) :: pairs), st2.
      erewrite Mbind_Return;
        [|erewrite Mbind_Return; [reflexivity | exact E1]].
      erewrite Mbind_Return; [reflexivity | exact E2]. }
  destruct (Hmap st) as (pairs & st' & E). exists (sdict_of pairs), st'.
  erewrite Mbind_Return; [reflexivity | exact E].
Qed.

End CallCheckerReturns.

(** X15.  Constructing the call checker of a function returns whenever its
    annotations are descriptions as [typing] builds them, its keyword-only
    parameters have distinct names, and every default of a keyword-only
    parameter belongs to a declared keyword-only parameter and conforms to
    its annotation.  Nothing is required of the parameters without
    annotation, of the defaults of positional parameters, nor of
    [force_annotation]. *)
Theorem FuncCallTypeChecker_init_returns (W : Type) (func : callable W)
  (check_args check_return force_annotation : bool) (st : registry) :
  reachable st ->
  NoDup (inspect.kwonlyargs (func_argspec func)) ->
  (forall name d, In (name, d) (inspect.annotations (func_argspec func)) ->
                  wf_desc d = true) ->
  (forall defaults_ name v,
      inspect.kwonlydefaults (func_argspec func) = Some defaults_ ->
      In (name, v) defaults_ ->
      In name (inspect.kwonlyargs (func_argspec func))
      /\ conforms (annotation_of (func_argspec func) (Some name)) v = true) ->
  exists self st',
    FuncCallTypeChecker_init func check_args check_return force_annotation st
    = (Return self, st').
Proof.
  intros R N2 Hwf Hdef. set (spec := func_argspec func) in *.
  destruct (@create_checker_dict_returns W func force_annotation Hwf
              (inspect.args spec) st) as (d1 & st1 & E1).
  destruct (@create_checker_dict_spec _ _ _ _ _ _ _ R E1) as [R1 _].
  destruct (@create_checker_dict_returns W func force_annotation Hwf
              (inspect.kwonlyargs spec) st1) as (d2 & st2 & E2).
  destruct (@create_checker_dict_spec _ _ _ _ _ _ _ R1 E2) as [R2 _].
  destruct (@create_checker_dict_decides _ _ _ _ _ _ _ R1 N2 E2) as [K2 M2].
  destruct (@create_checker_returns W func force_annotation Hwf
              (inspect.varargs spec) st2) as (c3 & st3 & E3).
  destruct (@create_checker_returns W func force_annotation Hwf
              (inspect.varkw spec) st3) as (c4 & st4 & E4).
  destruct (@create_checker_returns W func force_annotation Hwf
              (Some "return") st4) as (c5 & st5 & E5).
  assert (Hk : check_defaults d2 keyword_default_message
                 match inspect.kwonlydefaults spec with
                 | Some (d :: ds) => d :: ds
                 | Some [] | None => []
                 end = Return tt).
  { unfold check_defaults. apply for_enumerate_ok. intros i [name v] Hi.
    apply nth_error_In in Hi. simpl.
    assert (HIn : exists defaults_,
               inspect.kwonlydefaults spec = Some defaults_ /\ In (name, v) defaults_).
    { destruct (inspect.kwonlydefaults spec) as [[|d ds]|]; try contradiction. eauto. }
    destruct HIn as (defaults_ & Hd & HIn).
    destruct (Hdef defaults_ name v Hd HIn) as [Hname Hconf].
    unfold sdict_getitem.
    destruct (sdict_get name d2) as [c|] eqn:E.
    - simpl. apply check_step_iff. apply sdict_get_Some_In in E.
      apply (decides_passes v (M2 name c E)). exact Hconf.
    - apply sdict_get_None_iff in E. rewrite K2 in E. contradiction. }
  eexists. exists st5. unfold FuncCallTypeChecker_init. fold spec.
  erewrite Mbind_Return; [|exact E1].
  erewrite Mbind_Return; [|exact E2].
  erewrite Mbind_Return; [|exact E3].
  erewrite Mbind_Return; [|exact E4].
  erewrite Mbind_Return; [|exact E5].
  rewrite arg_defaults_pairs_nil.
  erewrite Mbind_Return; [|reflexivity].
  erewrite Mbind_Return; [|unfold lift; apply f_equal2; [exact Hk | reflexivity]].
  reflexivity.
Qed.

Lemma FuncCallTypeChecker_init_returns_witness :
  exists self st',
    FuncCallTypeChecker_init f_kwonly_default true true true initial_registry
    = (Return self, st').
Proof.
  apply (@FuncCallTypeChecker_init_returns unit f_kwonly_default true true true
           initial_registry).
  - constructor.
  - repeat constructor; simpl; tauto.
  - intros name d [[= <- <-] | []]. reflexivity.
  - intros defaults_ name v [= <-] [[= <- <-] | []]. split; [now left | reflexivity].
Defined.

(** ** The children of a container validator are the registry's *)

Lemma dsize_erase d : dsize (erase d) = dsize d.
Proof.
  induction d as [c| | | |n c|oid o args IH] using desc_ind'; try reflexivity.
  simpl. f_equal. induction IH as [|a rest Ha _ IHrest]; simpl; [reflexivity|].
  now rewrite Ha, IHrest.
Qed.

Lemma dsize_equal d e : desc_eqb d e = true -> dsize d = dsize e.
Proof.
  intros E. apply desc_eqb_erase in E.
  now rewrite <- (dsize_erase d), <- (dsize_erase e), E.
Qed.

Lemma dsize_arg oid o args a : In a args -> dsize a < dsize (DAlias oid o args).
Proof.
  simpl. induction args as [|a0 rest IH]; simpl; [contradiction|].
  intros [-> | H]; [lia | specialize (IH H); lia].
Qed.

Lemma cache_get_set_absent k v l k' :
  cache_get k l = None ->
  cache_get k' (cache_set k v l) = if desc_eqb k k' then Some v else cache_get k' l.
Proof.
  intros E. destruct (desc_eqb k k') eqn:Ekk.
  - rewrite <- (@cache_get_equal_keys k k' _ Ekk). apply cache_get_set_same.
  - now apply cache_get_set_other.
Qed.

Lemma mapM_adds_small args :
  Forall lookup_adds_small args ->
  forall st r st',
    mapM get_type_checker args st = (r, st') ->
    forall k, (forall a, In a args -> dsize a < dsize k) ->
              cache_get k (cache st) = None -> cache_get k (cache st') = None.
Proof.
  induction 1 as [|a rest Ha _ IH]; simpl; intros st r st' H k Hk E.
  - now injection H as <- <-.
  - assert (Ea : forall st1 r1, get_type_checker a st = (r1, st1) ->
                                cache_get k (cache st1) = None).
    { intros st1 r1 G. apply (Ha _ _ _ G k); auto. }
    apply Mbind_inv in H as [(c & st1 & G & H) | (e & G & _)]; [|eauto].
    assert (Hrest : forall a0, In a0 rest -> dsize a0 < dsize k) by auto.
    apply Mbind_inv in H as [(cs & st2 & G' & H) | (e & G' & _)].
    + injection H as <- <-. exact (IH _ _ _ G' k Hrest (Ea _ _ G)).
    + exact (IH _ _ _ G' k Hrest (Ea _ _ G)).
Qed.

Lemma create_type_checker_adds_small type_ :
  match type_ with
  | DAlias _ _ args => Forall lookup_adds_small args
  | _ => True
  end ->
  forall st r st',
    create_type_checker get_type_checker type_ st = (r, st') ->
    forall k, dsize type_ <= dsize k ->
              cache_get k (cache st) = None -> cache_get k (cache st') = None.
Proof.
  intros IH st r st' H k Hk E.
  destruct type_ as [c| | | |n c|oid o args]; simpl in H;
    try (injection H as <- <-; exact E).
  assert (Hargs : forall a, In a args -> dsize a < dsize k).
  { intros a Ha. pose proof (dsize_arg oid o args a Ha). lia. }
  destruct o as [| | | |name]; simpl in H;
    apply Mbind_inv in H as [(id_ & st1 & F & H) | (e & F & _)];
    try discriminate; injection F as <- <-.
  - apply Mbind_inv in H as [(cs & st2 & G & H) | (e & G & _)];
      [injection H as <- <-|]; exact (mapM_adds_small IH _ G k Hargs E).
  - destruct args as [|a0 rest]; [injection H as <- <-; exact E|].
    apply Forall_inv in IH.
    apply Mbind_inv in H as [(c0 & st2 & G & H) | (e & G & _)];
      [injection H as <- <-|]; apply (IH _ _ _ G k); auto; apply Hargs; now left.
  - destruct args as [|a0 rest]; [injection H as <- <-; exact E|].
    pose proof (Forall_inv IH) as IH0. apply Forall_inv_tail in IH.
    assert (E0 : forall st2 r2, get_type_checker a0 (mk_registry (S (next_id st)) (cache st))
                                = (r2, st2) -> cache_get k (cache st2) = None).
    { intros st2 r2 G. apply (IH0 _ _ _ G k); auto. apply Hargs. now left. }
    apply Mbind_inv in H as [(c0 & st2 & G & H) | (e & G & _)]; [|eauto].
    destruct rest as [|a1 rest]; [injection H as <- <-; eauto|].
    apply Forall_inv in IH.
    apply Mbind_inv in H as [(c1 & st3 & G1 & H) | (e & G1 & _)];
      [injection H as <- <-|]; apply (IH _ _ _ G1 k); eauto;
      apply Hargs; right; now left.
  - destruct args as [|a0 rest]; [injection H as <- <-; exact E|].
    apply Forall_inv in IH.
    apply Mbind_inv in H as [(c0 & st2 & G & H) | (e & G & _)];
      [injection H as <- <-|]; apply (IH _ _ _ G k); auto; apply Hargs; now left.
  - injection H as <- <-. exact E.
Qed.

Lemma get_type_checker_adds_small type_ : lookup_adds_small type_.
Proof.
  assert (Step : forall t,
             match t with DAlias _ _ args => Forall lookup_adds_small args | _ => True end ->
             lookup_adds_small t).
  { intros t IH st r st' H k Hk Ek.
    destruct (cache_get t (cache st)) as [c0|] eqn:E.
    - rewrite (@get_type_checker_hit t st c0 E) in H. now injection H as <- <-.
    - rewrite (@get_type_checker_miss t st E) in H.
      destruct (create_type_checker get_type_checker t st) as [[c|e] st1] eqn:C;
        pose proof (@create_type_checker_adds_small t IH st _ st1 C k
                      (Nat.lt_le_incl _ _ Hk) Ek) as E1;
        injection H as <- <-; [|exact E1].
      simpl. rewrite cache_get_set_other; [exact E1|].
      destruct (desc_eqb t k) eqn:Etk; [|reflexivity].
      apply dsize_equal in Etk. lia. }
  induction type_ using desc_ind'; apply Step; auto.
Qed.

(** A description that is not cached is still not cached when the validator
    for it has been created, before it is stored. *)
Lemma create_type_checker_keeps_absent type_ st r st' :
  create_type_checker get_type_checker type_ st = (r, st') ->
  cache_get type_ (cache st) = None -> cache_get type_ (cache st') = None.
Proof.
  intros H E. apply (@create_type_checker_adds_small type_) with (k := type_) in H;
    auto.
  destruct type_ as [c| | | |n c|oid o args]; auto.
  rewrite Forall_forall. intros a _. apply get_type_checker_adds_small.
Qed.

Lemma children_cached_mono type_ c l l' :
  (forall k c0, cache_get k l = Some c0 -> cache_get k l' = Some c0) ->
  children_cached type_ c l -> children_cached type_ c l'.
Proof.
  intros Hmono. destruct type_ as [| | | | |oid o args]; auto.
  destruct o as [| | | |name]; simpl; auto.
  - intros (id_ & t & cs & -> & F). exists id_, t, cs. split; [reflexivity|].
    induction F; constructor; auto.
  - destruct args as [|a rest]; auto.
    intros (id_ & t & c0 & -> & H). exists id_, t, c0. auto.
  - destruct args as [|k [|a rest]]; auto.
    intros (id_ & t & kc & vc & -> & Hk & Hv). exists id_, t, kc, vc. auto.
  - destruct args as [|a rest]; auto.
    intros (id_ & t & c0 & -> & H). exists id_, t, c0. auto.
Qed.

Lemma tuple_eqb_Forall2 l l' :
  tuple_eqb desc_eqb l l' = true -> Forall2 (fun a a' => desc_eqb a a' = true) l l'.
Proof.
  revert l'. induction l as [|a rest IH]; intros [|a' rest']; simpl;
    try discriminate; [constructor|].
  intros H. apply andb_true_iff in H as [Ha Hr]. constructor; auto.
Qed.

Lemma children_cached_equal type_ type_' c l :
  desc_eqb type_' type_ = true ->
  children_cached type_ c l -> children_cached type_' c l.
Proof.
  intros E.
  destruct type_' as [| | | | |oid' o' args'], type_ as [| | | | |oid o args];
    simpl in E; try discriminate E; auto.
  apply andb_true_iff in E as [Eo Eargs]. apply origin_eqb_eq in Eo. subst o'.
  apply tuple_eqb_Forall2 in Eargs.
  destruct o as [| | | |name]; simpl; auto.
  - intros (id_ & t & cs & -> & F). exists id_, t, cs. split; [reflexivity|].
    clear -Eargs F. revert cs F.
    induction Eargs as [|a' a args' args Ea _ IH]; intros cs F;
      inversion F; subst; constructor; auto.
    now rewrite (@cache_get_equal_keys a' a l Ea).
  - destruct Eargs as [|a' a args' args Ea _]; auto.
    intros (id_ & t & c0 & -> & H). exists id_, t, c0.
    now rewrite (@cache_get_equal_keys a' a l Ea).
  - destruct Eargs as [|k' k args' args Ek Eargs]; auto.
    destruct Eargs as [|a' a args' args Ea _]; auto.
    intros (id_ & t & kc & vc & -> & Hk & Hv). exists id_, t, kc, vc.
    now rewrite (@cache_get_equal_keys k' k l Ek), (@cache_get_equal_keys a' a l Ea).
  - destruct Eargs as [|a' a args' args Ea _]; auto.
    intros (id_ & t & c0 & -> & H). exists id_, t, c0.
    now rewrite (@cache_get_equal_keys a' a l Ea).
Qed.

Lemma mapM_children args :
  Forall lookup_children args ->
  forall st r st',
    cache_children st -> mapM get_type_checker args st = (r, st') ->
    cache_children st'
    /\ forall cs, r = Return cs ->
         Forall2 (fun a c0 => cache_get a (cache st') = Some c0) args cs.
Proof.
  induction 1 as [|a rest Ha Hrest IH]; simpl; intros st r st' HP H.
  - injection H as <- <-. split; [exact HP|]. intros cs [= <-]. constructor.
  - apply Mbind_inv in H as [(c & st1 & G & H) | (e & G & ->)].
    + destruct (Ha _ _ _ HP G) as [HP1 _].
      pose proof (get_type_checker_cached _ _ G) as Hc.
      assert (Hext : forall st2 r2, mapM get_type_checker rest st1 = (r2, st2) ->
                                    cache_get a (cache st2) = Some c).
      { intros st2 r2 G'. eapply mapM_extends in G' as [_ Hk]; [now apply Hk|].
        rewrite Forall_forall. intros a0 _. apply get_type_checker_extends. }
      apply Mbind_inv in H as [(cs & st2 & G' & H) | (e & G' & ->)].
      * destruct (IH _ _ _ HP1 G') as [HP2 Ds]. injection H as <- <-.
        split; [exact HP2|]. intros cs' [= <-]. constructor; eauto.
      * destruct (IH _ _ _ HP1 G') as [HP2 _]. split; [exact HP2 | discriminate].
    + destruct (Ha _ _ _ HP G) as [HP1 _]. split; [exact HP1 | discriminate].
Qed.

Lemma create_type_checker_children type_ :
  match type_ with
  | DAlias _ _ args => Forall lookup_children args
  | _ => True
  end ->
  forall st r st',
    cache_children st ->
    create_type_checker get_type_checker type_ st = (r, st') ->
    cache_children st'
    /\ forall c, r = Return c -> children_cached type_ c (cache st').
Proof.
  intros IH st r st' HP H.
  destruct type_ as [c| | | |n c|oid o args]; simpl in H;
    try (injection H as <- <-; split; [exact HP|]; intros c' _; exact I).
  destruct o as [| | | |name]; simpl in H;
    apply Mbind_inv in H as [(id_ & st1 & F & H) | (e & F & _)];
    try discriminate; injection F as <- <-;
    change (cache_children (mk_registry (S (next_id st)) (cache st))) in HP.
  - apply Mbind_inv in H as [(cs & st2 & G & H) | (e & G & ->)];
      destruct (@mapM_children args IH _ _ _ HP G) as [HP2 Ds];
      [|split; [exact HP2 | discriminate]].
    injection H as <- <-. split; [exact HP2|]. intros c' [= <-]. simpl.
    exists (next_id st), (DAlias oid o_tuple args), cs. auto.
  - destruct args as [|a0 rest]; [injection H as <- <-; split; [exact HP | discriminate]|].
    apply Forall_inv in IH.
    apply Mbind_inv in H as [(c0 & st2 & G & H) | (e & G & ->)];
      destruct (IH _ _ _ HP G) as [HP2 _]; [|split; [exact HP2 | discriminate]].
    injection H as <- <-. split; [exact HP2|]. intros c' [= <-]. simpl.
    exists (next_id st), (DAlias oid o_list (a0 :: rest)), c0.
    split; [reflexivity | exact (get_type_checker_cached _ _ G)].
  - destruct args as [|a0 rest]; [injection H as <- <-; split; [exact HP | discriminate]|].
    pose proof (Forall_inv IH) as IH0. apply Forall_inv_tail in IH.
    apply Mbind_inv in H as [(c0 & st2 & G & H) | (e & G & ->)];
      destruct (IH0 _ _ _ HP G) as [HP2 _]; [|split; [exact HP2 | discriminate]].
    destruct rest as [|a1 rest];
      [injection H as <- <-; split; [exact HP2 | discriminate]|].
    apply Forall_inv in IH.
    apply Mbind_inv in H as [(c1 & st3 & G1 & H) | (e & G1 & ->)];
      destruct (IH _ _ _ HP2 G1) as [HP3 _]; [|split; [exact HP3 | discriminate]].
    injection H as <- <-. split; [exact HP3|]. intros c' [= <-]. simpl.
    exists (next_id st), (DAlias oid o_dict (a0 :: a1 :: rest)), c0, c1.
    split; [reflexivity|]. split; [|exact (get_type_checker_cached _ _ G1)].
    apply (proj2 (get_type_checker_extends _ _ G1)).
    exact (get_type_checker_cached _ _ G).
  - destruct args as [|a0 rest]; [injection H as <- <-; split; [exact HP | discriminate]|].
    apply Forall_inv in IH.
    apply Mbind_inv in H as [(c0 & st2 & G & H) | (e & G & ->)];
      destruct (IH _ _ _ HP G) as [HP2 _]; [|split; [exact HP2 | discriminate]].
    injection H as <- <-. split; [exact HP2|]. intros c' [= <-]. simpl.
    exists (next_id st), (DAlias oid o_set (a0 :: rest)), c0.
    split; [reflexivity | exact (get_type_checker_cached _ _ G)].
  - injection H as <- <-. split; [exact HP|]. intros c' _. exact I.
Qed.

Lemma get_type_checker_children type_ : lookup_children type_.
Proof.
  assert (Step : forall t,
             match t with DAlias _ _ args => Forall lookup_children args | _ => True end ->
             lookup_children t).
  { intros t IH st r st' HP H.
    destruct (cache_get t (cache st)) as [c0|] eqn:E.
    - rewrite (@get_type_checker_hit t st c0 E) in H. injection H as <- <-.
      split; [exact HP|]. intros c [= <-].
      apply cache_get_Some in E as (k' & HIn & E). rewrite desc_eqb_sym in E.
      exact (@children_cached_equal k' t c0 _ E (HP _ _ HIn)).
    - rewrite (@get_type_checker_miss t st E) in H.
      destruct (create_type_checker get_type_checker t st) as [[c|e] st1] eqn:C;
        destruct (@create_type_checker_children t IH st _ st1 HP C) as [HP1 D];
        injection H as <- <-; [|split; [exact HP1 | discriminate]].
      pose proof (@create_type_checker_keeps_absent t st _ st1 C E) as E1.
      assert (Hmono : forall k c0, cache_get k (cache st1) = Some c0 ->
                                   cache_get k (cache_set t c (cache st1)) = Some c0).
      { intros k c0 Hk. rewrite (@cache_get_set_absent t c (cache st1) k E1).
        destruct (desc_eqb t k) eqn:Etk; [|exact Hk].
        rewrite (@cache_get_equal_keys t k _ Etk) in E1. congruence. }
      specialize (D c eq_refl). split.
      + intros k' c' HIn. simpl in HIn |- *.
        apply In_cache_set in HIn as [HIn | (-> & Ek & _)].
        * exact (@children_cached_mono _ _ _ _ Hmono (HP1 _ _ HIn)).
        * apply (@children_cached_equal t k' c _ Ek).
          exact (@children_cached_mono _ _ _ _ Hmono D).
      + intros c' [= <-]. simpl. exact (@children_cached_mono _ _ _ _ Hmono D). }
  induction type_ using desc_ind'; apply Step; auto.
Qed.

Lemma reachable_cache_children st : reachable st -> cache_children st.
Proof.
  induction 1 as [|st type_ r st' _ IH G]; [intros k c []|].
  exact (proj1 (@get_type_checker_children type_ st r st' IH G)).
Qed.

(** X16.  In every state the program can reach, the validator returned for a
    tuple, list, dict or set description is of the class the dispatch table
    gives for that origin, and each child it holds is the validator the
    registry itself holds for the argument it was built for: a lookup of the
    argument returns that very child.  Validators are shared through the
    registry, not owned by their parent. *)
Theorem container_children_are_cached
  (type_ : desc) (st st' : registry) (c : checker) :
  reachable st ->
  get_type_checker type_ st = (Return c, st') ->
  children_cached type_ c (cache st')
  /\ forall a c0, cache_get a (cache st') = Some c0 ->
                  get_type_checker a st' = (Return c0, st').
Proof.
  intros R H. split.
  - exact (proj2 (@get_type_checker_children type_ st _ st'
                    (reachable_cache_children R) H) c eq_refl).
  - intros a c0. apply get_type_checker_hit.
Qed.

Lemma container_children_are_cached_witness :
  let st := snd (get_type_checker tuple_int_float initial_registry) in
  exists id_ t c0 st',
    get_type_checker list_of_int st = (Return (ListTypeChecker id_ t c0), st')
    /\ get_type_checker (DClass c_int) st' = (Return c0, st')
    /\ get_type_checker (DClass c_int) st = (Return c0, st).
Proof.
  intros st.
  assert (R : reachable st).
  { eapply reachable_lookup with (type_ := tuple_int_float);
      [constructor | apply surjective_pairing]. }
  destruct (get_type_checker list_of_int st) as [[c|e] st'] eqn:H; [|discriminate H].
  destruct (@container_children_are_cached list_of_int st st' c R H)
    as [(id_ & t & c0 & -> & Hc) Hget].
  exists id_, t, c0, st'. split; [reflexivity|]. split; [now apply Hget|].
  vm_compute in H. injection H as <- <- <- _. reflexivity.
Defined.
